(** * Article fetcher: extraction and conversion pipeline

    A shallow embedding of [article_fetcher_gui.py] (and of the cleanup
    helper of [fetch_article.py]): the source classifier, the title
    extraction, the HTML to Markdown transform, image discovery and
    download, the filename sanitizer and the two-tier EPUB packager.

    Python [str] values are sequences of Unicode code points; they are
    modelled as lists of [N], so that [len], slicing and [in] count code
    points exactly as Python does. *)

From Stdlib Require Import String Ascii NArith List Bool Lia.
From stdpp Require Import base option list gmap pretty.

Local Open Scope N_scope.
Local Open Scope list_scope.

(** ** Python strings *)

Abbreviation char := N (only parsing).
Abbreviation str := (list N) (only parsing).

(** [L "abc"] is the Python literal ['abc'] (ASCII literals only). *)
Definition L (s : string) : str :=
  List.map N_of_ascii (list_ascii_of_string s).

Definition dq : char := 34.    (* the double quote *)
Definition sq : char := 39.    (* the single quote *)
Definition nl : char := 10.    (* '\n' *)
Definition bsl : char := 92.   (* the backslash *)

(** [str.startswith]. *)
Fixpoint startswith (s p : str) {struct p} : bool :=
  match p, s with
  | [], _ => true
  | a :: p', b :: s' => (a =? b) && startswith s' p'
  | _ :: _, [] => false
  end.

(** [needle in hay]. *)
Fixpoint contains (needle hay : str) : bool :=
  startswith hay needle ||
  match hay with
  | [] => false
  | _ :: t => contains needle t
  end.

(** Truthiness of a string: [if s] holds for the non-empty ones. *)
Definition truthy (s : str) : bool :=
  match s with [] => false | _ :: _ => true end.

(** Python's whitespace: the characters [str.strip] removes and the
    pattern [\s] matches on [str] ([Py_UNICODE_ISSPACE]). *)
Definition isspace (c : char) : bool :=
  ((9 <=? c) && (c <=? 13)) || ((28 <=? c) && (c <=? 32)) ||
  (c =? 133) || (c =? 160) || (c =? 5760) ||
  ((8192 <=? c) && (c <=? 8202)) || (c =? 8232) || (c =? 8233) ||
  (c =? 8239) || (c =? 8287) || (c =? 12288).

Fixpoint lstrip (s : str) : str :=
  match s with
  | c :: t => if isspace c then lstrip t else s
  | [] => []
  end.

(** [str.rstrip()]: the result is empty exactly when nothing but
    whitespace follows. *)
Fixpoint rstrip (s : str) : str :=
  match s with
  | [] => []
  | c :: t =>
      match rstrip t with
      | [] => if isspace c then [] else [c]
      | t' => c :: t'
      end
  end.

Definition strip (s : str) : str := rstrip (lstrip s).

(** [s.split('\n')]. *)
Fixpoint split_nl (s : str) : list str :=
  match s with
  | [] => [[]]
  | c :: t =>
      if c =? nl then [] :: split_nl t
      else match split_nl t with
           | l :: ls => (c :: l) :: ls
           | [] => [[c]]
           end
  end.

(** [sep.join(parts)]. *)
Fixpoint join (sep : str) (ls : list str) : str :=
  match ls with
  | [] => []
  | [l] => l
  | l :: ls' => l ++ sep ++ join sep ls'
  end.

(** [enumerate(l, start)]. *)
Fixpoint enumerate {A : Type} (start : nat) (l : list A) : list (nat * A) :=
  match l with
  | [] => []
  | x :: l' => (start, x) :: enumerate (S start) l'
  end.

(** [str(i)] for a non-negative integer. *)
Definition str_of_nat (i : nat) : str := L (pretty i).

(** [s.replace(old, new)]: occurrences are replaced from left to right,
    without overlap. [skip] counts the characters of the occurrence being
    replaced that are still to be passed over. An empty [old] occurs
    before every character and at the end. *)
Fixpoint replace_go (old new : str) (skip : nat) (s : str) : str :=
  match s with
  | [] => []
  | c :: t =>
      match skip with
      | S n => replace_go old new n t
      | O =>
          if startswith s old
          then new ++ replace_go old new (Nat.pred (length old)) t
          else c :: replace_go old new O t
      end
  end.

Definition replace (old new s : str) : str :=
  match old with
  | [] => new ++ List.concat (List.map (fun c => c :: new) s)
  | _ :: _ => replace_go old new O s
  end.

(** ** Regular expressions

    The fragment of Python's [re] that the program uses: literals (plain
    or under [re.I]), character classes, a repeated character class
    (greedy or lazy, with a lower bound), sequence, ordered alternative,
    numbered groups, back-references, [^] under [re.MULTILINE] and [$].
    Matching is by backtracking in Python's priority order. Every
    repetition in the patterns embedded below is over a single-character
    class, which is what [Rep] provides. *)

Module Re.

Inductive re : Type :=
  | Lit (w : str)
  | ILit (w : str)
  | Cls (p : char -> bool)
  | Rep (p : char -> bool) (lo : nat) (greedy : bool)
  | Seq (r1 r2 : re)
  | Alt (r1 r2 : re)
  | Grp (i : nat) (r : re)
  | Ref (i : nat)
  | Bol
  | Eos.

Definition caps := list (nat * str).

Fixpoint lookup_cap (i : nat) (g : caps) : option str :=
  match g with
  | [] => None
  | (j, w) :: g' => if Nat.eqb i j then Some w else lookup_cap i g'
  end.

(** Character equality under [re.I] for an ASCII pattern character [p]:
    the two cases of the letter, and the characters whose simple case
    mapping is the letter (dotted and dotless i, long s, Kelvin sign). *)
Definition is_upper (c : char) : bool := (65 <=? c) && (c <=? 90).
Definition is_lower (c : char) : bool := (97 <=? c) && (c <=? 122).
Definition ascii_lower (c : char) : char := if is_upper c then c + 32 else c.

Definition ieq (p c : char) : bool :=
  let lp := ascii_lower p in
  (ascii_lower c =? lp) ||
  ((lp =? 105) && ((c =? 304) || (c =? 305))) ||
  ((lp =? 115) && (c =? 383)) ||
  ((lp =? 107) && (c =? 8490)).

Fixpoint istartswith (s p : str) {struct p} : bool :=
  match p, s with
  | [], _ => true
  | a :: p', b :: s' => ieq a b && istartswith s' p'
  | _ :: _, [] => false
  end.

(** Whether the position after consuming [w] is at the beginning of a
    line, given that the position before was ([bol]). *)
Fixpoint bol_after (w : str) (bol : bool) : bool :=
  match w with
  | [] => bol
  | c :: w' => bol_after w' (c =? nl)
  end.

Section Matcher.
Context {A : Type}.

(** [p{lo,}], longest first. *)
Fixpoint rep_greedy (p : char -> bool) (lo : nat) (bol : bool) (s : str)
    (k : bool -> str -> option A) {struct s} : option A :=
  match s with
  | c :: t =>
      if p c then
        match rep_greedy p (Nat.pred lo) (c =? nl) t k with
        | Some x => Some x
        | None => match lo with O => k bol s | S _ => None end
        end
      else match lo with O => k bol s | S _ => None end
  | [] => match lo with O => k bol s | S _ => None end
  end.

(** [p{lo,}?], shortest first. *)
Fixpoint rep_lazy (p : char -> bool) (lo : nat) (bol : bool) (s : str)
    (k : bool -> str -> option A) {struct s} : option A :=
  match lo with
  | S lo' =>
      match s with
      | c :: t => if p c then rep_lazy p lo' (c =? nl) t k else None
      | [] => None
      end
  | O =>
      match k bol s with
      | Some x => Some x
      | None =>
          match s with
          | c :: t => if p c then rep_lazy p O (c =? nl) t k else None
          | [] => None
          end
      end
  end.

(** The backtracking matcher, in continuation-passing style: [m r bol s
    g k] matches [r] at the head of [s] and hands the position reached,
    the rest of the input and the groups to [k]; when [k] fails the next
    way of matching [r] is tried. *)
Fixpoint m (r : re) (bol : bool) (s : str) (g : caps)
    (k : bool -> str -> caps -> option A) {struct r} : option A :=
  match r with
  | Lit w =>
      if startswith s w then k (bol_after w bol) (drop (length w) s) g
      else None
  | ILit w =>
      if istartswith s w then k (bol_after w bol) (drop (length w) s) g
      else None
  | Cls p =>
      match s with
      | c :: t => if p c then k (c =? nl) t g else None
      | [] => None
      end
  | Rep p lo true => rep_greedy p lo bol s (fun b s' => k b s' g)
  | Rep p lo false => rep_lazy p lo bol s (fun b s' => k b s' g)
  | Seq r1 r2 => m r1 bol s g (fun b s' g' => m r2 b s' g' k)
  | Alt r1 r2 =>
      match m r1 bol s g k with
      | Some x => Some x
      | None => m r2 bol s g k
      end
  | Grp i r' =>
      m r' bol s g
        (fun b s' g' => k b s' ((i, take (length s - length s') s) :: g'))
  | Ref i =>
      match lookup_cap i g with
      | Some w =>
          if startswith s w then k (bol_after w bol) (drop (length w) s) g
          else None
      | None => None
      end
  | Bol => if bol then k bol s g else None
  | Eos =>
      match s with
      | [] => k bol s g
      | [c] => if c =? nl then k bol s g else None
      | _ => None
      end
  end.
End Matcher.

(** A match object: the matched text ([group(0)]) and the groups. *)
Record mobj := MObj { m_text : str; m_groups : caps }.

Definition group (i : nat) (mt : mobj) : str :=
  match i with
  | O => m_text mt
  | _ => default [] (lookup_cap i (m_groups mt))
  end.

(** [pattern.match] at the head of [s]. *)
Definition match_here (r : re) (bol : bool) (s : str) : option mobj :=
  m r bol s [] (fun _ s' g => Some (MObj (take (length s - length s') s) g)).

(** [re.search]: the leftmost position with a match. *)
Fixpoint search_from (r : re) (bol : bool) (s : str) : option mobj :=
  match match_here r bol s with
  | Some mt => Some mt
  | None =>
      match s with
      | [] => None
      | c :: t => search_from r (c =? nl) t
      end
  end.

Definition search (r : re) (s : str) : option mobj := search_from r true s.

(** [re.finditer]: the non-overlapping matches from left to right. [skip]
    counts the characters of the last match still to be passed over. None
    of the program's patterns matches the empty string; an empty match
    would here be followed by a step of one character. *)
Fixpoint finditer_go (r : re) (skip : nat) (bol : bool) (s : str)
    : list mobj :=
  match skip with
  | S n =>
      match s with
      | [] => []
      | c :: t => finditer_go r n (c =? nl) t
      end
  | O =>
      match match_here r bol s with
      | Some mt =>
          mt :: match s with
                | [] => []
                | c :: t =>
                    finditer_go r (Nat.pred (length (m_text mt))) (c =? nl) t
                end
      | None =>
          match s with
          | [] => []
          | c :: t => finditer_go r O (c =? nl) t
          end
      end
  end.

Definition finditer (r : re) (s : str) : list mobj := finditer_go r O true s.

(** [re.findall] for a pattern with exactly one group. *)
Definition findall1 (r : re) (s : str) : list str :=
  List.map (group 1) (finditer r s).

(** [re.sub] with a function as replacement. *)
Fixpoint sub_go (r : re) (repl : mobj -> str) (skip : nat) (bol : bool)
    (s : str) : str :=
  match skip with
  | S n =>
      match s with
      | [] => []
      | c :: t => sub_go r repl n (c =? nl) t
      end
  | O =>
      match match_here r bol s with
      | Some mt =>
          repl mt ++
          match s with
          | [] => []
          | c :: t =>
              match length (m_text mt) with
              | O => c :: sub_go r repl O (c =? nl) t
              | S n => sub_go r repl n (c =? nl) t
              end
          end
      | None =>
          match s with
          | [] => []
          | c :: t => c :: sub_go r repl O (c =? nl) t
          end
      end
  end.

Definition sub_fn (r : re) (repl : mobj -> str) (s : str) : str :=
  sub_go r repl O true s.

(** Replacement templates: literal text and group references. *)
Inductive titem := TLit (w : str) | TGrp (i : nat).

Definition expand (t : list titem) (mt : mobj) : str :=
  List.concat
    (List.map (fun it => match it with TLit w => w | TGrp i => group i mt end) t).

(** [re.sub] with a template as replacement. *)
Definition sub (r : re) (t : list titem) (s : str) : str :=
  sub_fn r (expand t) s.

(** Pattern shorthands. *)
Definition is_chr (a : char) : char -> bool := fun c => c =? a.
Definition not_chr (a : char) : char -> bool := fun c => negb (c =? a).
Definition any_chr : char -> bool := fun _ => true.          (* . with re.DOTALL *)
Definition not_nl : char -> bool := not_chr nl.              (* . *)
Definition one_of (w : str) : char -> bool :=
  fun c => existsb (N.eqb c) w.
Definition none_of (w : str) : char -> bool :=
  fun c => negb (existsb (N.eqb c) w).
Definition star (p : char -> bool) : re := Rep p 0 true.
Definition plus (p : char -> bool) : re := Rep p 1 true.
Definition lazy_star (p : char -> bool) : re := Rep p 0 false.
Definition opt (r : re) : re := Alt r (Lit []).

End Re.

(** ** The article fetcher ([GeneralArticleFetcher]) *)

Module Fetcher.

Import Re.


(** *** Patterns *)

Definition gt : char := 62.        (* '>' *)
Definition backtick : char := 96.

Definition lit (w : string) : re := Lit (L w).

Infix "+++" := Seq (at level 60, right associativity).

(** [<name[^>]*>] *)
Definition tag_open (name : string) : re :=
  lit ("<" +:+ name) +++ star (not_chr gt) +++ lit ">".

(** [<name[^>]*>(.*?)</name>] with [re.DOTALL] *)
Definition element (name : string) : re :=
  tag_open name +++ Grp 1 (lazy_star any_chr) +++ lit ("</" +:+ name +:+ ">").

(** [<[^>]+>] *)
Definition r_any_tag : re := lit "<" +++ plus (not_chr gt) +++ lit ">".

(** [<!--.*?-->] with [re.DOTALL] *)
Definition r_comment : re := lit "<!--" +++ lazy_star any_chr +++ lit "-->".

(** [<img[^>]*>] with [re.I] *)
Definition r_img_tag : re := ILit (L "<img") +++ star (not_chr gt) +++ lit ">".

(** [(?:data-src|src)=Q([^Q]+)Q], writing Q for the double quote *)
Definition r_img_src : re :=
  Alt (lit "data-src") (lit "src") +++ Lit (L "=" ++ [dq]) +++
  Grp 1 (plus (not_chr dq)) +++ Lit [dq].

(** [alt=Q(V)Q] where V is [[^Q]*] *)
Definition r_img_alt : re :=
  Lit (L "alt=" ++ [dq]) +++ Grp 1 (star (not_chr dq)) +++ Lit [dq].

(** [<br\s*/?>] *)
Definition r_br : re := lit "<br" +++ star isspace +++ opt (lit "/") +++ lit ">".

(** [<hr\s*/?>] *)
Definition r_hr : re := lit "<hr" +++ star isspace +++ opt (lit "/") +++ lit ">".

(** [<(a|b)[^>]*>(.*?)</\1>] with [re.DOTALL] *)
Definition r_paired (a b : string) : re :=
  lit "<" +++ Grp 1 (Alt (lit a) (lit b)) +++ star (not_chr gt) +++ lit ">" +++
  Grp 2 (lazy_star any_chr) +++ lit "</" +++ Ref 1 +++ lit ">".

(** [<a[^>]*href=Q(V)Q[^>]*>(.*?)</a>] with [re.DOTALL], V being [[^Q]*] *)
Definition r_link : re :=
  lit "<a" +++ star (not_chr gt) +++ Lit (L "href=" ++ [dq]) +++
  Grp 1 (star (not_chr dq)) +++ Lit [dq] +++ star (not_chr gt) +++ lit ">" +++
  Grp 2 (lazy_star any_chr) +++ lit "</a>".

(** [<table[^>]*>.*?</table>] with [re.DOTALL] *)
Definition r_table : re :=
  tag_open "table" +++ lazy_star any_chr +++ lit "</table>".

(** [<t[dh][^>]*>(.*?)</t[dh]>] with [re.DOTALL] *)
Definition r_cell : re :=
  lit "<t" +++ Cls (one_of (L "dh")) +++ star (not_chr gt) +++ lit ">" +++
  Grp 1 (lazy_star any_chr) +++ lit "</t" +++ Cls (one_of (L "dh")) +++ lit ">".

(** [<pre[^>]*><code[^>]*>(.*?)</code></pre>] with [re.DOTALL] *)
Definition r_pre_code : re :=
  tag_open "pre" +++ tag_open "code" +++ Grp 1 (lazy_star any_chr) +++
  lit "</code></pre>".

(** [\n{3,}] *)
Definition r_blank_lines : re := Rep (is_chr nl) 3 true.

(** *** HTML to Markdown *)

(** The alternative text of an image without [alt]. *)
Definition default_alt : str := [22270; 29255].

Definition process_img_tag (mt : mobj) : str :=
  let full_match := group 0 mt in
  match search r_img_src full_match with
  | None => []
  | Some src_match =>
      let url := group 1 src_match in
      let url := if startswith url (L "//") then L "https:" ++ url else url in
      let alt :=
        match search r_img_alt full_match with
        | Some alt_match => group 1 alt_match
        | None => default_alt
        end in
      [nl; nl] ++ L "![" ++ alt ++ L "](" ++ url ++ L ")" ++ [nl; nl]
  end.

Definition heading (html : str) (i : nat) : str :=
  sub (element ("h" +:+ pretty i))
      [TLit ([nl; nl] ++ List.repeat 35 i ++ L " "); TGrp 1; TLit [nl]] html.

Definition process_blockquote (mt : mobj) : str :=
  let content := group 1 mt in
  let lines := split_nl (strip content) in
  fold_left
    (fun result line =>
       if truthy (strip line) then result ++ L "> " ++ strip line ++ [nl]
       else result)
    lines [nl]
  ++ [nl].

Definition replace_ol (mt : mobj) : str :=
  let items := findall1 (element "li") (group 1 mt) in
  fold_left
    (fun result '(i, item) =>
       result ++ str_of_nat i ++ L ". " ++ strip item ++ [nl])
    (enumerate 1 items) [nl].

Definition process_table (mt : mobj) : str :=
  let table_html := group 0 mt in
  let rows := findall1 (element "tr") table_html in
  fold_left
    (fun md_table '(i, row) =>
       let cells := findall1 r_cell row in
       let cell_text := List.map (fun c => strip (sub r_any_tag [] c)) cells in
       let md_table :=
         md_table ++ L "| " ++ join (L " | ") cell_text ++ L " |" ++ [nl] in
       if Nat.eqb i 0
       then md_table ++ L "|" ++
            join (L "|") (List.repeat (L "---") (length cells)) ++ L "|" ++ [nl]
       else md_table)
    (enumerate 0 rows) [nl]
  ++ [nl].

(** The entity clean-up, in source order. *)
Definition decode_entities (html : str) : str :=
  let html := replace (L "&nbsp;") (L " ") html in
  let html := replace (L "&amp;") (L "&") html in
  let html := replace (L "&lt;") (L "<") html in
  let html := replace (L "&gt;") (L ">") html in
  let html := replace (L "&quot;") [dq] html in
  let html := replace (L "&#39;") [sq] html in
  let html := replace (L "&apos;") [sq] html in
  let html := replace [160] (L " ") html in
  let html := replace [8203] [] html in
  replace [65279] [] html.

(** The final clean-up: blank-line collapse, right-trim of every line,
    trim of the whole text. *)
Definition final_cleanup (html : str) : str :=
  let html := sub r_blank_lines [TLit [nl; nl]] html in
  let lines := split_nl html in
  let html := join [nl] (List.map rstrip lines) in
  strip html.

Definition fence : str := List.repeat backtick 3.

(** [GeneralArticleFetcher._html_to_markdown] *)
Definition _html_to_markdown (html : str) : str :=
  let html := sub r_comment [] html in
  let html := sub_fn r_img_tag process_img_tag html in
  let html := fold_left heading [6; 5; 4; 3; 2; 1]%nat html in
  let html := sub (element "section") [TGrp 1] html in
  let html := sub (element "p") [TLit [nl; nl]; TGrp 1; TLit [nl]] html in
  let html := sub r_br [TLit (L "  " ++ [nl])] html in
  let html := sub (r_paired "strong" "b") [TLit (L "**"); TGrp 2; TLit (L "**")] html in
  let html := sub (r_paired "em" "i") [TLit (L "*"); TGrp 2; TLit (L "*")] html in
  let html := sub r_link [TLit (L "["); TGrp 2; TLit (L "]("); TGrp 1; TLit (L ")")] html in
  let html := sub_fn (element "blockquote") process_blockquote html in
  let html := sub (element "ul") [TLit [nl]; TGrp 1; TLit [nl]] html in
  let html := sub (element "li") [TLit (L "- "); TGrp 1; TLit [nl]] html in
  let html := sub_fn (element "ol") replace_ol html in
  let html := sub_fn r_table process_table html in
  let html :=
    sub r_pre_code
        [TLit ([nl; nl] ++ fence ++ [nl]); TGrp 1; TLit ([nl] ++ fence ++ [nl])]
        html in
  let html :=
    sub (element "pre")
        [TLit ([nl; nl] ++ fence ++ [nl]); TGrp 1; TLit ([nl] ++ fence ++ [nl])]
        html in
  let html := sub (element "code") [TLit [backtick]; TGrp 1; TLit [backtick]] html in
  let html := sub r_hr [TLit ([nl; nl] ++ L "---" ++ [nl; nl])] html in
  let html := sub (element "span") [TGrp 1] html in
  let html := sub (element "div") [TGrp 1] html in
  let html := sub r_any_tag [] html in
  let html := decode_entities html in
  final_cleanup html.

(** *** Content extraction *)

Definition untitled : str := [26410; 21629; 21517; 25991; 31456].
Definition unknown_author : str := [26410; 30693; 20316; 32773].
Definition wechat_name : str := [24494; 20449; 20844; 20247; 21495].

(** [<meta[^>]*ATTR=QVALUEQ[^>]*content=Q(V)Q], V being [[^Q]*] *)
Definition r_meta (attr value : string) : re :=
  lit "<meta" +++ star (not_chr gt) +++
  Lit (L attr ++ L "=" ++ [dq] ++ L value ++ [dq]) +++ star (not_chr gt) +++
  Lit (L "content=" ++ [dq]) +++ Grp 1 (star (not_chr dq)) +++ Lit [dq].

(** [<TAG[^>]*class=Q[^Q]*CLS[^Q]*Q[^>]*>(.*?)</TAG>] with [re.DOTALL] *)
Definition r_class_open (tag cls : string) : re :=
  lit ("<" +:+ tag) +++ star (not_chr gt) +++ Lit (L "class=" ++ [dq]) +++
  star (not_chr dq) +++ lit cls +++ star (not_chr dq) +++ Lit [dq] +++
  star (not_chr gt) +++ lit ">".

Definition r_class_element (tag cls : string) : re :=
  r_class_open tag cls +++ Grp 1 (lazy_star any_chr) +++
  lit ("</" +:+ tag +:+ ">").

(** [<TAG[^>]*id=QIDQ[^>]*>] *)
Definition r_id_open (tag id : string) : re :=
  lit ("<" +:+ tag) +++ star (not_chr gt) +++
  Lit (L "id=" ++ [dq] ++ L id ++ [dq]) +++ star (not_chr gt) +++ lit ">".

(** [<title>(.*?)</title>], the dot not matching a newline *)
Definition r_title : re :=
  lit "<title>" +++ Grp 1 (lazy_star not_nl) +++ lit "</title>".

(** [<NAME[^>]*>.*?</NAME>] with [re.DOTALL | re.I] *)
Definition r_block_i (name : string) : re :=
  ILit (L ("<" +:+ name)) +++ star (not_chr gt) +++ lit ">" +++
  lazy_star any_chr +++ ILit (L ("</" +:+ name +:+ ">")).

(** [\s*[-_|]\s*NAME.*$], the name under [re.I] when [ci] is set *)
Definition r_site_suffix (name : str) (ci : bool) : re :=
  star isspace +++ Cls (one_of (L "-_|")) +++ star isspace +++
  (if ci then ILit name else Lit name) +++ star not_nl +++ Eos.

(** [[A-Za-z\s]] under [re.I] *)
Definition is_alpha_space_i (c : char) : bool :=
  is_upper c || is_lower c || isspace c ||
  (c =? 304) || (c =? 305) || (c =? 383) || (c =? 8490).

(** [a or b] on optional match objects. *)
Definition or_else {A : Type} (a b : option A) : option A :=
  match a with Some _ => a | None => b end.

Definition strip_tags (w : str) : str := strip (sub r_any_tag [] w).

Definition remove_blocks (names : list string) (content_html : str) : str :=
  fold_left (fun h name => sub (r_block_i name) [] h) names content_html.

(** The title rules of the WeChat profile, in order. *)
Definition wechat_title_match (html : str) : option mobj :=
  or_else (search (r_meta "property" "og:title") html)
 (or_else (search (r_class_element "h1" "rich_media_title") html)
          (search r_title html)).

(** [GeneralArticleFetcher._extract_wechat_content] *)
Definition _extract_wechat_content (html : str) : str * str * str :=
  let title :=
    match wechat_title_match html with
    | Some title_match =>
        sub (r_site_suffix wechat_name false) []
            (strip_tags (group 1 title_match))
    | None => []
    end in
  let author_match :=
    or_else (search (r_meta "name" "author") html)
            (search (lit "var" +++ plus isspace +++ lit "nickname" +++
                     star isspace +++ lit "=" +++ star isspace +++
                     Cls (one_of [dq; sq]) +++ Grp 1 (plus (none_of [dq; sq])) +++
                     Cls (one_of [dq; sq])) html) in
  let author :=
    match author_match with
    | Some am => group 1 am
    | None => unknown_author
    end in
  let content_match :=
    or_else
      (search (r_id_open "div" "js_content" +++ Grp 1 (lazy_star any_chr) +++
               lit "</div>" +++ star isspace +++
               Alt (lit "<div" +++ star (not_chr gt) +++
                    Lit (L "class=" ++ [dq]) +++ star (not_chr dq) +++
                    lit "rich_media_tool")
                   (lit "<script")) html)
      (search (r_class_element "div" "rich_media_content") html) in
  let content_html :=
    match content_match with
    | Some cm => group 1 cm
    | None => html
    end in
  (title, author, remove_blocks ["script"; "style"]%string content_html).

(** The title rules of the Notion profile, in order. *)
Definition notion_title_match (html : str) : option mobj :=
  or_else (search (r_meta "property" "og:title") html)
 (or_else (search (r_meta "name" "title") html)
 (or_else (search (element "h1") html)
          (search r_title html))).

(** [GeneralArticleFetcher._extract_notion_content] *)
Definition _extract_notion_content (html : str) : str * str * str :=
  let title :=
    match notion_title_match html with
    | Some title_match =>
        sub (r_site_suffix (L "Notion") true) []
            (strip_tags (group 1 title_match))
    | None => []
    end in
  let author_match :=
    or_else (search (r_meta "name" "author") html)
   (or_else (search (Lit ([dq] ++ L "authorName" ++ [dq]) +++ star isspace +++
                     lit ":" +++ star isspace +++ Lit [dq] +++
                     Grp 1 (star (not_chr dq)) +++ Lit [dq]) html)
            (search (ILit (L "by") +++ plus isspace +++
                     Grp 1 (plus is_alpha_space_i)) html)) in
  let author :=
    match author_match with
    | Some am => group 1 am
    | None => L "Notion"
    end in
  let content_match :=
    or_else
      (search (lit "<article" +++ star (not_chr gt) +++
               Lit (L "class=" ++ [dq]) +++ star (not_chr dq) +++
               star (not_chr dq) +++ Lit [dq] +++ star (not_chr gt) +++
               lit ">" +++ Grp 1 (lazy_star any_chr) +++ lit "</article>") html)
   (or_else
      (search (r_class_open "div" "notion-page-content" +++
               Grp 1 (lazy_star any_chr) +++ lit "</div>" +++ star isspace +++
               Alt (lit "<footer")
              (Alt (lit "</main")
                   (lit "<div" +++ star (not_chr gt) +++
                    Lit (L "class=" ++ [dq]) +++ star (not_chr dq) +++
                    lit "footer"))) html)
   (or_else (search (element "article") html)
            (search (element "main") html))) in
  let content_html :=
    match content_match with
    | Some cm => group 1 cm
    | None => remove_blocks ["header"; "footer"; "nav"]%string html
    end in
  (title, author, remove_blocks ["script"; "style"]%string content_html).

(** The title rules of the general profile, in order. *)
Definition general_title_match (html : str) : option mobj :=
  or_else (search (r_meta "property" "og:title") html)
 (or_else (search (r_meta "name" "title") html)
 (or_else (search (r_meta "name" "twitter:title") html)
 (or_else (search (element "h1") html)
          (search r_title html)))).

(** The first of the content patterns that matches ([for ... break]). *)
Fixpoint first_content (patterns : list re) (html : str) : str :=
  match patterns with
  | [] => []
  | pat :: rest =>
      match search pat html with
      | Some cm => group 1 cm
      | None => first_content rest html
      end
  end.

(** [GeneralArticleFetcher._extract_general_content] *)
Definition _extract_general_content (html : str) : str * str * str :=
  let title :=
    match general_title_match html with
    | Some title_match => strip_tags (group 1 title_match)
    | None => []
    end in
  let author_match :=
    or_else (search (r_meta "name" "author") html)
   (or_else (search (r_meta "property" "article:author") html)
            (search (r_class_element "span" "author") html)) in
  let author :=
    match author_match with
    | Some am =>
        let a := strip_tags (group 1 am) in
        if truthy a then a else unknown_author
    | None => unknown_author
    end in
  let content_html :=
    match search (element "article") html with
    | Some cm => group 1 cm
    | None => []
    end in
  let content_html :=
    if truthy content_html then content_html
    else match search (element "main") html with
         | Some cm => group 1 cm
         | None => content_html
         end in
  let content_html :=
    if truthy content_html then content_html
    else first_content
           [r_class_element "div" "post-content";
            r_class_element "div" "article-content";
            r_class_element "div" "entry-content";
            r_class_element "div" "content";
            r_id_open "div" "content" +++ Grp 1 (lazy_star any_chr) +++ lit "</div>";
            r_id_open "div" "article" +++ Grp 1 (lazy_star any_chr) +++ lit "</div>"]
           html in
  let content_html :=
    if truthy content_html then content_html
    else match search (element "body") html with
         | Some cm => group 1 cm
         | None => html
         end in
  (title, author,
   remove_blocks ["script"; "style"; "header"; "footer"; "nav"; "aside"]%string
     content_html).

(** *** Image discovery *)

(** [<img[^>]*src=[QA]([^QA]+)[QA]] with [re.I], Q and A being the double
    and the single quote *)
Definition r_img_src_attr : re :=
  ILit (L "<img") +++ star (not_chr gt) +++ ILit (L "src=") +++
  Cls (one_of [dq; sq]) +++ Grp 1 (plus (none_of [dq; sq])) +++
  Cls (one_of [dq; sq]).

Definition truthy_opt (o : option str) : bool :=
  match o with Some s => truthy s | None => false end.

Section ImageUrls.
(** [urllib.parse]: the scheme and network location [urlparse] finds,
    and [urljoin]. *)
Variable urlparse_scheme : str -> str.
Variable urlparse_netloc : str -> str.
Variable urljoin : str -> str -> str.

Definition decode_url_entities (url : str) : str :=
  let url := replace (L "&amp;") (L "&") url in
  let url := replace (L "&lt;") (L "<") url in
  let url := replace (L "&gt;") (L ">") url in
  replace (L "&quot;") [dq] url.

(** What the loop body makes of the decoded address: the absolute URL
    to record, or [None] where the body says [continue]. *)
Definition resolve_url (base_url : option str) (url : str) : option str :=
  if startswith url (L "//") then Some (L "https:" ++ url)
  else if startswith url (L "/") then
    if contains (L "/_next/image?url=") url && truthy_opt base_url then
      let base := default [] base_url in
      Some (urlparse_scheme base ++ L "://" ++ urlparse_netloc base ++ url)
    else if truthy_opt base_url then
      Some (urljoin (default [] base_url) url)
    else None
  else if negb (startswith url (L "http")) then None
  else Some url.

(** One iteration of the loop over the matches. *)
Definition image_url_step (base_url : option str) (urls : list str)
    (mt : mobj) : list str :=
  let url := group 1 mt in
  if startswith url (L "data:") then urls
  else
    match resolve_url base_url (decode_url_entities url) with
    | None => urls
    | Some url => if decide (url ∈ urls) then urls else urls ++ [url]
    end.

(** [GeneralArticleFetcher._extract_image_urls] *)
Definition _extract_image_urls (html : str) (base_url : option str)
    : list str :=
  fold_left (image_url_step base_url) (finditer r_img_src_attr html) [].
End ImageUrls.

(** *** Filename sanitizer *)

(** The characters of the class [<>:Q/\|?*]. *)
Definition forbidden_chars : str := L "<>:" ++ [dq] ++ L "/" ++ [bsl] ++ L "|?*".

(** [GeneralArticleFetcher._sanitize_filename] *)
Definition _sanitize_filename (title : str) : str :=
  let filename := sub (Cls (one_of forbidden_chars)) [] title in
  let filename := sub (plus isspace) [TLit (L "_")] filename in
  let filename :=
    if Nat.ltb 100 (length filename) then take 100 filename else filename in
  if truthy filename then filename else L "article".

(** *** Local image addresses *)

Section ReplaceUrls.
(** [urllib.parse.urlparse]: the path and the query of what it returns,
    or [None] where it raises [ValueError]. *)
Variable urlparse : str -> option (str * str).

(** The root-relative form of an address the loop also replaces: its
    path, followed by the query when there is one; [None] when the path
    is empty or does not start with a slash. *)
Definition relative_url (parsed : str * str) : option str :=
  let '(path, query) := parsed in
  if truthy path && startswith path (L "/") then
    Some (if truthy query then path ++ L "?" ++ query else path)
  else None.

(** One iteration of the loop of [replace_image_urls]; [None] once
    [urlparse] has raised: nothing catches the exception. *)
Definition replace_url_step (content : option str) (item : str * str)
    : option str :=
  content ← content;
  let '(original_url, local_path) := item in
  let content := replace original_url local_path content in
  parsed ← urlparse original_url;
  Some (match relative_url parsed with
        | Some relative_url => replace relative_url local_path content
        | None => content
        end).

(** [GeneralArticleFetcher.replace_image_urls]; [url_mapping] lists the
    items of the dictionary in insertion order. The result is [None]
    where the call raises. *)
Definition replace_image_urls (content : str) (url_mapping : list (str * str))
    : option str :=
  fold_left replace_url_step url_mapping (Some content).
End ReplaceUrls.

(** *** Source classifier *)

(** [GeneralArticleFetcher._detect_source_type]; the [html] argument is
    accepted and ignored, as in the source. *)
Definition _detect_source_type (url html : str) : str :=
  if contains (L "mp.weixin.qq.com") url then L "wechat"
  else if contains (L "notion.com") url || contains (L "notion.site") url
    then L "notion"
  else if contains (L "medium.com") url then L "medium"
  else if contains (L "zhuanlan.zhihu.com") url then L "zhihu"
  else L "general".

(** *** The fetch operation *)

(** The dictionary [fetch_article] returns. *)
Record article := Article {
  title : str;
  author : str;
  content : str;
  html_content : str;
  content_html : str;
  filename : str;
  image_urls : list str;
  source_type : str
}.

(** The fields of the fetcher object that [fetch_article] assigns;
    [referer] is the [Referer] header of its image downloader. *)
Record fetcher := Fetcher {
  self_image_urls : list str;
  self_raw_html : str;
  self_source_type : str;
  referer : str
}.

Definition eqb_str (a b : str) : bool := bool_decide (a = b).

(** The extraction step of [fetch_article]: the profile's extractor,
    then the placeholder for a missing title. *)
Definition extract (source_type html : str) : str * str * str :=
  let '(title, author, content_html) :=
    if eqb_str source_type (L "wechat") then _extract_wechat_content html
    else if eqb_str source_type (L "notion") then _extract_notion_content html
    else _extract_general_content html in
  let title := if truthy title then title else untitled in
  (title, author, content_html).

(** The title rules the profile's extractor tries. *)
Definition title_match (source_type html : str) : option mobj :=
  if eqb_str source_type (L "wechat") then wechat_title_match html
  else if eqb_str source_type (L "notion") then notion_title_match html
  else general_title_match html.

Definition label_author : str := [20316; 32773].
Definition label_source : str := [21407; 25991; 38142; 25509].
Definition label_saved : str := [20445; 23384; 26085; 26399].

Section Fetch.
(** The collaborators: the network fetch ([None] for a failure), the
    clock's date, [urllib.parse] and the styled-HTML renderer. *)
Variable _fetch_html : str -> option str.
Variable today : str.
Variable urlparse_scheme : str -> str.
Variable urlparse_netloc : str -> str.
Variable urljoin : str -> str -> str.
Variable _generate_styled_html : str -> str -> str -> str -> str.

(** [GeneralArticleFetcher._generate_markdown] *)
Definition _generate_markdown (url title author content : str) : str :=
  L "# " ++ title ++ [nl; nl] ++
  L "> **" ++ label_author ++ L "**: " ++ author ++ [nl] ++
  L "> **" ++ label_source ++ L "**: " ++ url ++ [nl] ++
  L "> **" ++ label_saved ++ L "**: " ++ today ++ [nl; nl] ++
  L "---" ++ [nl; nl] ++ content ++ [nl].

(** [GeneralArticleFetcher.fetch_article] *)
Definition fetch_article (self : fetcher) (url : str)
    : option article * fetcher :=
  let self := Fetcher [] [] (self_source_type self) (referer self) in
  match _fetch_html url with
  | None => (None, self)
  | Some html =>
      if negb (truthy html) then (None, self)
      else
        let source_type := _detect_source_type url html in
        let '(title, author, content_html) := extract source_type html in
        let image_urls :=
          _extract_image_urls urlparse_scheme urlparse_netloc urljoin
            content_html (Some url) in
        let md_content := _html_to_markdown content_html in
        let md_with_header := _generate_markdown url title author md_content in
        let html_content := _generate_styled_html url title author content_html in
        (Some (Article title author md_with_header html_content content_html
                 (_sanitize_filename title) image_urls source_type),
         Fetcher image_urls html source_type url)
  end.
End Fetch.

(** *** The host-based reading of the classifier *)

(** The host of a URL in the sense of the specification's "host": the
    text after the first ["//"] up to the next ['/'], ['?'] or ['#'].
    This definition is not part of the program; it only serves to state
    the host-based reading of the classifier. *)
Fixpoint until_delim (s : str) : str :=
  match s with
  | [] => []
  | c :: t =>
      if (c =? 47) || (c =? 63) || (c =? 35) then [] else c :: until_delim t
  end.

Fixpoint spec_url_host (url : str) : str :=
  match url with
  | [] => []
  | c :: t =>
      if startswith url (L "//") then until_delim (List.tl t)
      else spec_url_host t
  end.

Definition host_fragments : list str :=
  [L "mp.weixin.qq.com"; L "notion.com"; L "notion.site";
   L "medium.com"; L "zhuanlan.zhihu.com"].

End Fetcher.

(** ** The command-line tool ([fetch_article.py]) *)

Module FetchArticle.

Import Re.

Local Infix "+++" := Seq (at level 60, right associativity).

(** [clean_markdown]; its last substitution is [^>(\s* )\n] under
    [re.MULTILINE]. *)
Definition clean_markdown (text : str) : str :=
  let text := sub (Rep (is_chr nl) 3 true) [TLit [nl; nl]] text in
  let lines := split_nl text in
  let cleaned_lines := List.map rstrip lines in
  let text := join [nl] cleaned_lines in
  let text :=
    sub (Bol +++ Lit (L ">") +++ Grp 1 (star isspace) +++ Lit [nl])
        [TLit (L ">" ++ [nl])] text in
  strip text.

(** [<img[^>]*ATTR=Q(V)Q[^>]*alt=Q(V)Q[^>]*/?>], V being [[^Q]*] and Q
    the double quote *)
Definition r_img (attr : string) : re :=
  Fetcher.lit "<img" +++ star (not_chr Fetcher.gt) +++
  Lit (L attr ++ L "=" ++ [dq]) +++ Grp 1 (star (not_chr dq)) +++ Lit [dq] +++
  star (not_chr Fetcher.gt) +++ Lit (L "alt=" ++ [dq]) +++
  Grp 2 (star (not_chr dq)) +++ Lit [dq] +++ star (not_chr Fetcher.gt) +++
  opt (Fetcher.lit "/") +++ Fetcher.lit ">".

Definition img_template : list titem :=
  [TLit ([nl; nl] ++ L "!["); TGrp 2; TLit (L "]("); TGrp 1;
   TLit (L ")" ++ [nl; nl])].

(** The entity clean-up of [html_to_markdown], in source order. *)
Definition decode_entities (html : str) : str :=
  let html := replace (L "&nbsp;") (L " ") html in
  let html := replace (L "&amp;") (L "&") html in
  let html := replace (L "&lt;") (L "<") html in
  let html := replace (L "&gt;") (L ">") html in
  let html := replace (L "&quot;") [dq] html in
  let html := replace (L "&#39;") [sq] html in
  let html := replace (L "&apos;") [sq] html in
  let html := replace [160] (L " ") html in
  replace [8203] [] html.

(** [html_to_markdown] *)
Definition html_to_markdown (html : str) : str :=
  let html := sub Fetcher.r_comment [] html in
  let html := sub (r_img "data-src") img_template html in
  let html := sub (r_img "src") img_template html in
  let html := fold_left Fetcher.heading [6; 5; 4; 3; 2; 1]%nat html in
  let html :=
    sub (Fetcher.element "p") [TLit [nl; nl]; TGrp 1; TLit [nl]] html in
  let html := sub Fetcher.r_br [TLit (L "  " ++ [nl])] html in
  let html :=
    sub (Fetcher.r_paired "strong" "b")
        [TLit (L "**"); TGrp 2; TLit (L "**")] html in
  let html :=
    sub (Fetcher.r_paired "em" "i") [TLit (L "*"); TGrp 2; TLit (L "*")] html in
  let html :=
    sub Fetcher.r_link
        [TLit (L "["); TGrp 2; TLit (L "]("); TGrp 1; TLit (L ")")] html in
  let html :=
    sub (Fetcher.element "blockquote")
        [TLit ([nl; nl] ++ L "> "); TGrp 1; TLit [nl]] html in
  let html := sub (Fetcher.element "ul") [TLit [nl]; TGrp 1; TLit [nl]] html in
  let html := sub (Fetcher.element "li") [TLit (L "- "); TGrp 1; TLit [nl]] html in
  let html := sub_fn (Fetcher.element "ol") Fetcher.replace_ol html in
  let html :=
    sub (Fetcher.element "pre")
        [TLit ([nl; nl] ++ Fetcher.fence ++ [nl]); TGrp 1;
         TLit ([nl] ++ Fetcher.fence ++ [nl])] html in
  let html :=
    sub (Fetcher.element "code")
        [TLit [Fetcher.backtick]; TGrp 1; TLit [Fetcher.backtick]] html in
  let html := sub Fetcher.r_hr [TLit ([nl; nl] ++ L "---" ++ [nl; nl])] html in
  let html := sub Fetcher.r_any_tag [] html in
  let html := decode_entities html in
  clean_markdown html.

(** The title of [parse_article]: the heading of class
    [rich_media_title], its markup removed. *)
Definition parse_article_title (html : str) : str :=
  match search (Fetcher.r_class_element "h1" "rich_media_title") html with
  | Some title_match => strip (sub Fetcher.r_any_tag [] (group 1 title_match))
  | None => []
  end.

(** The title [main] goes on with: the placeholder for a missing one. *)
Definition main_title (html : str) : str :=
  let title := parse_article_title html in
  if truthy title then title else Fetcher.untitled.

End FetchArticle.

(** ** The image downloader ([ImageDownloader]) *)

Module Downloader.

Import Re.

Local Infix "+++" := Seq (at level 60, right associativity).

(** [str.lower()] on the strings the downloader lowers: extension
    matches and file-name suffixes. Upper-case ASCII letters are lowered;
    the dotted capital I, which [re.I] equates with [i], becomes [i]
    followed by a combining dot. *)
Definition lower_char (c : char) : str :=
  if is_upper c then [c + 32]
  else if c =? 304 then [105; 775]
  else [c].

Definition lower (w : str) : str := List.concat (List.map lower_char w).

Definition eqb_str (a b : str) : bool := bool_decide (a = b).

Definition type_map : list (str * str) :=
  [(L "image/jpeg", L ".jpg");
   (L "image/jpg", L ".jpg");
   (L "image/png", L ".png");
   (L "image/gif", L ".gif");
   (L "image/webp", L ".webp");
   (L "image/bmp", L ".bmp");
   (L "image/svg+xml", L ".svg");
   (L "image/avif", L ".avif")].

Fixpoint dict_get (k : str) (d : list (str * str)) : option str :=
  match d with
  | [] => None
  | (k', v) :: d' => if eqb_str k k' then Some v else dict_get k d'
  end.

(** [\.(jpg|jpeg|png|gif|webp|bmp|svg|avif)(\?|$)] with [re.I] *)
Definition r_ext : re :=
  Lit (L ".") +++
  Grp 1 (Alt (ILit (L "jpg")) (Alt (ILit (L "jpeg")) (Alt (ILit (L "png"))
        (Alt (ILit (L "gif")) (Alt (ILit (L "webp")) (Alt (ILit (L "bmp"))
        (Alt (ILit (L "svg")) (ILit (L "avif"))))))))) +++
  Grp 2 (Alt (Lit (L "?")) Eos).

(** [ImageDownloader.get_image_extension] *)
Definition get_image_extension (url content_type : str) : str :=
  match (if truthy content_type then dict_get content_type type_map else None) with
  | Some ext => ext
  | None =>
      match search r_ext url with
      | Some ext_match => L "." ++ lower (group 1 ext_match)
      | None => L ".jpg"
      end
  end.

(** [PurePath.suffix] of a file name: from the last dot on, when that dot
    is neither the first nor the last character. *)
Fixpoint rfind_dot (name : str) : option nat :=
  match name with
  | [] => None
  | c :: t =>
      match rfind_dot t with
      | Some i => Some (S i)
      | None => if c =? 46 then Some O else None
      end
  end.

Definition suffix (name : str) : str :=
  match rfind_dot name with
  | Some i =>
      if Nat.ltb 0 i && Nat.ltb i (length name - 1) then drop i name else []
  | None => []
  end.

(** [PurePath.with_suffix] on the file name; [None] where pathlib raises
    [ValueError]. *)
Definition with_suffix (name ext : str) : option str :=
  if contains (L "/") ext then None
  else if (truthy ext && negb (startswith ext (L "."))) || eqb_str ext (L ".")
    then None
  else if negb (truthy name) then None
  else Some (take (length name - length (suffix name)) name ++ ext).

Definition image_suffixes : list str :=
  [L ".jpg"; L ".jpeg"; L ".png"; L ".gif"; L ".webp"; L ".bmp"; L ".svg";
   L ".avif"].

(** The fields of [datetime.now()] and their rendering by
    [strftime('%Y%m%d_%H%M%S_%f')]: fixed-width decimal fields. *)
Record datetime := DateTime {
  year : nat; month : nat; day : nat;
  hour : nat; minute : nat; second : nat; microsecond : nat
}.

Fixpoint pad_dec (width n : nat) : str :=
  match width with
  | O => []
  | S w => pad_dec w (n / 10) ++ [48 + N.of_nat (n mod 10)]
  end.

Definition strftime (t : datetime) : str :=
  pad_dec 4 (year t) ++ pad_dec 2 (month t) ++ pad_dec 2 (day t) ++ L "_" ++
  pad_dec 2 (hour t) ++ pad_dec 2 (minute t) ++ pad_dec 2 (second t) ++ L "_" ++
  pad_dec 6 (microsecond t).

(** What the downloader does to the outside world, in order. *)
Inductive event :=
  | Requested (url : str) (headers : list (str * str))
  | Wrote (dir name : str) (data : list N).

Definition default_headers (referer : str) : list (str * str) :=
  [(L "User-Agent",
    L "Mozilla/5.0 (Windows NT 10.0; Win64; x64) AppleWebKit/537.36 (KHTML, like Gecko) Chrome/120.0.0.0 Safari/537.36");
   (L "Accept", L "image/webp,image/apng,image/*,*/*;q=0.8");
   (L "Referer", referer)].

(** [headers[k] = v] on an insertion-ordered dictionary. *)
Fixpoint dict_set (k v : str) (d : list (str * str)) : list (str * str) :=
  match d with
  | [] => [(k, v)]
  | (k', v') :: d' =>
      if eqb_str k k' then (k, v) :: d' else (k', v') :: dict_set k v d'
  end.

(** The headers [download_image] sends for [url]: the downloader's own,
    adjusted for Notion and image-proxy addresses. *)
Definition request_headers (referer url : str) : list (str * str) :=
  let headers := default_headers referer in
  if contains (L "notion.com") url || contains (L "/_next/image") url then
    dict_set (L "sec-fetch-site") (L "same-origin")
   (dict_set (L "sec-fetch-mode") (L "no-cors")
   (dict_set (L "sec-fetch-dest") (L "image")
   (dict_set (L "Accept")
      (L "image/avif,image/webp,image/apng,image/svg+xml,image/*,*/*;q=0.8")
      headers)))
  else headers.

Section World.
(** The collaborators: [urlopen] followed by reading the response (the
    content type and the bytes, or [None] for any exception), whether a
    write to a path succeeds, whether the directory can be created, and
    the clock at each iteration. *)
Variable urlopen : str -> list (str * str) -> option (str * list N).
Variable write_ok : str -> str -> bool.
Variable mkdir_ok : str -> bool.
Variable now : nat -> datetime.

(** The [Referer] the downloader was built or updated with. *)
Variable referer : str.

(** [ImageDownloader.download_image]: the final file name on success
    ([True, save_path]), [None] on any exception ([False, None]). *)
Definition download_image (url dir name : str) : option str * list event :=
  let headers := request_headers referer url in
  match urlopen url headers with
  | None => (None, [Requested url headers])
  | Some (content_type, data) =>
      let ext := get_image_extension url content_type in
      let renamed :=
        if negb (bool_decide (lower (suffix name) ∈ image_suffixes))
        then with_suffix name ext
        else Some name in
      match renamed with
      | None => (None, [Requested url headers])
      | Some name' =>
          if write_ok dir name'
          then (Some name', [Requested url headers; Wrote dir name' data])
          else (None, [Requested url headers])
      end
  end.

(** One iteration of the loop of [download_images]. *)
Definition download_step (images_dir : str)
    (acc : gmap str str * list event) (iu : nat * str)
    : gmap str str * list event :=
  let '(url_mapping, log) := acc in
  let '(i, url) := iu in
  let filename := strftime (now i) ++ L "_" ++ str_of_nat i in
  match download_image url images_dir filename with
  | (Some final_name, evs) =>
      (<[url := L "images/" ++ final_name]> url_mapping, log ++ evs)
  | (None, evs) => (<[url := url]> url_mapping, log ++ evs)
  end.

(** [ImageDownloader.download_images]: the mapping and what was done,
    or [None] when the directory cannot be created. *)
Definition download_images (image_urls : list str) (images_dir : str)
    : option (gmap str str * list event) :=
  match image_urls with
  | [] => Some (∅, [])
  | _ =>
      if mkdir_ok images_dir
      then Some (fold_left (download_step images_dir)
                   (enumerate 1 image_urls) (∅, []))
      else None
  end.
End World.

End Downloader.

(** ** The EPUB converter ([EpubConverter]) *)

Module Epub.

Import Re.

Local Infix "+++" := Seq (at level 60, right associativity).

(** Operations that can raise: a value, or the exception's message. *)
Inductive exn (A : Type) : Type :=
  | Ret (a : A)
  | Raise (msg : str).
Arguments Ret {A} a.
Arguments Raise {A} msg.

#[export] Instance exn_ret : MRet exn := @Ret.
#[export] Instance exn_bind : MBind exn := fun A B f x =>
  match x with
  | Ret a => f a
  | Raise msg => Raise msg
  end.

(** The result of [subprocess.run(..., capture_output=True)], the error
    stream already decoded. *)
Record proc := Proc { returncode : Z; stderr : str }.

(** An entry of a zip archive. *)
Inductive compression := ZIP_STORED | ZIP_DEFLATED.

Inductive payload :=
  | Text (t : str)
  | Bytes (b : list N).

Record entry := Entry {
  e_name : str;
  e_data : payload;
  e_compress : compression
}.

(** The dictionaries of the list [images]. *)
Record img_info := ImgInfo {
  original_ref : str;
  epub_path : str;
  image_data : list N;
  media_type : str
}.

(** What a conversion does that the properties below speak about. *)
Inductive event :=
  | TriedPandoc
  | TriedManual
  | CopiedTo (output_path : str)
  | WroteZip (output_path : str) (entries : list entry).

(** The host the converter runs on: the tool lookup, the filesystem, the
    image library, subprocesses, identifiers and dates, and [pathlib]. *)
Record host := Host {
  _find_pandoc : option str;
  mkdtemp : exn str;
  mkdir : str -> exn unit;
  path_exists : str -> bool;
  st_size : str -> nat;
  _convert_image_to_png : str -> option (list N);
  read_bytes : str -> exn (list N);
  write_bytes : str -> list N -> exn unit;
  write_text : str -> str -> exn unit;
  copy2 : str -> str -> exn unit;
  run : list str -> exn proc;
  write_zip : str -> list entry -> exn unit;
  uuid4 : str;
  today : str;
  absolute : str -> str;
  parent : str -> str;
  joinpath : str -> str -> str;
  path_suffix : str -> str
}.

(** The text renderers of the class: they only fill entry payloads. *)
Record renderers := Renderers {
  _markdown_to_html : str -> str -> str;
  _create_container_xml : str;
  _create_content_opf : str -> str -> str -> list img_info -> str;
  _create_nav_xhtml : str -> str;
  _create_toc_ncx : str -> str -> str;
  _create_content_xhtml : str -> str -> str -> str -> str -> str
}.

Definition label_author : str := [20316; 32773].
Definition label_source : str := [21407; 25991; 38142; 25509].
Definition label_saved : str := [20445; 23384; 26085; 26399].

(** One iteration of the loop of [_strip_markdown_header]. *)
Definition strip_header_step (acc : bool * list str) (line : str)
    : bool * list str :=
  let '(in_header, result_lines) := acc in
  let stripped := strip line in
  if in_header then
    if startswith stripped (L "# ") then acc
    else if startswith stripped (L ">") &&
            (contains (L "**" ++ label_author ++ L "**") stripped ||
             contains (L "**" ++ label_source ++ L "**") stripped ||
             contains (L "**" ++ label_saved ++ L "**") stripped) then acc
    else if negb (truthy stripped) then acc
    else if bool_decide (stripped = L "---") then (false, result_lines)
    else (false, result_lines ++ [line])
  else (in_header, result_lines ++ [line]).

(** [EpubConverter._strip_markdown_header] *)
Definition _strip_markdown_header (md_content : str) : str :=
  join [nl] (snd (fold_left strip_header_step (split_nl md_content) (true, []))).

(** [!\[[^\]]*\]\(([^)]+)\)] *)
Definition r_image_ref : re :=
  Lit (L "![") +++ star (not_chr 93) +++ Lit (L "](") +++
  Grp 1 (plus (not_chr 41)) +++ Lit (L ")").

(** Where a reference of the Markdown text lives on disk; [None] for a
    network image. *)
Definition local_path (h : host) (images_dir img_ref : str) : option str :=
  if startswith img_ref (L "images/")
  then Some (joinpath h (parent h images_dir) img_ref)
  else if negb (startswith img_ref (L "http"))
  then Some (joinpath h images_dir img_ref)
  else None.

Definition truthy_bytes (o : option (list N)) : option (list N) :=
  match o with
  | Some (_ :: _) => o
  | _ => None
  end.

(** The archive entry of an image ([writestr] with the compression of
    the archive). *)
Definition image_entry (img_info : img_info) : entry :=
  Entry (L "OEBPS/" ++ epub_path img_info) (Bytes (image_data img_info))
    ZIP_DEFLATED.

Section Converter.
Variable h : host.
Variable rd : renderers.

(** *** The delegate tier *)

(** One iteration of the staging loop of [_convert_with_pandoc]. *)
Definition stage_image (media_dir images_dir : str)
    (acc : exn (str * nat)) (img_ref : str) : exn (str * nat) :=
  '(md_clean, img_counter) ← acc;
  match local_path h images_dir img_ref with
  | None => mret (md_clean, img_counter)
  | Some src_path =>
      if path_exists h src_path then
        let img_counter := S img_counter in
        let new_name := L "img_" ++ str_of_nat img_counter ++ L ".png" in
        match truthy_bytes (_convert_image_to_png h src_path) with
        | Some png_data =>
            _ ← write_bytes h (joinpath h media_dir new_name) png_data;
            mret (replace img_ref (L "media/" ++ new_name) md_clean,
                  img_counter)
        | None =>
            let ext := path_suffix h src_path in
            let name := L "img_" ++ str_of_nat img_counter ++ ext in
            _ ← copy2 h src_path (joinpath h media_dir name);
            mret (replace img_ref (L "media/" ++ name) md_clean, img_counter)
        end
      else mret (md_clean, img_counter)
  end.

Definition cmd_md_to_html (pandoc temp_dir : str) : list str :=
  [pandoc; absolute h (joinpath h temp_dir (L "content.md"));
   L "-o"; absolute h (joinpath h temp_dir (L "content.html"));
   L "-f"; L "markdown"; L "-t"; L "html"; L "--standalone"].

Definition cmd_html_to_epub (pandoc temp_dir title author : str)
    (img_counter : nat) : list str :=
  [pandoc; absolute h (joinpath h temp_dir (L "content.html"));
   L "-o"; absolute h (joinpath h temp_dir (L "output.epub"));
   L "-f"; L "html"; L "-t"; L "epub3";
   L "--metadata=title:" ++ title; L "--metadata=author:" ++ author] ++
  (if Nat.ltb 0 img_counter then [L "--resource-path=" ++ temp_dir] else []).

(** The body of the [try] of [_convert_with_pandoc]. *)
Definition pandoc_body (pandoc md_content title author output_path : str)
    (images_dir : option str) : exn (bool * str * list event) :=
  temp_dir ← mkdtemp h;
  let temp_dir := absolute h temp_dir in
  let media_dir := joinpath h temp_dir (L "media") in
  _ ← mkdir h media_dir;
  let md_clean := _strip_markdown_header md_content in
  let image_refs := findall1 r_image_ref md_clean in
  '(md_clean, img_counter) ←
    match images_dir, image_refs with
    | Some dir, _ :: _ =>
        if truthy dir then
          fold_left (stage_image media_dir (absolute h dir)) image_refs
            (mret (md_clean, O))
        else mret (md_clean, O)
    | _, _ => mret (md_clean, O)
    end;
  let md_clean :=
    if negb (startswith (strip md_clean) (L "#"))
    then L "# " ++ title ++ [nl; nl] ++ md_clean
    else md_clean in
  _ ← write_text h (joinpath h temp_dir (L "content.md")) md_clean;
  let output_path := absolute h output_path in
  _ ← mkdir h (parent h output_path);
  result ← run h (cmd_md_to_html pandoc temp_dir);
  if negb (Z.eqb (returncode result) 0%Z) then
    mret (false, L "Pandoc MD->HTML failed: " ++ take 200 (stderr result), [])
  else
    let temp_epub := joinpath h temp_dir (L "output.epub") in
    result ← run h (cmd_html_to_epub pandoc temp_dir title author img_counter);
    if negb (Z.eqb (returncode result) 0%Z) then
      mret (false, L "Pandoc HTML->EPUB failed: " ++ take 200 (stderr result), [])
    else if negb (path_exists h temp_epub) || Nat.eqb (st_size h temp_epub) 0 then
      mret (false, L "EPUB file was not created or is empty", [])
    else
      _ ← mkdir h (parent h output_path);
      _ ← copy2 h temp_epub output_path;
      mret (true, output_path, [CopiedTo output_path]).

(** [EpubConverter._convert_with_pandoc] *)
Definition _convert_with_pandoc (md_content title author source_url
    output_path : str) (images_dir : option str) : bool * str * list event :=
  match _find_pandoc h with
  | None => (false, L "Pandoc not found", [])
  | Some pandoc =>
      match pandoc_body pandoc md_content title author output_path images_dir with
      | Ret r => r
      | Raise e => (false, e, [])
      end
  end.

(** *** The fallback tier *)

Definition types : list (str * str) :=
  [(L ".jpg", L "image/jpeg"); (L ".jpeg", L "image/jpeg");
   (L ".png", L "image/png"); (L ".gif", L "image/gif");
   (L ".webp", L "image/webp"); (L ".svg", L "image/svg+xml");
   (L ".avif", L "image/avif"); (L ".bmp", L "image/bmp")].

(** [EpubConverter._get_media_type]: the type listed for the lowered
    suffix of the path [filename]. *)
Definition _get_media_type (filename : str) : str :=
  default (L "application/octet-stream")
    (Downloader.dict_get (Downloader.lower (path_suffix h filename)) types).

(** One iteration of the image loop of the fallback tier. *)
Definition collect_image (images_dir : str) (acc : exn (list img_info))
    (ir : nat * str) : exn (list img_info) :=
  images ← acc;
  let '(i, img_ref) := ir in
  match local_path h images_dir img_ref with
  | None => mret images
  | Some img_path =>
      if path_exists h img_path then
        match truthy_bytes (_convert_image_to_png h img_path) with
        | Some png_data =>
            mret (images ++
                  [ImgInfo img_ref (L "images/img_" ++ str_of_nat i ++ L ".png")
                     png_data (L "image/png")])
        | None =>
            img_data ← read_bytes h img_path;
            mret (images ++
                  [ImgInfo img_ref
                     (L "images/img_" ++ str_of_nat i ++ path_suffix h img_path)
                     img_data (_get_media_type (path_suffix h img_path))])
        end
      else mret images
  end.

(** The list [images] the fallback tier builds; a missing or empty
    [images_dir] is false in [if images_dir and image_refs]. *)
Definition collect_images (md_content : str) (images_dir : option str)
    : exn (list img_info) :=
  let image_refs := findall1 r_image_ref md_content in
  match images_dir, image_refs with
  | Some dir, _ :: _ =>
      if truthy dir
      then fold_left (collect_image dir) (enumerate 0 image_refs) (mret [])
      else mret []
  | _, _ => mret []
  end.

(** The entries written into the archive, in order. *)
Definition epub_entries (title author source_url html_content : str)
    (images : list img_info) : list entry :=
  [Entry (L "mimetype") (Text (L "application/epub+zip")) ZIP_STORED;
   Entry (L "META-INF/container.xml") (Text (_create_container_xml rd))
     ZIP_DEFLATED;
   Entry (L "OEBPS/content.opf")
     (Text (_create_content_opf rd title author (uuid4 h) images)) ZIP_DEFLATED;
   Entry (L "OEBPS/nav.xhtml") (Text (_create_nav_xhtml rd title)) ZIP_DEFLATED;
   Entry (L "OEBPS/toc.ncx") (Text (_create_toc_ncx rd title (uuid4 h)))
     ZIP_DEFLATED;
   Entry (L "OEBPS/content.xhtml")
     (Text (_create_content_xhtml rd title author source_url (today h)
              html_content)) ZIP_DEFLATED] ++
  List.map image_entry images.

(** The body of the [try] of the fallback tier of [convert_to_epub]. *)
Definition manual_body (md_content title author source_url output_path : str)
    (images_dir : option str) : exn (str * list event) :=
  images ← collect_images md_content images_dir;
  let md_updated :=
    fold_left
      (fun md img_info => replace (original_ref img_info) (epub_path img_info) md)
      images md_content in
  let md_for_html := _strip_markdown_header md_updated in
  let html_content := _markdown_to_html rd md_for_html title in
  let entries := epub_entries title author source_url html_content images in
  _ ← write_zip h output_path entries;
  mret (output_path, [WroteZip output_path entries]).

Definition manual_tier (md_content title author source_url output_path : str)
    (images_dir : option str) : bool * str * list event :=
  match manual_body md_content title author source_url output_path images_dir with
  | Ret (path, evs) => (true, path, TriedManual :: evs)
  | Raise e => (false, e, [TriedManual])
  end.

(** [EpubConverter.convert_to_epub]: success flag, output path or error
    detail, and what was done. *)
Definition convert_to_epub (md_content title author source_url
    output_path : str) (images_dir : option str) : bool * str * list event :=
  let manual :=
    manual_tier md_content title author source_url output_path images_dir in
  match _find_pandoc h with
  | Some _ =>
      match _convert_with_pandoc md_content title author source_url
              output_path images_dir with
      | (true, result, evs) => (true, result, TriedPandoc :: evs)
      | (false, _, evs) =>
          let '(ok, result, evs') := manual in
          (ok, result, TriedPandoc :: evs ++ evs')
      end
  | None => manual
  end.
End Converter.

End Epub.

(** ** The save operations ([ArticleFetcherGUI]) *)

Module Gui.

Import Re.

Local Infix "+++" := Seq (at level 60, right associativity).

(** [\*\*LABEL\*\*:\s*(.+)], the label being that of the source line *)
Definition r_source_url : re :=
  Lit (L "**" ++ Fetcher.label_source ++ L "**:") +++ star isspace +++
  Grp 1 (plus not_nl).

(** The source address [_save_thread] and [_batch_download_thread] read
    back from the Markdown text before they build an EPUB. *)
Definition source_url (md_content : str) : str :=
  match search r_source_url md_content with
  | Some url_match => strip (group 1 url_match)
  | None => []
  end.

(** The source address the save operations hand to the converter: the
    image addresses of the Markdown text are replaced first, header
    included, and the address is read back from the outcome; [None]
    where the replacement raises. *)
Definition epub_source_url (urlparse : str -> option (str * str))
    (content : str) (url_mapping : list (str * str)) : option str :=
  md_content ← Fetcher.replace_image_urls urlparse content url_mapping;
  Some (source_url md_content).

End Gui.

(** ** Notions used to state the properties *)

(** [frag] occurs somewhere in [url]. *)
Definition occurs_in (frag : string) (url : str) : Prop :=
  exists pre post, url = pre ++ L frag ++ post.

(** The length of the longest prefix of [s] made of characters
    satisfying [p]. *)
Fixpoint run_len (p : char -> bool) (s : str) : nat :=
  match s with
  | c :: t => if p c then S (run_len p t) else O
  | [] => O
  end.

(** Every maximal run of characters satisfying [p] replaced by [w];
    [in_run] tells that the previous character belonged to a run. *)
Fixpoint squeeze (p : char -> bool) (w : str) (in_run : bool) (s : str) : str :=
  match s with
  | [] => []
  | c :: t =>
      if p c then (if in_run then squeeze p w true t else w ++ squeeze p w true t)
      else c :: squeeze p w false t
  end.

(** [result] lists its elements in the order of their first occurrence
    in [cands]: of two elements of [result], the earlier one has an
    occurrence in [cands] before every occurrence of the later one. *)
Definition first_seen_order (result cands : list str) : Prop :=
  forall (i j : nat) (u v : str),
    result !! i = Some u -> result !! j = Some v -> (i < j)%nat ->
    exists k : nat,
      cands !! k = Some u /\
      forall k' : nat, cands !! k' = Some v -> (k < k')%nat.

(** Appending what [mt] contributes, unless it is there already. *)
Definition add_first_seen {M : Type} (f : M -> option str)
    (urls : list str) (mt : M) : list str :=
  match f mt with
  | None => urls
  | Some url => if decide (url ∈ urls) then urls else urls ++ [url]
  end.

(** [acc] is the duplicate-free list, in first-seen order, of [cs]. *)
Definition first_seen_of (acc cs : list str) : Prop :=
  NoDup acc /\ (forall u : str, u ∈ acc <-> u ∈ cs) /\ first_seen_order acc cs.

(** The address an image match contributes to the result, if any: none
    for a [data:] address, otherwise the decoded address as resolved. *)
Definition image_candidate (scheme netloc : str -> str)
    (urljoin : str -> str -> str) (base_url : option str) (mt : Re.mobj)
    : option str :=
  if startswith (Re.group 1 mt) (L "data:") then None
  else Fetcher.resolve_url scheme netloc urljoin base_url
         (Fetcher.decode_url_entities (Re.group 1 mt)).


(** The addresses requested over the network, in order. *)
Definition requested_urls (log : list Downloader.event) : list str :=
  omap (fun e => match e with
                 | Downloader.Requested url _ => Some url
                 | Downloader.Wrote _ _ _ => None
                 end) log.

(** The value recorded for [url]: the relative local path of the file on
    success, the URL itself on failure. *)
Definition mapped_value (outcome : option str) (url : str) : str :=
  match outcome with
  | Some final_name => L "images/" ++ final_name
  | None => url
  end.

(** The file name [download_images] proposes at iteration [i]. *)
Definition image_filename (now : nat -> Downloader.datetime) (i : nat) : str :=
  Downloader.strftime (now i) ++ L "_" ++ str_of_nat i.

(** The image references of the Markdown text that the fallback tier
    resolves: the local ones whose file exists, each with its position
    among the references and its path on disk. *)
Definition resolve_ref (h : Epub.host) (dir : str) (ir : nat * str)
    : option (nat * str * str) :=
  let '(i, img_ref) := ir in
  match Epub.local_path h dir img_ref with
  | Some img_path =>
      if Epub.path_exists h img_path then Some (i, img_ref, img_path) else None
  | None => None
  end.

Definition resolved_refs (h : Epub.host) (md_content : str)
    (images_dir : option str) : list (nat * str * str) :=
  match images_dir with
  | Some dir =>
      if truthy dir
      then omap (resolve_ref h dir)
             (enumerate 0 (Re.findall1 Epub.r_image_ref md_content))
      else []
  | None => []
  end.

(** The archive entry [e] packages the resolved reference: it lives under
    [OEBPS/images/], is named after the reference's position, and is
    compressed. *)
Definition packages (h : Epub.host) (r : nat * str * str) (e : Epub.entry)
    : Prop :=
  let '(i, img_ref, img_path) := r in
  Epub.e_compress e = Epub.ZIP_DEFLATED /\
  (Epub.e_name e = L "OEBPS/images/img_" ++ str_of_nat i ++ L ".png" \/
   Epub.e_name e = L "OEBPS/images/img_" ++ str_of_nat i ++
                   Epub.path_suffix h img_path).

(** The number of entries of an archive with a given name. *)
Definition entry_count (name : str) (entries : list Epub.entry) : nat :=
  length (List.filter (fun e => bool_decide (Epub.e_name e = name)) entries).

(** [t] begins at the end of a line: it is empty or starts with a newline. *)
Definition ends_line (t : str) : bool :=
  match t with
  | [] => true
  | d :: _ => d =? nl
  end.

(** No whitespace character other than the newline stands at the end of
    a line of [s]. *)
Fixpoint no_trailing (s : str) : bool :=
  match s with
  | [] => true
  | c :: t => negb (isspace c && negb (c =? nl) && ends_line t) && no_trailing t
  end.

(** The length of the longest run of characters satisfying [p] in [s]. *)
Fixpoint max_run (p : char -> bool) (s : str) : nat :=
  match s with
  | [] => O
  | _ :: t => Nat.max (run_len p s) (max_run p t)
  end.

(** A pattern that can only match at the character [a]. *)
Definition starts_at (a : char) (r : Re.re) : Prop :=
  forall (A : Type) bol s g (k : bool -> str -> Re.caps -> option A),
    match s with c :: _ => c <> a | [] => True end ->
    Re.m r bol s g k = None.

(** What the fallback tier records for a resolved reference: the PNG
    rendering under the type [image/png] when the image library gives
    one, otherwise the bytes of the file, under the file's own suffix and
    the type [application/octet-stream]. *)
Definition records_image (h : Epub.host) (r : nat * str * str)
    (img : Epub.img_info) : Prop :=
  let '(i, img_ref, img_path) := r in
  match Epub.truthy_bytes (Epub._convert_image_to_png h img_path) with
  | Some png_data =>
      img = Epub.ImgInfo img_ref (L "images/img_" ++ str_of_nat i ++ L ".png")
              png_data (L "image/png")
  | None =>
      exists img_data,
        Epub.read_bytes h img_path = Epub.Ret img_data /\
        img = Epub.ImgInfo img_ref
                (L "images/img_" ++ str_of_nat i ++ Epub.path_suffix h img_path)
                img_data (L "application/octet-stream")
  end.

(** The header [_generate_markdown] writes before the content. *)
Definition markdown_header (today url title author : str) : str :=
  L "# " ++ title ++ [nl; nl] ++
  L "> **" ++ Fetcher.label_author ++ L "**: " ++ author ++ [nl] ++
  L "> **" ++ Fetcher.label_source ++ L "**: " ++ url ++ [nl] ++
  L "> **" ++ Fetcher.label_saved ++ L "**: " ++ today ++ [nl; nl] ++
  L "---" ++ [nl; nl].

(** [x] holds no newline and does not occur in [header]. *)
Definition header_free (header x : str) : Prop :=
  Forall (fun c => c <> nl) x /\ contains x header = false.

(** [s] is empty or starts with a dot, as the suffix of a path does. *)
Definition dotted (s : str) : Prop := s = [] \/ exists t, s = 46 :: t.

(** ** A sample host

    A host for concrete runs: paths are joined with a slash, the
    directory [out/images] holds [a.png], the temporary directory is
    [/tmp/t], the external tool (when there is one) exits with 0 at both
    stages, leaving an empty [content.html] and a non-empty
    [output.epub], and every filesystem operation succeeds. *)
Definition sample_host (pandoc : option str) : Epub.host :=
  {| Epub._find_pandoc := pandoc;
     Epub.mkdtemp := Epub.Ret (L "/tmp/t");
     Epub.mkdir := fun _ => Epub.Ret tt;
     Epub.path_exists := fun path =>
       bool_decide (path = L "out/images/a.png") ||
       bool_decide (path = L "/tmp/t/content.html") ||
       bool_decide (path = L "/tmp/t/output.epub");
     Epub.st_size := fun path =>
       if bool_decide (path = L "/tmp/t/content.html") then 0%nat else 2048%nat;
     Epub._convert_image_to_png := fun _ => Some [137; 80; 78; 71];
     Epub.read_bytes := fun _ => Epub.Ret [71; 73; 70];
     Epub.write_bytes := fun _ _ => Epub.Ret tt;
     Epub.write_text := fun _ _ => Epub.Ret tt;
     Epub.copy2 := fun _ _ => Epub.Ret tt;
     Epub.run := fun _ => Epub.Ret (Epub.Proc 0 []);
     Epub.write_zip := fun _ _ => Epub.Ret tt;
     Epub.uuid4 := L "00000000-0000-4000-8000-000000000000";
     Epub.today := L "2024-01-01";
     Epub.absolute := fun path => path;
     Epub.parent := fun path => take (length path - 7) path;
     Epub.joinpath := fun a b => a ++ L "/" ++ b;
     Epub.path_suffix := fun path => drop (length path - 4) path |}.

Definition sample_renderers : Epub.renderers :=
  {| Epub._markdown_to_html := fun md _ => md;
     Epub._create_container_xml := L "<container/>";
     Epub._create_content_opf := fun title _ _ _ => L "<package/>";
     Epub._create_nav_xhtml := fun title => L "<nav/>";
     Epub._create_toc_ncx := fun title _ => L "<ncx/>";
     Epub._create_content_xhtml := fun title _ _ _ html => html |}.

Definition sample_markdown : str :=
  L "# T" ++ [nl; nl] ++ L "Body ![x](images/a.png) and ![y](http://e/b.png)" ++ [nl].

(** The sample host without an image library: no image can be converted
    to PNG; the directory [out/images] holds [a.gif], and the suffix of a
    path is [pathlib]'s. *)
Definition plain_host : Epub.host :=
  let h := sample_host None in
  {| Epub._find_pandoc := None;
     Epub.mkdtemp := Epub.mkdtemp h;
     Epub.mkdir := Epub.mkdir h;
     Epub.path_exists := fun path => bool_decide (path = L "out/images/a.gif");
     Epub.st_size := Epub.st_size h;
     Epub._convert_image_to_png := fun _ => None;
     Epub.read_bytes := Epub.read_bytes h;
     Epub.write_bytes := Epub.write_bytes h;
     Epub.write_text := Epub.write_text h;
     Epub.copy2 := Epub.copy2 h;
     Epub.run := Epub.run h;
     Epub.write_zip := Epub.write_zip h;
     Epub.uuid4 := Epub.uuid4 h;
     Epub.today := Epub.today h;
     Epub.absolute := Epub.absolute h;
     Epub.parent := Epub.parent h;
     Epub.joinpath := Epub.joinpath h;
     Epub.path_suffix := Downloader.suffix |}.

(** * Properties *)

(** Stepping through a computation that can raise. *)
Ltac exn_next :=
  match goal with
  | |- mbind _ ?x = _ -> _ =>
      let E := fresh "E" in
      destruct x eqn:E; cbn [mbind Epub.exn_bind mret Epub.exn_ret];
      try discriminate
  end.

Ltac exn_if :=
  match goal with
  | |- (if ?b then _ else _) = _ -> _ =>
      let E := fresh "E" in
      destruct b eqn:E; cbn [mbind Epub.exn_bind mret Epub.exn_ret]
  end.

Ltac exn_next_pair :=
  match goal with
  | |- mbind _ ?x = _ -> _ =>
      let E := fresh "E" in
      destruct x as [[? ?]|?] eqn:E;
      cbn [mbind Epub.exn_bind mret Epub.exn_ret];
      try discriminate
  end.


(** ** Facts about [startswith] and [contains] *)

Lemma startswith_spec (s p : str) :
  startswith s p = true <-> exists post, s = p ++ post.
Proof.
  revert s; induction p as [|a p IH]; intros s; simpl.
  - split; [intros _; exists s; reflexivity | reflexivity].
  - destruct s as [|b s].
    + split; [discriminate | intros [post H]; discriminate].
    + rewrite andb_true_iff, N.eqb_eq, IH. split.
      * intros [-> [post ->]]. exists post. reflexivity.
      * intros [post H]. injection H as -> ->. split; [reflexivity | eauto].
Qed.

Lemma contains_spec (needle hay : str) :
  contains needle hay = true <-> exists pre post, hay = pre ++ needle ++ post.
Proof.
  induction hay as [|c t IH].
  - simpl. rewrite orb_false_r, startswith_spec. split.
    + intros [post H]. exists [], post. exact H.
    + intros [pre [post H]]. destruct pre as [|x pre]; [|discriminate].
      exists post. exact H.
  - simpl. rewrite orb_true_iff, startswith_spec, IH. split.
    + intros [[post H] | [pre [post H]]].
      * exists [], post. exact H.
      * exists (c :: pre), post. simpl. rewrite H. reflexivity.
    + intros [pre [post H]]. destruct pre as [|x pre].
      * left. exists post. exact H.
      * right. injection H as -> H. exists pre, post. exact H.
Qed.

Lemma contains_false (needle hay : str) :
  contains needle hay = false <-> ~ exists pre post, hay = pre ++ needle ++ post.
Proof.
  rewrite <- contains_spec. destruct (contains needle hay); split; intros H;
    try reflexivity; try discriminate; try (intros H'; discriminate).
  exfalso. apply H. reflexivity.
Qed.

(** ** The source classifier *)

Lemma contains_occurs frag url :
  contains (L frag) url = true <-> occurs_in frag url.
Proof. apply contains_spec. Qed.

Lemma contains_not_occurs frag url :
  contains (L frag) url = false <-> ~ occurs_in frag url.
Proof. apply contains_false. Qed.

(** C1, as amended. The classifier looks for the platform fragments
    anywhere in the URL string, not in its host: it returns the first
    profile, in the order wechat, notion, medium, zhihu, one of whose
    fragments occurs in the URL, and [general] when none occurs. It is
    total, and its result is one of the five profiles. *)
Theorem detect_source_type_by_substring (url html : str) :
  (occurs_in "mp.weixin.qq.com" url ->
     Fetcher._detect_source_type url html = L "wechat") /\
  (~ occurs_in "mp.weixin.qq.com" url ->
   occurs_in "notion.com" url \/ occurs_in "notion.site" url ->
     Fetcher._detect_source_type url html = L "notion") /\
  (~ occurs_in "mp.weixin.qq.com" url ->
   ~ occurs_in "notion.com" url -> ~ occurs_in "notion.site" url ->
   occurs_in "medium.com" url ->
     Fetcher._detect_source_type url html = L "medium") /\
  (~ occurs_in "mp.weixin.qq.com" url ->
   ~ occurs_in "notion.com" url -> ~ occurs_in "notion.site" url ->
   ~ occurs_in "medium.com" url ->
   occurs_in "zhuanlan.zhihu.com" url ->
     Fetcher._detect_source_type url html = L "zhihu") /\
  (~ occurs_in "mp.weixin.qq.com" url ->
   ~ occurs_in "notion.com" url -> ~ occurs_in "notion.site" url ->
   ~ occurs_in "medium.com" url ->
   ~ occurs_in "zhuanlan.zhihu.com" url ->
     Fetcher._detect_source_type url html = L "general") /\
  In (Fetcher._detect_source_type url html)
     [L "wechat"; L "notion"; L "medium"; L "zhihu"; L "general"].
Proof.
  unfold Fetcher._detect_source_type.
  repeat split.
  - intros H. apply contains_occurs in H. rewrite H. reflexivity.
  - intros Hw Hn. apply contains_not_occurs in Hw. rewrite Hw.
    destruct Hn as [Hn | Hn]; apply contains_occurs in Hn; rewrite Hn;
      [reflexivity | rewrite orb_true_r; reflexivity].
  - intros Hw Hn1 Hn2 Hm.
    apply contains_not_occurs in Hw, Hn1, Hn2. apply contains_occurs in Hm.
    rewrite Hw, Hn1, Hn2, Hm. reflexivity.
  - intros Hw Hn1 Hn2 Hm Hz.
    apply contains_not_occurs in Hw, Hn1, Hn2, Hm. apply contains_occurs in Hz.
    rewrite Hw, Hn1, Hn2, Hm, Hz. reflexivity.
  - intros Hw Hn1 Hn2 Hm Hz.
    apply contains_not_occurs in Hw, Hn1, Hn2, Hm, Hz.
    rewrite Hw, Hn1, Hn2, Hm, Hz. reflexivity.
  - destruct (contains (L "mp.weixin.qq.com") url); [simpl; tauto|].
    destruct (contains (L "notion.com") url || contains (L "notion.site") url);
      [simpl; tauto|].
    destruct (contains (L "medium.com") url); [simpl; tauto|].
    destruct (contains (L "zhuanlan.zhihu.com") url); simpl; tauto.
Qed.

(** C1, the claim as stated fails: the host of this URL contains none of
    the platform fragments, yet the URL is classified as medium, because
    the fragment occurs in its query string. *)
Lemma detect_source_type_not_by_host :
  Fetcher.spec_url_host (L "https://example.com/?ref=medium.com")
    = L "example.com" /\
  Forall (fun frag => contains frag (L "example.com") = false)
    Fetcher.host_fragments /\
  Fetcher._detect_source_type (L "https://example.com/?ref=medium.com") []
    = L "medium" /\
  Fetcher._detect_source_type (L "https://example.com/?ref=medium.com") []
    <> L "general".
Proof.
  split; [vm_compute; reflexivity|].
  split; [repeat constructor|].
  split; [vm_compute; reflexivity|].
  vm_compute. discriminate.
Qed.

(** ** Facts about the matcher *)

Lemma run_len_le (p : char -> bool) (s : str) : (run_len p s <= length s)%nat.
Proof. induction s as [|c t IH]; simpl; [lia|]. destruct (p c); simpl; lia. Qed.

(** A greedy repetition followed by a continuation that always succeeds
    takes the longest run. *)
Lemma rep_greedy_total {A} (p : char -> bool) (k : bool -> str -> option A) :
  (forall b s, is_Some (k b s)) ->
  forall s bol,
    Re.rep_greedy p 0 bol s k =
    k (Re.bol_after (take (run_len p s) s) bol) (drop (run_len p s) s).
Proof.
  intros Hk. induction s as [|c t IH]; intros bol; simpl; [reflexivity|].
  destruct (p c); simpl; [|reflexivity].
  rewrite IH. destruct (Hk (Re.bol_after (take (run_len p t) t) (c =? nl))
                          (drop (run_len p t) t)) as [x Hx].
  rewrite Hx. reflexivity.
Qed.

(** [p+] at a character of the class matches the whole run. *)
Lemma match_here_plus (p : char -> bool) (bol : bool) (c : char) (t : str) :
  p c = true ->
  Re.match_here (Re.plus p) bol (c :: t)
  = Some (Re.MObj (c :: take (run_len p t) t) []).
Proof.
  intros Hc. unfold Re.match_here, Re.plus. cbn [Re.m Re.rep_greedy].
  rewrite Hc. cbn [Nat.pred].
  rewrite rep_greedy_total by (intros; eexists; reflexivity).
  f_equal. f_equal.
  rewrite length_drop.
  pose proof (run_len_le p t).
  replace (length (c :: t) - (length t - run_len p t))%nat
    with (S (run_len p t)) by (simpl; lia).
  reflexivity.
Qed.

Lemma match_here_plus_fail (p : char -> bool) (bol : bool) (s : str) :
  match s with c :: _ => p c = false | [] => True end ->
  Re.match_here (Re.plus p) bol s = None.
Proof.
  unfold Re.match_here, Re.plus. destruct s as [|c t]; cbn [Re.m Re.rep_greedy].
  - reflexivity.
  - intros ->. reflexivity.
Qed.

(** [re.sub(p+, w, s)] replaces every maximal run by [w]. *)
Lemma sub_plus_squeeze (p : char -> bool) (repl : Re.mobj -> str) (w : str) :
  (forall mt, repl mt = w) ->
  forall s bol,
    Re.sub_go (Re.plus p) repl 0 bol s = squeeze p w false s /\
    Re.sub_go (Re.plus p) repl (run_len p s) bol s = squeeze p w true s.
Proof.
  intros Hrepl. induction s as [|c t IH]; intros bol.
  - split; reflexivity.
  - destruct (p c) eqn:Hc.
    + split.
      * cbn [Re.sub_go]. rewrite match_here_plus by exact Hc.
        cbn [Re.m_text length squeeze]. rewrite Hc, Hrepl.
        rewrite length_take, Nat.min_l by apply run_len_le.
        f_equal. apply IH.
      * cbn [run_len squeeze]. rewrite Hc. cbn [Re.sub_go]. apply IH.
    + assert (Re.sub_go (Re.plus p) repl 0 bol (c :: t)
              = c :: squeeze p w false t) as H0.
      { cbn [Re.sub_go]. rewrite match_here_plus_fail by exact Hc.
        f_equal. apply IH. }
      split; cbn [run_len squeeze]; rewrite Hc; exact H0.
Qed.

(** [re.sub([class], '', s)] deletes the characters of the class. *)
Lemma sub_cls_delete (p : char -> bool) (repl : Re.mobj -> str) :
  (forall mt, repl mt = []) ->
  forall s bol,
    Re.sub_go (Re.Cls p) repl 0 bol s = List.filter (fun c => negb (p c)) s.
Proof.
  intros Hrepl. induction s as [|c t IH]; intros bol; [reflexivity|].
  cbn [Re.sub_go List.filter]. unfold Re.match_here. cbn [Re.m].
  destruct (p c) eqn:Hc; cbn [negb].
  - cbn [Re.m_text]. rewrite Hrepl.
    replace (length (c :: t) - length t)%nat with 1%nat by (simpl; lia).
    cbn [take length app]. apply IH.
  - f_equal. apply IH.
Qed.

(** ** The filename sanitizer *)

Lemma squeeze_Forall (P : char -> Prop) (p : char -> bool) (w : str) :
  Forall P w ->
  forall s in_run,
    Forall (fun c => p c = false -> P c) s ->
    Forall P (squeeze p w in_run s).
Proof.
  intros Hw. induction s as [|c t IH]; intros in_run Hs; simpl; [constructor|].
  apply Forall_cons in Hs as [Hc Ht].
  destruct (p c) eqn:Hpc.
  - destruct in_run; [apply IH; exact Ht|].
    apply Forall_app. split; [exact Hw | apply IH; exact Ht].
  - constructor; [apply Hc; reflexivity | apply IH; exact Ht].
Qed.

Lemma one_of_In (w : str) (c : char) : Re.one_of w c = true <-> In c w.
Proof.
  unfold Re.one_of. rewrite existsb_exists. split.
  - intros [x [Hx Heq]]. apply N.eqb_eq in Heq. subst. exact Hx.
  - intros H. exists c. split; [exact H | apply N.eqb_refl].
Qed.

(** What the sanitizer computes, without regular expressions: forbidden
    characters deleted, whitespace runs squeezed into one underscore, at
    most 100 characters kept, ['article'] if nothing is left. *)
Lemma sanitize_filename_eq (title : str) :
  Fetcher._sanitize_filename title =
  let kept :=
    take 100 (squeeze isspace (L "_") false
                (List.filter (fun c => negb (Re.one_of Fetcher.forbidden_chars c))
                   title)) in
  if truthy kept then kept else L "article".
Proof.
  unfold Fetcher._sanitize_filename, Re.sub, Re.sub_fn.
  rewrite sub_cls_delete by reflexivity.
  rewrite (proj1 (sub_plus_squeeze isspace _ (L "_") (fun _ => eq_refl) _ _)).
  cbv zeta.
  set (f := squeeze _ _ _ _).
  destruct (Nat.ltb 100 (length f)) eqn:Hlen; [reflexivity|].
  apply Nat.ltb_ge in Hlen. rewrite take_ge by exact Hlen. reflexivity.
Qed.

(** C10. For every title the sanitizer returns a non-empty name of at
    most 100 characters, none of them one of the characters < > : dq / \
    | ? * and none of them whitespace; the name is the title with those
    characters deleted and every whitespace run replaced by one
    underscore, cut after 100 characters, and it is ['article'] when that
    leaves nothing (in particular when the title consists of such
    characters only). *)
Theorem sanitize_filename_safe (title : str) :
  Fetcher._sanitize_filename title <> [] /\
  (length (Fetcher._sanitize_filename title) <= 100)%nat /\
  Forall (fun c => ~ In c Fetcher.forbidden_chars /\ isspace c = false)
    (Fetcher._sanitize_filename title) /\
  (let kept :=
     take 100 (squeeze isspace (L "_") false
                 (List.filter
                    (fun c => negb (Re.one_of Fetcher.forbidden_chars c)) title)) in
   (kept <> [] -> Fetcher._sanitize_filename title = kept) /\
   (kept = [] -> Fetcher._sanitize_filename title = L "article")) /\
  (Forall (fun c => In c Fetcher.forbidden_chars) title ->
   Fetcher._sanitize_filename title = L "article").
Proof.
  rewrite sanitize_filename_eq. cbv zeta.
  set (filtered := List.filter _ title).
  set (kept := take 100 (squeeze isspace (L "_") false filtered)).
  assert (Forall (fun c => ~ In c Fetcher.forbidden_chars /\ isspace c = false)
            kept) as Hkept.
  { apply Forall_take. apply squeeze_Forall.
    - repeat constructor; vm_compute; intuition discriminate.
    - apply List.Forall_forall. intros c Hc Hsp.
      apply List.filter_In in Hc as [_ Hc]. apply negb_true_iff in Hc.
      split; [|exact Hsp].
      intros Hin. apply one_of_In in Hin. congruence. }
  assert (length kept <= 100)%nat as Hlen.
  { subst kept. rewrite length_take. lia. }
  repeat split.
  - destruct kept; simpl; discriminate.
  - destruct kept; [simpl; lia | exact Hlen].
  - destruct kept; [|exact Hkept].
    simpl. repeat constructor; vm_compute; intuition discriminate.
  - intros Hne. destruct kept; [congruence | reflexivity].
  - intros ->. reflexivity.
  - intros Hall.
    assert (filtered = []) as Hf.
    { subst filtered. clear -Hall. induction title as [|c t IH]; [reflexivity|].
      apply Forall_cons in Hall as [Hc Ht]. cbn [List.filter].
      apply one_of_In in Hc. rewrite Hc. cbn [negb]. apply IH. exact Ht. }
    subst kept. rewrite Hf. reflexivity.
Qed.

(** ** The extraction step *)

Lemma extract_title_truthy (source_type html : str) :
  truthy (fst (fst (Fetcher.extract source_type html))) = true.
Proof.
  unfold Fetcher.extract.
  destruct (if Fetcher.eqb_str source_type (L "wechat")
            then Fetcher._extract_wechat_content html
            else if Fetcher.eqb_str source_type (L "notion")
                 then Fetcher._extract_notion_content html
                 else Fetcher._extract_general_content html) as [[t a] c].
  cbn [fst]. destruct t; reflexivity.
Qed.

Lemma extract_no_title_rule (source_type html : str) :
  Fetcher.title_match source_type html = None ->
  fst (fst (Fetcher.extract source_type html)) = Fetcher.untitled.
Proof.
  unfold Fetcher.extract, Fetcher.title_match.
  destruct (Fetcher.eqb_str source_type (L "wechat")).
  - intros H. unfold Fetcher._extract_wechat_content. rewrite H. reflexivity.
  - destruct (Fetcher.eqb_str source_type (L "notion")).
    + intros H. unfold Fetcher._extract_notion_content. rewrite H. reflexivity.
    + intros H. unfold Fetcher._extract_general_content. rewrite H. reflexivity.
Qed.

(** C2. On every HTML string, under every profile, the extraction step
    yields a title, an author and a content fragment (it is a total
    function: nothing in it can raise), and the title is never empty:
    when none of the profile's title rules matches, and in particular on
    the empty string, the title is the fixed placeholder. Every article
    that [fetch_article] returns therefore has a non-empty title, and so
    has the title the command-line tool goes on with. *)
Theorem extract_title_never_empty (source_type html : str) :
  (exists title author content_html,
     Fetcher.extract source_type html = (title, author, content_html) /\
     title <> []) /\
  (Fetcher.title_match source_type html = None ->
   fst (fst (Fetcher.extract source_type html)) = Fetcher.untitled) /\
  fst (fst (Fetcher.extract source_type [])) = Fetcher.untitled /\
  FetchArticle.main_title html <> [] /\
  (forall _fetch_html today scheme netloc urljoin styled self url art self',
     Fetcher.fetch_article _fetch_html today scheme netloc urljoin styled
       self url = (Some art, self') ->
     Fetcher.title art <> []).
Proof.
  repeat split.
  - pose proof (extract_title_truthy source_type html) as H.
    destruct (Fetcher.extract source_type html) as [[t a] c].
    exists t, a, c. split; [reflexivity|].
    cbn [fst] in H. destruct t; [discriminate | discriminate].
  - apply extract_no_title_rule.
  - apply extract_no_title_rule. unfold Fetcher.title_match.
    destruct (Fetcher.eqb_str source_type (L "wechat")); [vm_compute; reflexivity|].
    destruct (Fetcher.eqb_str source_type (L "notion")); vm_compute; reflexivity.
  - unfold FetchArticle.main_title.
    destruct (FetchArticle.parse_article_title html); discriminate.
  - intros fetch today scheme netloc urljoin styled self url art self'.
    unfold Fetcher.fetch_article.
    destruct (fetch url) as [html'|]; [|discriminate].
    destruct (negb (truthy html')); [discriminate|].
    pose proof (extract_title_truthy (Fetcher._detect_source_type url html') html')
      as H.
    destruct (Fetcher.extract _ html') as [[t a] c].
    intros [= <- _]. cbn [Fetcher.title]. cbn [fst] in H.
    destruct t; discriminate.
Qed.

(** ** Image discovery *)

Section FirstSeen.
Context {M : Type} (f : M -> option str).

Local Abbreviation step := (add_first_seen f).
Local Abbreviation Inv := first_seen_of.

Lemma first_seen_step acc cs u :
  Inv acc cs ->
  Inv (if decide (u ∈ acc) then acc else acc ++ [u]) (cs ++ [u]).
Proof.
  intros (Hnd & Hel & Hord). destruct (decide (u ∈ acc)) as [Hin | Hnin].
  - split; [exact Hnd|]. split.
    + intros x. rewrite elem_of_app, list_elem_of_singleton, <- Hel.
      split; [tauto | intros [H | ->]; assumption].
    + intros i j a b Hi Hj Hij.
      destruct (Hord i j a b Hi Hj Hij) as (k & Hk & Hfirst).
      exists k. split; [apply lookup_app_l_Some; exact Hk|].
      intros k' Hk'. apply lookup_app_Some in Hk' as [Hk' | [Hge _]].
      * apply Hfirst. exact Hk'.
      * apply lookup_lt_Some in Hk. lia.
  - split.
    { apply NoDup_app. split; [exact Hnd|]. split.
      - intros x Hx Hx'. apply list_elem_of_singleton in Hx'. subst. tauto.
      - apply NoDup_singleton. }
    split.
    + intros x. rewrite !elem_of_app, Hel. tauto.
    + intros i j a b Hi Hj Hij.
      apply lookup_app_Some in Hj as [Hj | [Hge Hj]].
      * assert (acc !! i = Some a) as Hi'.
        { apply lookup_lt_Some in Hj.
          rewrite lookup_app_l in Hi by lia. exact Hi. }
        destruct (Hord i j a b Hi' Hj Hij) as (k & Hk & Hfirst).
        exists k. split; [apply lookup_app_l_Some; exact Hk|].
        intros k' Hk'. apply lookup_app_Some in Hk' as [Hk' | [Hge _]].
        -- apply Hfirst. exact Hk'.
        -- apply lookup_lt_Some in Hk. lia.
      * apply list_lookup_singleton_Some in Hj as [Hj ->].
        assert (acc !! i = Some a) as Hi'.
        { rewrite lookup_app_l in Hi by lia. exact Hi. }
        assert (a ∈ cs) as Ha.
        { apply Hel. apply list_elem_of_lookup. eauto. }
        apply list_elem_of_lookup in Ha as [k Hk].
        exists k. split; [apply lookup_app_l_Some; exact Hk|].
        intros k' Hk'. apply lookup_app_Some in Hk' as [Hk' | [Hge' _]].
        -- exfalso. apply Hnin. apply Hel. apply list_elem_of_lookup. eauto.
        -- apply lookup_lt_Some in Hk. lia.
Qed.

Lemma first_seen_fold ms :
  forall acc cs,
    Inv acc cs -> Inv (fold_left step ms acc) (cs ++ omap f ms).
Proof.
  induction ms as [|mt ms IH]; intros acc cs HI.
  - simpl. rewrite app_nil_r. exact HI.
  - assert (omap f (mt :: ms)
            = match f mt with
              | Some u => [u] ++ omap f ms
              | None => omap f ms
              end) as -> by reflexivity.
    change (fold_left step (mt :: ms) acc)
      with (fold_left step ms (step acc mt)).
    unfold step at 2. destruct (f mt) as [u|].
    + rewrite app_assoc. apply IH. apply first_seen_step. exact HI.
    + apply IH. exact HI.
Qed.

Lemma first_seen_result ms :
  NoDup (fold_left step ms []) /\
  (forall u, u ∈ fold_left step ms [] <-> u ∈ omap f ms) /\
  first_seen_order (fold_left step ms []) (omap f ms).
Proof.
  apply (first_seen_fold ms [] []).
  split; [constructor|]. split; [tauto|].
  intros i j u v Hi. rewrite lookup_nil in Hi. discriminate.
Qed.
End FirstSeen.

Lemma fold_left_ext_eq {A B} (f g : A -> B -> A) (l : list B) :
  (forall a b, f a b = g a b) ->
  forall a, fold_left f l a = fold_left g l a.
Proof.
  intros H. induction l as [|b l IH]; intros a; simpl; [reflexivity|].
  rewrite H. apply IH.
Qed.

Lemma image_url_step_candidate scheme netloc urljoin base_url urls mt :
  Fetcher.image_url_step scheme netloc urljoin base_url urls mt =
  match image_candidate scheme netloc urljoin base_url mt with
  | None => urls
  | Some url => if decide (url ∈ urls) then urls else urls ++ [url]
  end.
Proof.
  unfold Fetcher.image_url_step, image_candidate.
  destruct (startswith (Re.group 1 mt) (L "data:")); reflexivity.
Qed.



(** ** The image downloader *)

Lemma pretty_N_go_no_dot (x : N) :
  forall s,
    Forall (fun a => a <> "."%char) (list_ascii_of_string s) ->
    Forall (fun a => a <> "."%char) (list_ascii_of_string (pretty_N_go x s)).
Proof.
  induction (N.lt_wf_0 x) as [x _ IH]. intros s Hs.
  destruct (N.eq_dec x 0) as [-> | Hx].
  - rewrite pretty_N_go_0. exact Hs.
  - rewrite pretty_N_go_step by lia. apply IH.
    + apply N.div_lt; lia.
    + cbn [list_ascii_of_string]. constructor; [|exact Hs].
      unfold pretty_N_char. repeat case_match; discriminate.
Qed.

Lemma str_of_nat_no_dot (i : nat) : Forall (fun c => c <> 46) (str_of_nat i).
Proof.
  unfold str_of_nat, L, pretty, pretty_nat, pretty, pretty_N.
  assert (forall w, Forall (fun a => a <> "."%char) w ->
                    Forall (fun c => c <> 46) (List.map N_of_ascii w)) as Hmap.
  { induction 1 as [|a w Ha _ IHw]; simpl; constructor; [|exact IHw].
    intros Hc. apply Ha. rewrite <- (ascii_N_embedding a), Hc. reflexivity. }
  apply Hmap. case_decide.
  - repeat constructor. discriminate.
  - apply pretty_N_go_no_dot. constructor.
Qed.

Lemma pad_dec_no_dot (w n : nat) : Forall (fun c => c <> 46) (Downloader.pad_dec w n).
Proof.
  revert n. induction w as [|w IH]; intros n; simpl; [constructor|].
  apply Forall_app. split; [apply IH|].
  constructor; [|constructor].
  pose proof (Nat.mod_upper_bound n 10). lia.
Qed.

Lemma strftime_no_dot (t : Downloader.datetime) :
  Forall (fun c => c <> 46) (Downloader.strftime t).
Proof.
  unfold Downloader.strftime.
  assert (Forall (fun c => c <> 46) (L "_")) as Hu
    by (constructor; [vm_compute; discriminate | constructor]).
  rewrite !Forall_app.
  repeat split; first [apply pad_dec_no_dot | exact Hu].
Qed.

Lemma rfind_dot_none (name : str) :
  Forall (fun c => c <> 46) name -> Downloader.rfind_dot name = None.
Proof.
  induction 1 as [|c t Hc _ IH]; simpl; [reflexivity|].
  rewrite IH. apply N.eqb_neq in Hc. rewrite Hc. reflexivity.
Qed.

Lemma suffix_no_dot (name : str) :
  Forall (fun c => c <> 46) name -> Downloader.suffix name = [].
Proof.
  intros H. unfold Downloader.suffix. rewrite rfind_dot_none by exact H.
  reflexivity.
Qed.

Lemma requested_urls_app (a b : list Downloader.event) :
  requested_urls (a ++ b) = requested_urls a ++ requested_urls b.
Proof. unfold requested_urls. apply omap_app. Qed.

Section DownloadFacts.
Variable urlopen : str -> list (str * str) -> option (str * list N).
Variable write_ok : str -> str -> bool.
Variable mkdir_ok : str -> bool.
Variable now : nat -> Downloader.datetime.
Variable referer : str.
Variable images_dir : str.

Local Abbreviation dl i url :=
  (Downloader.download_image urlopen write_ok referer url images_dir
     (image_filename now i)).

Local Abbreviation step :=
  (Downloader.download_step urlopen write_ok now referer images_dir).

Local Abbreviation value i url :=
  (mapped_value (fst (dl i url)) url).

Lemma download_step_eq m log i url :
  step (m, log) (i, url) = (<[url := value i url]> m, log ++ snd (dl i url)).
Proof.
  unfold Downloader.download_step, mapped_value, image_filename.
  destruct (Downloader.download_image urlopen write_ok referer url images_dir _)
    as [[name|] evs]; reflexivity.
Qed.

Lemma image_filename_no_dot i : Forall (fun c => c <> 46) (image_filename now i).
Proof.
  unfold image_filename. rewrite !Forall_app. repeat split.
  - apply strftime_no_dot.
  - constructor; [vm_compute; discriminate | constructor].
  - apply str_of_nat_no_dot.
Qed.

(** Each call requests its URL exactly once. *)
Lemma download_image_requests i url :
  requested_urls (snd (dl i url)) = [url].
Proof.
  unfold Downloader.download_image.
  destruct (urlopen _ _) as [[ct data]|]; [|reflexivity].
  destruct (if negb _ then _ else _) as [name'|]; [|reflexivity].
  destruct (write_ok _ _); reflexivity.
Qed.

(** A successful download is stored under the proposed name followed
    by the extension. *)
Lemma download_image_success i url final_name :
  fst (dl i url) = Some final_name ->
  exists content_type data,
    urlopen url (Downloader.request_headers referer url)
      = Some (content_type, data) /\
    write_ok images_dir final_name = true /\
    final_name = image_filename now i ++
                 Downloader.get_image_extension url content_type.
Proof.
  unfold Downloader.download_image.
  destruct (urlopen _ _) as [[ct data]|]; [|discriminate].
  rewrite (suffix_no_dot _ (image_filename_no_dot i)).
  change (negb (bool_decide (Downloader.lower [] ∈ Downloader.image_suffixes)))
    with true.
  cbv iota.
  unfold Downloader.with_suffix.
  rewrite (suffix_no_dot _ (image_filename_no_dot i)).
  destruct (contains _ _); [discriminate|].
  destruct (_ || _); [discriminate|].
  destruct (negb _); [discriminate|].
  cbn [length]. rewrite Nat.sub_0_r, firstn_all.
  destruct (write_ok _ _) eqn:Hw; [|discriminate].
  cbn [fst]. intros [= <-]. exists ct, data. auto.
Qed.

Lemma download_image_failure i url :
  urlopen url (Downloader.request_headers referer url) = None ->
  fst (dl i url) = None.
Proof.
  intros H. unfold Downloader.download_image. rewrite H. reflexivity.
Qed.

(** The loop, from any state: untouched keys, the keys added, the value
    stored for the last occurrence of each URL, and the requests made. *)
Lemma download_fold (l : list str) :
  forall start m log,
    let r := fold_left step (enumerate start l) (m, log) in
    (forall u : str, u ∉ l -> fst r !! u = m !! u) /\
    (forall u : str, u ∈ l -> is_Some (fst r !! u)) /\
    (forall (i : nat) (u : str),
       l !! i = Some u -> u ∉ drop (S i) l ->
       fst r !! u = Some (value (start + i) u)) /\
    requested_urls (snd r) = requested_urls log ++ l.
Proof.
  induction l as [|x t IH]; intros start m log; cbv zeta.
  - cbn [enumerate fold_left fst snd]. repeat split.
    + intros u Hu. apply elem_of_nil in Hu. destruct Hu.
    + intros i u Hi. rewrite lookup_nil in Hi. discriminate.
    + rewrite app_nil_r. reflexivity.
  - cbn [enumerate fold_left]. rewrite download_step_eq.
    destruct (IH (S start) (<[x := value start x]> m) (log ++ snd (dl start x)))
      as (Hframe & Hdom & Hval & Hreq).
    repeat split.
    + intros u Hu. apply not_elem_of_cons in Hu as [Hne Hu].
      rewrite Hframe by exact Hu. apply lookup_insert_ne. congruence.
    + intros u Hu. destruct (decide (u ∈ t)) as [Hin | Hnin].
      * apply Hdom. exact Hin.
      * apply elem_of_cons in Hu as [-> | Hu]; [|contradiction].
        rewrite Hframe by exact Hnin. rewrite lookup_insert_eq. eauto.
    + intros i u Hi Hlast. destruct i as [|i].
      * cbn in Hi. injection Hi as ->. cbn [drop] in Hlast.
        rewrite Hframe by exact Hlast. rewrite lookup_insert_eq.
        rewrite Nat.add_0_r. reflexivity.
      * cbn in Hi. cbn [drop] in Hlast.
        rewrite (Hval i u Hi Hlast).
        replace (S start + i)%nat with (start + S i)%nat by lia. reflexivity.
    + rewrite Hreq, requested_urls_app, download_image_requests,
        <- app_assoc. reflexivity.
Qed.
End DownloadFacts.

(** C4. When the image directory can be created, the download step
    returns a mapping with exactly one entry per input URL: the keys are
    the input URLs. For a URL (at its last occurrence in the list) whose
    download succeeds the value is [images/] followed by the file name,
    which is the proposed name followed by the extension; when the
    download fails, in particular whenever the request raises, the value
    is the URL itself. Whatever the outcomes, every URL is requested,
    once per occurrence and in input order. *)
Theorem download_images_one_entry_per_url
    (urlopen : str -> list (str * str) -> option (str * list N))
    (write_ok : str -> str -> bool) (mkdir_ok : str -> bool)
    (now : nat -> Downloader.datetime) (referer : str)
    (image_urls : list str) (images_dir : str) :
  mkdir_ok images_dir = true ->
  exists url_mapping log,
    Downloader.download_images urlopen write_ok mkdir_ok now referer
      image_urls images_dir = Some (url_mapping, log) /\
    (forall u : str, is_Some (url_mapping !! u) <-> u ∈ image_urls) /\
    (forall (i : nat) (u : str),
       image_urls !! i = Some u -> u ∉ drop (S i) image_urls ->
       let attempt :=
         Downloader.download_image urlopen write_ok referer u images_dir
           (image_filename now (S i)) in
       (forall final_name,
          fst attempt = Some final_name ->
          url_mapping !! u = Some (L "images/" ++ final_name) /\
          exists content_type data,
            urlopen u (Downloader.request_headers referer u)
              = Some (content_type, data) /\
            final_name = image_filename now (S i) ++
                         Downloader.get_image_extension u content_type) /\
       (fst attempt = None -> url_mapping !! u = Some u) /\
       (urlopen u (Downloader.request_headers referer u) = None ->
        url_mapping !! u = Some u)) /\
    requested_urls log = image_urls.
Proof.
  intros Hmk. unfold Downloader.download_images.
  destruct image_urls as [|x t] eqn:Hl.
  - exists ∅, []. split; [reflexivity|]. split.
    + intros u. rewrite lookup_empty. split.
      * intros [? H]. discriminate.
      * intros H. apply elem_of_nil in H. destruct H.
    + split; [|reflexivity].
      intros i u Hi. rewrite lookup_nil in Hi. discriminate.
  - rewrite Hmk. rewrite <- Hl. clear Hl x t.
    pose proof (download_fold urlopen write_ok now referer images_dir
                  image_urls 1%nat ∅ []) as H.
    cbv zeta in H. destruct H as (Hframe & Hdom & Hval & Hreq).
    destruct (fold_left _ _ _) as [url_mapping log] eqn:Hfold.
    cbn [fst snd] in *.
    exists url_mapping, log. split; [reflexivity|]. split.
    + intros u. split; [|apply Hdom].
      intros Hsome. destruct (decide (u ∈ image_urls)) as [Hin|Hnin]; [exact Hin|].
      rewrite Hframe, lookup_empty in Hsome by exact Hnin.
      destruct Hsome as [? Hsome]. discriminate.
    + split; [|exact Hreq].
      intros i u Hi Hlast. cbv zeta.
      specialize (Hval i u Hi Hlast). cbn [Nat.add] in Hval.
      split; [|split].
      * intros final_name Hok. rewrite Hval, Hok. split; [reflexivity|].
        destruct (download_image_success urlopen write_ok now referer images_dir
                    (S i) u final_name Hok) as (ct & data & Hopen & _ & Hname).
        exists ct, data. auto.
      * intros Hfail. rewrite Hval, Hfail. reflexivity.
      * intros Hopen. rewrite Hval.
        rewrite (download_image_failure urlopen write_ok now referer images_dir
                   (S i) u Hopen).
        reflexivity.
Qed.

(** C4 on a concrete host: of two images the first downloads and the
    second cannot be reached. *)
Lemma download_images_one_entry_per_url_witness :
  let urlopen := fun (url : str) (_ : list (str * str)) =>
    if bool_decide (url = L "https://a.example/x.png")
    then Some (L "image/png", [137; 80; 78; 71]) else None in
  let now := fun _ : nat => Downloader.DateTime 2024 1 2 3 4 5 6 in
  let urls := [L "https://a.example/x.png"; L "https://b.example/y.png"] in
  exists url_mapping log,
    Downloader.download_images urlopen (fun _ _ => true) (fun _ => true) now
      (L "https://site.example/") urls (L "out/images")
      = Some (url_mapping, log) /\
    url_mapping !! L "https://a.example/x.png"
      = Some (L "images/20240102_030405_000006_1.png") /\
    url_mapping !! L "https://b.example/y.png"
      = Some (L "https://b.example/y.png") /\
    requested_urls log = urls.
Proof.
  cbv zeta.
  destruct (download_images_one_entry_per_url
              (fun (url : str) (_ : list (str * str)) =>
                 if bool_decide (url = L "https://a.example/x.png")
                 then Some (L "image/png", [137; 80; 78; 71]) else None)
              (fun _ _ => true) (fun _ => true)
              (fun _ : nat => Downloader.DateTime 2024 1 2 3 4 5 6)
              (L "https://site.example/")
              [L "https://a.example/x.png"; L "https://b.example/y.png"]
              (L "out/images") eq_refl)
    as (url_mapping & log & Hrun & _ & Hval & Hreq).
  exists url_mapping, log. split; [exact Hrun|].
  split; [|split; [|exact Hreq]].
  - destruct (Hval 0%nat (L "https://a.example/x.png") eq_refl) as (Hok & _ & _).
    { vm_compute. intros H. repeat (apply elem_of_cons in H as [H|H]; [discriminate|]).
      apply elem_of_nil in H. exact H. }
    apply (Hok (L "20240102_030405_000006_1.png")). vm_compute. reflexivity.
  - destruct (Hval 1%nat (L "https://b.example/y.png") eq_refl) as (_ & _ & Hfail).
    { vm_compute. intros H. apply elem_of_nil in H. exact H. }
    apply Hfail. vm_compute. reflexivity.
Defined.

(** ** The EPUB converter: the fallback tier's archive *)

Section ArchiveFacts.
Variable h : Epub.host.

Local Abbreviation resolve := (resolve_ref h).
Local Abbreviation image_entry := Epub.image_entry.

Lemma collect_raise dir l msg :
  fold_left (Epub.collect_image h dir) l (Epub.Raise msg) = Epub.Raise msg.
Proof. induction l as [|x l IH]; [reflexivity | exact IH]. Qed.

Lemma collect_fold dir l :
  forall images0 images,
    fold_left (Epub.collect_image h dir) l (Epub.Ret images0)
      = Epub.Ret images ->
    exists new,
      images = images0 ++ new /\
      Forall2 (packages h) (omap (resolve dir) l) (List.map image_entry new).
Proof.
  induction l as [|[i img_ref] l IH]; intros images0 images.
  - cbn [fold_left]. intros [= <-]. exists []. rewrite app_nil_r.
    split; [reflexivity | constructor].
  - assert (omap (resolve dir) ((i, img_ref) :: l)
            = match resolve dir (i, img_ref) with
              | Some r => [r] ++ omap (resolve dir) l
              | None => omap (resolve dir) l
              end) as -> by reflexivity.
    cbn [fold_left]. unfold Epub.collect_image at 2, resolve at 1.
    cbn [mbind Epub.exn_bind mret Epub.exn_ret].
    destruct (Epub.local_path h dir img_ref) as [img_path|]; [|apply IH].
    destruct (Epub.path_exists h img_path); [|apply IH].
    destruct (Epub.truthy_bytes _) as [png_data|].
    + intros H. apply IH in H as (new & -> & HF).
      eexists (_ :: new). rewrite <- app_assoc. split; [reflexivity|].
      cbn [List.map app]. constructor; [|exact HF].
      split; [reflexivity|]. left. reflexivity.
    + destruct (Epub.read_bytes h img_path) as [img_data|msg].
      * intros H. apply IH in H as (new & -> & HF).
        eexists (_ :: new). rewrite <- app_assoc. split; [reflexivity|].
        cbn [List.map app]. constructor; [|exact HF].
        split; [reflexivity|]. right. reflexivity.
      * cbn [mbind Epub.exn_bind]. rewrite collect_raise. discriminate.
Qed.

Lemma collect_images_resolved md_content images_dir images :
  Epub.collect_images h md_content images_dir = Epub.Ret images ->
  Forall2 (packages h) (resolved_refs h md_content images_dir)
    (List.map image_entry images).
Proof.
  unfold Epub.collect_images, resolved_refs.
  destruct images_dir as [dir|].
  - destruct (truthy dir).
    + destruct (Re.findall1 Epub.r_image_ref md_content) as [|r0 refs] eqn:Hrefs.
      * intros [= <-]. constructor.
      * intros H. apply collect_fold in H as (new & -> & HF). exact HF.
    + destruct (Re.findall1 Epub.r_image_ref md_content);
        intros [= <-]; constructor.
  - intros [= <-]. constructor.
Qed.

Lemma entry_count_images name (l : list (nat * str * str)) es :
  Forall2 (packages h) l es ->
  (forall t, name <> L "OEBPS/images/img_" ++ t) ->
  entry_count name es = 0%nat.
Proof.
  intros HF Hname. unfold entry_count.
  induction HF as [|[[i r] path] e l es Hp _ IH]; [reflexivity|].
  cbn [List.filter]. destruct Hp as [_ Hn].
  rewrite bool_decide_eq_false_2; [exact IH|].
  intros Heq. destruct Hn as [Hn | Hn]; rewrite Hn in Heq;
    symmetry in Heq; apply Hname in Heq; exact Heq.
Qed.
End ArchiveFacts.

(** The archive the fallback tier writes. *)
Lemma manual_tier_archive h rd md title author source_url out dir ok res evs
    path entries :
  Epub.manual_tier h rd md title author source_url out dir = (ok, res, evs) ->
  Epub.WroteZip path entries ∈ evs ->
  exists images html_content,
    Epub.collect_images h md dir = Epub.Ret images /\
    entries = Epub.epub_entries h rd title author source_url html_content images.
Proof.
  unfold Epub.manual_tier, Epub.manual_body.
  cbn [mbind Epub.exn_bind mret Epub.exn_ret].
  destruct (Epub.collect_images h md dir) as [images|msg];
    cbn [mbind Epub.exn_bind mret Epub.exn_ret].
  - destruct (Epub.write_zip h out _) as [[]|msg] eqn:Hz;
      cbn [mbind Epub.exn_bind mret Epub.exn_ret].
    + intros [= <- <- <-] Hin.
      apply elem_of_cons in Hin as [Hin | Hin]; [discriminate|].
      apply list_elem_of_singleton in Hin. injection Hin as -> ->.
      eauto.
    + intros [= <- <- <-] Hin. apply list_elem_of_singleton in Hin. discriminate.
  - intros [= <- <- <-] Hin. apply list_elem_of_singleton in Hin. discriminate.
Qed.

(** The delegate tier writes no archive of its own. *)
Lemma pandoc_no_archive h md title author source_url out dir ok res evs :
  Epub._convert_with_pandoc h md title author source_url out dir
    = (ok, res, evs) ->
  evs = [] \/ evs = [Epub.CopiedTo (Epub.absolute h out)].
Proof.
  unfold Epub._convert_with_pandoc.
  destruct (Epub._find_pandoc h) as [pandoc|]; [|intros [= <- <- <-]; auto].
  destruct (Epub.pandoc_body _ _ _ _ _ _ _) as [[[ok' res'] evs']|msg] eqn:Hb;
    [|intros [= <- <- <-]; auto].
  intros [= <- <- <-]. revert Hb. unfold Epub.pandoc_body.
  cbn [mbind Epub.exn_bind mret Epub.exn_ret].
  exn_next. exn_next. exn_next_pair.
  exn_next. exn_next. exn_next.
  exn_if; [intros [= <- <- <-]; auto|].
  exn_next.
  exn_if; [intros [= <- <- <-]; auto|].
  exn_if; [intros [= <- <- <-]; auto|].
  exn_next.
  intros [= <- <- <-]. auto.
Qed.

(** C3. Whenever a conversion writes an archive (only the fallback tier
    does), the archive's first entry is [mimetype], stored without
    compression, with content [application/epub+zip]; every other entry
    is compressed; there is exactly one package document
    ([OEBPS/content.opf]), one navigation document ([OEBPS/nav.xhtml]) and
    one legacy table of contents ([OEBPS/toc.ncx]); and after the six
    fixed entries comes exactly one entry per resolved image, in the
    order of the references. *)
Theorem fallback_archive_layout (h : Epub.host) (rd : Epub.renderers)
    (md_content title author source_url output_path : str)
    (images_dir : option str) (ok : bool) (result : str)
    (evs : list Epub.event) (path : str) (entries : list Epub.entry) :
  Epub.convert_to_epub h rd md_content title author source_url output_path
    images_dir = (ok, result, evs) ->
  Epub.WroteZip path entries ∈ evs ->
  (exists rest,
     entries = Epub.Entry (L "mimetype") (Epub.Text (L "application/epub+zip"))
                 Epub.ZIP_STORED :: rest /\
     Forall (fun e => Epub.e_compress e = Epub.ZIP_DEFLATED) rest) /\
  List.map Epub.e_name (take 6 entries)
    = [L "mimetype"; L "META-INF/container.xml"; L "OEBPS/content.opf";
       L "OEBPS/nav.xhtml"; L "OEBPS/toc.ncx"; L "OEBPS/content.xhtml"] /\
  entry_count (L "mimetype") entries = 1%nat /\
  entry_count (L "OEBPS/content.opf") entries = 1%nat /\
  entry_count (L "OEBPS/nav.xhtml") entries = 1%nat /\
  entry_count (L "OEBPS/toc.ncx") entries = 1%nat /\
  Forall2 (packages h) (resolved_refs h md_content images_dir) (drop 6 entries).
Proof.
  intros Hrun Hin.
  assert (exists ok' res' evs',
            Epub.manual_tier h rd md_content title author source_url
              output_path images_dir = (ok', res', evs') /\
            Epub.WroteZip path entries ∈ evs') as (ok' & res' & evs' & Hm & Hin').
  { revert Hrun. unfold Epub.convert_to_epub.
    destruct (Epub.manual_tier _ _ _ _ _ _ _ _) as [[ok' res'] evs'].
    destruct (Epub._find_pandoc h).
    - destruct (Epub._convert_with_pandoc _ _ _ _ _ _ _) as [[okp resp] evsp] eqn:Hp.
      apply pandoc_no_archive in Hp.
      destruct okp; intros [= <- <- <-].
      + exfalso. apply elem_of_cons in Hin as [Hin|Hin]; [discriminate|].
        destruct Hp as [-> | ->].
        * apply elem_of_nil in Hin. exact Hin.
        * apply list_elem_of_singleton in Hin. discriminate.
      + exists ok', res', evs'. split; [reflexivity|].
        apply elem_of_cons in Hin as [Hin|Hin]; [discriminate|].
        apply elem_of_app in Hin as [Hin|Hin]; [|exact Hin].
        exfalso. destruct Hp as [-> | ->].
        * apply elem_of_nil in Hin. exact Hin.
        * apply list_elem_of_singleton in Hin. discriminate.
    - intros [= <- <- <-]. eauto. }
  destruct (manual_tier_archive _ _ _ _ _ _ _ _ _ _ _ _ _ Hm Hin')
    as (images & html_content & Hcol & ->).
  pose proof (collect_images_resolved h _ _ _ Hcol) as HF.
  assert (forall name,
            (forall t, name <> L "OEBPS/images/img_" ++ t) ->
            entry_count name
              (Epub.epub_entries h rd title author source_url html_content images)
            = entry_count name
                (take 6 (Epub.epub_entries h rd title author source_url
                           html_content images))) as Hcount.
  { intros name Hname. unfold entry_count, Epub.epub_entries.
    rewrite List.filter_app, length_app.
    rewrite take_app_length' by reflexivity.
    change (length (List.filter _ (List.map _ images)))
      with (entry_count name (List.map Epub.image_entry images)).
    rewrite (entry_count_images h name _ _ HF Hname). lia. }
  split.
  { eexists. split; [reflexivity|].
    unfold Epub.epub_entries. cbn [app]. repeat (constructor; [reflexivity|]).
    apply List.Forall_forall. intros e He. apply List.in_map_iff in He.
    destruct He as (img & <- & _). reflexivity. }
  split; [reflexivity|].
  repeat split.
  - rewrite Hcount; [reflexivity | intros t; vm_compute; discriminate].
  - rewrite Hcount; [reflexivity | intros t; vm_compute; discriminate].
  - rewrite Hcount; [reflexivity | intros t; vm_compute; discriminate].
  - rewrite Hcount; [reflexivity | intros t; vm_compute; discriminate].
  - unfold Epub.epub_entries. rewrite drop_app_length' by reflexivity. exact HF.
Qed.

(** C3 on the sample host without the external tool: the Markdown text
    refers to one local image and one remote image, and the archive has
    the six fixed entries followed by the local image. *)
Lemma fallback_archive_layout_witness :
  exists entries,
    Epub.convert_to_epub (sample_host None) sample_renderers sample_markdown
      (L "T") (L "A") (L "http://s") (L "out/a.epub") (Some (L "out/images"))
    = (true, L "out/a.epub",
       [Epub.TriedManual; Epub.WroteZip (L "out/a.epub") entries]) /\
    List.map Epub.e_name entries
    = [L "mimetype"; L "META-INF/container.xml"; L "OEBPS/content.opf";
       L "OEBPS/nav.xhtml"; L "OEBPS/toc.ncx"; L "OEBPS/content.xhtml";
       L "OEBPS/images/img_0.png"] /\
    entry_count (L "OEBPS/content.opf") entries = 1%nat /\
    Forall2 (packages (sample_host None))
      (resolved_refs (sample_host None) sample_markdown (Some (L "out/images")))
      (drop 6 entries).
Proof.
  eexists. split; [vm_compute; reflexivity|].
  split; [vm_compute; reflexivity|].
  match goal with
  | |- entry_count _ ?es = _ /\ _ =>
      destruct (fallback_archive_layout (sample_host None) sample_renderers
                  sample_markdown (L "T") (L "A") (L "http://s") (L "out/a.epub")
                  (Some (L "out/images")) true (L "out/a.epub")
                  [Epub.TriedManual; Epub.WroteZip (L "out/a.epub") es]
                  (L "out/a.epub") es)
        as (_ & _ & _ & Hopf & _ & _ & Himg)
  end.
  - vm_compute. reflexivity.
  - apply elem_of_cons. right. apply list_elem_of_singleton. reflexivity.
  - split; [exact Hopf | exact Himg].
Defined.

(** ** The EPUB converter: the two tiers *)

(** What a success of the delegate tier implies. *)
Lemma convert_with_pandoc_success h md title author source_url out dir res evs :
  Epub._convert_with_pandoc h md title author source_url out dir
    = (true, res, evs) ->
  exists pandoc temp_dir img_counter r1 r2,
    Epub._find_pandoc h = Some pandoc /\
    Epub.mkdtemp h = Epub.Ret temp_dir /\
    Epub.run h (Epub.cmd_md_to_html h pandoc (Epub.absolute h temp_dir))
      = Epub.Ret r1 /\
    Epub.returncode r1 = 0%Z /\
    Epub.run h (Epub.cmd_html_to_epub h pandoc (Epub.absolute h temp_dir)
                  title author img_counter) = Epub.Ret r2 /\
    Epub.returncode r2 = 0%Z /\
    Epub.path_exists h
      (Epub.joinpath h (Epub.absolute h temp_dir) (L "output.epub")) = true /\
    Epub.st_size h
      (Epub.joinpath h (Epub.absolute h temp_dir) (L "output.epub")) <> 0%nat /\
    res = Epub.absolute h out.
Proof.
  unfold Epub._convert_with_pandoc.
  destruct (Epub._find_pandoc h) as [pandoc|]; [|discriminate].
  destruct (Epub.pandoc_body _ _ _ _ _ _ _) as [[[ok' res'] evs']|msg] eqn:Hb;
    [|discriminate].
  intros [= -> -> ->]. revert Hb. unfold Epub.pandoc_body.
  cbn [mbind Epub.exn_bind mret Epub.exn_ret].
  exn_next. exn_next. exn_next_pair.
  exn_next. exn_next. exn_next.
  exn_if; [discriminate|].
  exn_next.
  exn_if; [discriminate|].
  exn_if; [discriminate|].
  exn_next.
  intros [= <-].
  repeat match goal with
         | H : negb _ = false |- _ => apply negb_false_iff in H
         | H : _ || _ = false |- _ => apply orb_false_iff in H; destruct H
         | H : Z.eqb _ _ = true |- _ => apply Z.eqb_eq in H
         | H : Nat.eqb _ _ = false |- _ => apply Nat.eqb_neq in H
         end.
  eauto 20.
Qed.

Lemma manual_tier_failure h rd md title author source_url out dir detail evs :
  Epub.manual_tier h rd md title author source_url out dir
    = (false, detail, evs) ->
  Epub.manual_body h rd md title author source_url out dir = Epub.Raise detail.
Proof.
  unfold Epub.manual_tier.
  destruct (Epub.manual_body _ _ _ _ _ _ _ _) as [[path evs']|msg].
  - discriminate.
  - intros [= <- _]. reflexivity.
Qed.

Lemma manual_tier_tried h rd md title author source_url out dir :
  Epub.TriedManual ∈
    (Epub.manual_tier h rd md title author source_url out dir).2.
Proof.
  unfold Epub.manual_tier.
  destruct (Epub.manual_body _ _ _ _ _ _ _ _) as [[path evs']|msg];
    cbn [snd]; apply elem_of_cons; left; reflexivity.
Qed.

(** C9, as amended. The conversion succeeds exactly when the delegate
    tier (if the tool is there) succeeds or the fallback tier succeeds. A
    success of the delegate tier is returned as it is and the fallback
    tier does not run. When the tool is missing or the delegate tier
    fails, for whatever reason, the fallback tier runs and its result is
    the result; so a failure is reported only when the fallback tier
    raised, and it carries that exception's message. The delegate tier
    fails on a non-zero exit of either stage and on a missing or empty
    EPUB file after the second stage (and on any exception): it succeeds
    only if both exit codes are 0 and that file exists and is not empty.
    The output of the first stage is not inspected. *)
Theorem convert_to_epub_two_tiers (h : Epub.host) (rd : Epub.renderers)
    (md_content title author source_url output_path : str)
    (images_dir : option str) :
  let delegate :=
    Epub._convert_with_pandoc h md_content title author source_url output_path
      images_dir in
  let fallback :=
    Epub.manual_tier h rd md_content title author source_url output_path
      images_dir in
  let r :=
    Epub.convert_to_epub h rd md_content title author source_url output_path
      images_dir in
  (r.1.1 = true <->
   (Epub._find_pandoc h <> None /\ delegate.1.1 = true) \/ fallback.1.1 = true) /\
  (Epub._find_pandoc h <> None -> delegate.1.1 = true ->
   r.1 = delegate.1 /\ Epub.TriedManual ∉ r.2) /\
  (Epub._find_pandoc h = None \/ delegate.1.1 = false ->
   r.1 = fallback.1 /\ Epub.TriedManual ∈ r.2) /\
  (forall detail,
     r.1 = (false, detail) ->
     Epub.manual_body h rd md_content title author source_url output_path
       images_dir = Epub.Raise detail /\
     Epub.TriedManual ∈ r.2) /\
  (delegate.1.1 = true ->
   exists pandoc temp_dir img_counter r1 r2,
     Epub._find_pandoc h = Some pandoc /\
     Epub.mkdtemp h = Epub.Ret temp_dir /\
     Epub.run h (Epub.cmd_md_to_html h pandoc (Epub.absolute h temp_dir))
       = Epub.Ret r1 /\
     Epub.returncode r1 = 0%Z /\
     Epub.run h (Epub.cmd_html_to_epub h pandoc (Epub.absolute h temp_dir)
                   title author img_counter) = Epub.Ret r2 /\
     Epub.returncode r2 = 0%Z /\
     Epub.path_exists h
       (Epub.joinpath h (Epub.absolute h temp_dir) (L "output.epub")) = true /\
     Epub.st_size h
       (Epub.joinpath h (Epub.absolute h temp_dir) (L "output.epub")) <> 0%nat).
Proof.
  cbv zeta.
  pose proof (manual_tier_tried h rd md_content title author source_url
                output_path images_dir) as Htried.
  pose proof (pandoc_no_archive h md_content title author source_url
                output_path images_dir) as Hevs.
  pose proof (convert_with_pandoc_success h md_content title author source_url
                output_path images_dir) as Hsucc.
  pose proof (manual_tier_failure h rd md_content title author source_url
                output_path images_dir) as Hfail.
  unfold Epub.convert_to_epub.
  destruct (Epub.manual_tier _ _ _ _ _ _ _ _) as [[okm resm] evsm].
  destruct (Epub._convert_with_pandoc _ _ _ _ _ _ _) as [[okp resp] evsp].
  cbn [fst snd] in *.
  specialize (Hevs okp resp evsp eq_refl).
  assert (Epub.TriedManual ∉ evsp) as Hnot.
  { intros Hin. destruct Hevs as [-> | ->].
    - apply elem_of_nil in Hin. exact Hin.
    - apply list_elem_of_singleton in Hin. discriminate. }
  destruct (Epub._find_pandoc h) as [pandoc|] eqn:Hfind.
  - destruct okp; cbn [fst snd].
    + split; [|split; [|split; [|split]]].
      * split; [|reflexivity]. intros _. left. split; [discriminate | reflexivity].
      * intros _ _. split; [reflexivity|].
        intros Hin. apply elem_of_cons in Hin as [Hin|Hin];
          [discriminate | contradiction].
      * intros [Hn | Hn]; discriminate.
      * intros detail Hd. discriminate.
      * intros _.
        destruct (Hsucc resp evsp eq_refl)
          as (p & t & n & r1 & r2 & H1 & H2 & H3 & H4 & H5 & H6 & H7 & H8 & _).
        exists p, t, n, r1, r2. auto 10.
    + assert (Epub.TriedManual ∈ Epub.TriedPandoc :: evsp ++ evsm) as Hran.
      { apply elem_of_cons. right. apply elem_of_app. right. exact Htried. }
      split; [|split; [|split; [|split]]].
      * split; [intros ->; right; reflexivity|].
        intros [[_ Hn] | Hm]; [discriminate | exact Hm].
      * intros _ Hn. discriminate.
      * intros _. split; [reflexivity | exact Hran].
      * intros detail [= -> ->]. split; [|exact Hran].
        apply (Hfail detail evsm eq_refl).
      * intros Hn. discriminate.
  - cbn [fst snd]. split; [|split; [|split; [|split]]].
    + split; [intros ->; right; reflexivity|].
      intros [[Hn _] | Hm]; [congruence | exact Hm].
    + intros Hn. congruence.
    + intros _. split; [reflexivity | exact Htried].
    + intros detail [= -> ->]. split; [|exact Htried].
      apply (Hfail detail evsm eq_refl).
    + intros ->.
      destruct (Hsucc resp evsp eq_refl) as (p & _ & _ & _ & _ & Hp & _).
      discriminate.
Qed.

(** C9, the claim as stated fails. On the sample host with the tool
    installed, the first stage exits with 0 and leaves an empty output
    file; the second stage exits with 0 and leaves a non-empty EPUB. The
    empty output of the first stage is not treated as a failure of the
    delegate tier: its success is the result, and the fallback tier does
    not run. *)
Lemma convert_to_epub_ignores_first_stage_output :
  Epub.path_exists (sample_host (Some (L "pandoc"))) (L "/tmp/t/content.html")
    = true /\
  Epub.st_size (sample_host (Some (L "pandoc"))) (L "/tmp/t/content.html")
    = 0%nat /\
  List.nth 3 (Epub.cmd_md_to_html (sample_host (Some (L "pandoc")))
                (L "pandoc") (L "/tmp/t")) []
    = L "/tmp/t/content.html" /\
  Epub.convert_to_epub (sample_host (Some (L "pandoc"))) sample_renderers
    sample_markdown (L "T") (L "A") (L "http://s") (L "out/a.epub")
    (Some (L "out/images"))
  = (true, L "out/a.epub", [Epub.TriedPandoc; Epub.CopiedTo (L "out/a.epub")]).
Proof.
  repeat split; vm_compute; reflexivity.
Qed.

(** ** The Markdown transform on concrete fragments *)

(** C5 (code defect). An image tag that carries both attributes, [src]
    first, is rendered with the [src] address: the search for the source
    attribute takes the leftmost of [data-src] and [src], so [data-src]
    is preferred only when it comes first. The alternative text defaults
    to the placeholder, and a protocol-relative address gets [https:]. *)
Lemma img_src_taken_before_data_src :
  Fetcher._html_to_markdown
    (L "<img src=" ++ [dq] ++ L "a.png" ++ [dq] ++
     L " data-src=" ++ [dq] ++ L "b.png" ++ [dq] ++ L ">")
  = L "![" ++ Fetcher.default_alt ++ L "](a.png)" /\
  Fetcher._html_to_markdown
    (L "<img data-src=" ++ [dq] ++ L "//cdn.example.com/b.png" ++ [dq] ++
     L " src=" ++ [dq] ++ L "a.png" ++ [dq] ++
     L " alt=" ++ [dq] ++ L "photo" ++ [dq] ++ L ">")
  = L "![photo](https://cdn.example.com/b.png)".
Proof. split; vm_compute; reflexivity. Qed.

(** C6 (code defect). The list-item pass runs over the whole document
    before the ordered-list pass, so the ordered-list pass finds no item
    left inside the list and replaces the list by a newline: the items of
    an ordered list are lost instead of being numbered. On the items
    themselves the numbering function does count from 1. *)
Lemma ordered_list_items_are_lost :
  Fetcher._html_to_markdown (L "<ol><li>first</li><li>second</li></ol>") = [] /\
  Fetcher._html_to_markdown
    (L "<p>before</p><ol start=5><li>a</li><li>b</li><li>c</li></ol><p>after</p>")
  = L "before" ++ [nl; nl] ++ L "after" /\
  Re.sub (Fetcher.element "li") [Re.TLit (L "- "); Re.TGrp 1; Re.TLit [nl]]
    (L "<ol><li>first</li><li>second</li></ol>")
  = L "<ol>- first" ++ [nl] ++ L "- second" ++ [nl] ++ L "</ol>" /\
  Fetcher.replace_ol
    (Re.MObj (L "<ol><li>first</li><li>second</li></ol>")
       [(1%nat, L "<li>first</li><li>second</li>")])
  = [nl] ++ L "1. first" ++ [nl] ++ L "2. second" ++ [nl].
Proof. repeat split; vm_compute; reflexivity. Qed.

(** C7 (code defect). The blank-line collapse runs before the lines are
    right-trimmed, so lines holding only whitespace survive the collapse
    and become empty afterwards: three line breaks in a row leave three
    consecutive newlines in the result. The same holds for
    [clean_markdown]. *)
Lemma cleanup_leaves_three_newlines :
  Fetcher._html_to_markdown (L "a<br><br><br>b") = [97; nl; nl; nl; 98] /\
  Fetcher.final_cleanup (L "a  " ++ [nl] ++ L "  " ++ [nl] ++ L "  " ++ [nl] ++ L "b")
    = [97; nl; nl; nl; 98] /\
  FetchArticle.clean_markdown
    (L "a  " ++ [nl] ++ L "  " ++ [nl] ++ L "  " ++ [nl] ++ L "b")
    = [97; nl; nl; nl; 98] /\
  contains [nl; nl; nl] (Fetcher._html_to_markdown (L "a<br><br><br>b")) = true.
Proof. repeat split; vm_compute; reflexivity. Qed.

(** ** The final clean-up, line by line *)

Lemma split_nl_cons (s : str) : exists l ls, split_nl s = l :: ls.
Proof.
  induction s as [|c t (l & ls & IH)]; simpl; [eauto|].
  destruct (c =? nl); [eauto|]. rewrite IH. eauto.
Qed.

Lemma split_nl_head_nil (t : str) l ls :
  split_nl t = l :: ls -> (l = [] <-> ends_line t = true).
Proof.
  destruct t as [|d t]; simpl.
  - intros [= <- <-]. tauto.
  - destruct (d =? nl).
    + intros [= <- <-]. tauto.
    + destruct (split_nl t) as [|l' ls']; intros [= <- <-];
        split; discriminate.
Qed.

Lemma rstrip_cons_fixed (c : char) (l : str) :
  rstrip (c :: l) = c :: l <->
  (l = [] /\ isspace c = false) \/ (l <> [] /\ rstrip l = l).
Proof.
  simpl. destruct (rstrip l) as [|d t'] eqn:Hr.
  - destruct (isspace c); split.
    + discriminate.
    + intros [[_ H] | [Hne H]]; [discriminate | congruence].
    + intros [= <-]. left. split; reflexivity.
    + intros [[-> _] | [Hne H]]; [reflexivity | congruence].
  - split.
    + intros [= <-]. right. split; [discriminate | reflexivity].
    + intros [[-> _] | [_ <-]]; [discriminate | reflexivity].
Qed.

(** Every line is right-trimmed exactly when no line ends in whitespace. *)
Lemma lines_trimmed_iff (s : str) :
  Forall (fun line => rstrip line = line) (split_nl s) <-> no_trailing s = true.
Proof.
  induction s as [|c t IH].
  - simpl. split; [reflexivity | repeat constructor].
  - cbn [split_nl no_trailing]. destruct (c =? nl) eqn:Hc.
    + rewrite andb_false_r, andb_false_l. cbn [negb andb]. rewrite <- IH.
      rewrite Forall_cons. simpl. tauto.
    + destruct (split_nl_cons t) as (l & ls & Hsplit).
      rewrite Hsplit in *. rewrite Forall_cons in *.
      rewrite rstrip_cons_fixed.
      pose proof (split_nl_head_nil t l ls Hsplit) as Hnil.
      rewrite andb_true_iff, negb_true_iff, <- IH.
      cbn [negb]. rewrite andb_true_r.
      destruct (isspace c); destruct (ends_line t); cbn [andb];
        destruct l as [|d l]; simpl rstrip at 1;
        intuition (try discriminate; try congruence; auto).
Qed.

Lemma split_nl_no_newline (s : str) :
  Forall (Forall (fun c => c <> nl)) (split_nl s).
Proof.
  induction s as [|c t IH]; simpl; [repeat constructor|].
  destruct (c =? nl) eqn:Hc; [constructor; [constructor | exact IH]|].
  destruct (split_nl t) as [|l ls]; [repeat constructor; apply N.eqb_neq, Hc|].
  apply Forall_cons in IH as [Hl Hls].
  constructor; [|exact Hls]. constructor; [apply N.eqb_neq, Hc | exact Hl].
Qed.

Lemma rstrip_head (l : str) d t' : rstrip l = d :: t' -> exists l', l = d :: l'.
Proof.
  destruct l as [|c l]; simpl; [discriminate|].
  destruct (rstrip l); [destruct (isspace c)|]; intros [= <- _]; eauto.
Qed.

Lemma no_trailing_cons c t :
  no_trailing (c :: t)
  = negb (isspace c && negb (c =? nl) && ends_line t) && no_trailing t.
Proof. reflexivity. Qed.

Lemma no_trailing_tail c t : no_trailing (c :: t) = true -> no_trailing t = true.
Proof. simpl. intros H. apply andb_true_iff in H. tauto. Qed.

Lemma no_trailing_lstrip (s : str) :
  no_trailing s = true -> no_trailing (lstrip s) = true.
Proof.
  induction s as [|c t IH]; [reflexivity|]. intros H. cbn [lstrip].
  destruct (isspace c); [apply IH; exact (no_trailing_tail c t H) | exact H].
Qed.

Lemma no_trailing_rstrip (s : str) :
  no_trailing s = true -> no_trailing (rstrip s) = true.
Proof.
  induction s as [|c t IH]; [reflexivity|]. intros H.
  pose proof (IH (no_trailing_tail c t H)) as IHt.
  cbn [rstrip]. destruct (rstrip t) as [|d t'] eqn:Hr.
  - destruct (isspace c) eqn:Hc; [reflexivity|].
    cbn [no_trailing]. rewrite Hc. reflexivity.
  - destruct (rstrip_head t d t' Hr) as [l' ->].
    rewrite no_trailing_cons in H |- *. cbn [ends_line] in H |- *.
    apply andb_true_iff in H as [H _]. rewrite H. exact IHt.
Qed.

(** A right-trimmed line without newline, followed by the end of the
    text or by a newline, adds no trailing whitespace. *)
Lemma no_trailing_rstrip_app (l r : str) :
  Forall (fun c => c <> nl) l ->
  ends_line r = true -> no_trailing r = true ->
  no_trailing (rstrip l ++ r) = true.
Proof.
  intros Hl Hend Hr. induction Hl as [|c l Hc Hl IH]; [exact Hr|].
  cbn [rstrip]. destruct (rstrip l) as [|d t'] eqn:Hrs.
  - destruct (isspace c) eqn:Hsp; [exact Hr|].
    cbn [app no_trailing]. rewrite Hsp. exact Hr.
  - destruct (rstrip_head l d t' Hrs) as [l' ->].
    apply Forall_cons in Hl as [Hd _]. apply N.eqb_neq in Hd.
    change ((c :: d :: t') ++ r) with (c :: (d :: t') ++ r).
    rewrite no_trailing_cons. cbn [app ends_line].
    rewrite Hd, andb_false_r. exact IH.
Qed.

Lemma no_trailing_join (ls : list str) :
  Forall (Forall (fun c => c <> nl)) ls ->
  no_trailing (join [nl] (List.map rstrip ls)) = true.
Proof.
  induction 1 as [|l ls Hl Hls IH]; [reflexivity|].
  destruct ls as [|l2 ls].
  - cbn [List.map join]. rewrite <- (app_nil_r (rstrip l)).
    apply no_trailing_rstrip_app; [exact Hl | reflexivity | reflexivity].
  - change (join [nl] (List.map rstrip (l :: l2 :: ls)))
      with (rstrip l ++ nl :: join [nl] (List.map rstrip (l2 :: ls))).
    apply no_trailing_rstrip_app; [exact Hl | reflexivity |].
    rewrite no_trailing_cons. exact IH.
Qed.

(** X1. The part of the clean-up's purpose that holds on every text:
    after the final clean-up, and so in every result of the Markdown
    transform, no line ends in whitespace (right-trimming a line of the
    result changes nothing). *)
Theorem final_cleanup_lines_trimmed (html : str) :
  Forall (fun line => rstrip line = line)
    (split_nl (Fetcher.final_cleanup html)) /\
  Forall (fun line => rstrip line = line)
    (split_nl (Fetcher._html_to_markdown html)).
Proof.
  assert (forall text,
            Forall (fun line => rstrip line = line)
              (split_nl (Fetcher.final_cleanup text))) as H.
  { intros text. apply lines_trimmed_iff. unfold Fetcher.final_cleanup, strip.
    apply no_trailing_rstrip, no_trailing_lstrip, no_trailing_join,
      split_nl_no_newline. }
  split; [apply H|]. unfold Fetcher._html_to_markdown. apply H.
Qed.

(** * Further properties *)

(** ** Strings *)

Lemma lstrip_idem (s : str) : lstrip (lstrip s) = lstrip s.
Proof.
  induction s as [|c t IH]; [reflexivity|]. cbn [lstrip].
  destruct (isspace c) eqn:Hc; [exact IH|]. cbn [lstrip]. rewrite Hc. reflexivity.
Qed.

Lemma rstrip_idem (s : str) : rstrip (rstrip s) = rstrip s.
Proof.
  induction s as [|c t IH]; [reflexivity|]. cbn [rstrip].
  destruct (rstrip t) as [|d t'] eqn:Ht.
  - destruct (isspace c) eqn:Hc; [reflexivity|]. cbn [rstrip]. rewrite Hc. reflexivity.
  - change (rstrip (c :: d :: t')) with
      (match rstrip (d :: t') with
       | [] => if isspace c then [] else [c]
       | t'' => c :: t''
       end).
    rewrite IH. reflexivity.
Qed.

Lemma lstrip_rstrip_comm (s : str) : lstrip (rstrip s) = rstrip (lstrip s).
Proof.
  induction s as [|c t IH]; [reflexivity|]. cbn [lstrip rstrip].
  destruct (isspace c) eqn:Hc.
  - rewrite <- IH. destruct (rstrip t) as [|d t'] eqn:Ht; [reflexivity|].
    cbn [lstrip]. rewrite Hc. reflexivity.
  - cbn [rstrip]. destruct (rstrip t) as [|d t'] eqn:Ht; rewrite ?Hc;
      cbn [lstrip]; rewrite Hc; reflexivity.
Qed.

Lemma strip_idem (s : str) : strip (strip s) = strip s.
Proof.
  unfold strip. rewrite (lstrip_rstrip_comm (lstrip s)), lstrip_idem.
  apply rstrip_idem.
Qed.

(** X2. Both converters return trimmed text: the result neither starts
    nor ends with whitespace. *)
Theorem markdown_is_stripped (html : str) :
  strip (Fetcher._html_to_markdown html) = Fetcher._html_to_markdown html /\
  strip (FetchArticle.html_to_markdown html) = FetchArticle.html_to_markdown html /\
  lstrip (Fetcher._html_to_markdown html) = Fetcher._html_to_markdown html /\
  rstrip (Fetcher._html_to_markdown html) = Fetcher._html_to_markdown html.
Proof.
  unfold Fetcher._html_to_markdown, FetchArticle.html_to_markdown,
    Fetcher.final_cleanup, FetchArticle.clean_markdown. cbv zeta.
  split; [apply strip_idem|]. split; [apply strip_idem|].
  split.
  - unfold strip. rewrite <- lstrip_rstrip_comm. apply lstrip_idem.
  - unfold strip. apply rstrip_idem.
Qed.

(** ** [str.replace] *)

Lemma startswith_head (a : char) (old s : str) :
  Forall (fun c => c <> a) s -> startswith s (a :: old) = false.
Proof.
  intros H. destruct s as [|c t]; [reflexivity|]. cbn [startswith].
  apply Forall_cons in H as [Hc _].
  destruct (N.eqb_spec a c); [congruence|reflexivity].
Qed.

(** Nothing is replaced where [old] does not occur. *)
Lemma replace_go_absent (old new s : str) :
  contains old s = false -> replace_go old new 0 s = s.
Proof.
  induction s as [|c t IH]; [reflexivity|]. intros H.
  cbn [contains] in H. apply orb_false_iff in H as [H1 H2].
  cbn [replace_go]. rewrite H1, IH by exact H2. reflexivity.
Qed.

Lemma contains_nil (s : str) : contains [] s = true.
Proof. destruct s; reflexivity. Qed.

Lemma replace_absent (old new s : str) :
  contains old s = false -> replace old new s = s.
Proof.
  destruct old as [|a old']; [rewrite contains_nil; discriminate|].
  apply replace_go_absent.
Qed.

Lemma contains_head_absent (a : char) (old s : str) :
  Forall (fun c => c <> a) s -> contains (a :: old) s = false.
Proof.
  induction s as [|c t IH]; intros H; [reflexivity|].
  cbn [contains]. rewrite startswith_head by exact H.
  apply Forall_cons in H as [_ H]. apply IH, H.
Qed.

(** Replacing a text by itself changes nothing. *)
Lemma replace_go_self (a : char) (old' s : str) (skip : nat) :
  replace_go (a :: old') (a :: old') skip s = drop skip s.
Proof.
  revert skip. induction s as [|c t IH]; intros skip.
  - destruct skip; reflexivity.
  - destruct skip as [|n]; cbn [replace_go drop]; [|apply IH].
    destruct (startswith (c :: t) (a :: old')) eqn:Hs.
    + rewrite IH. apply startswith_spec in Hs as [post Hpost].
      injection Hpost as -> ->. cbn [length Nat.pred app].
      rewrite drop_app_length. reflexivity.
    + rewrite IH. reflexivity.
Qed.

Lemma replace_self (old s : str) : replace old old s = s.
Proof.
  destruct old as [|a old'].
  - cbn. induction s as [|c t IH]; [reflexivity|]. cbn. f_equal. exact IH.
  - unfold replace. apply (replace_go_self a old' s 0).
Qed.

(** A replacement by a longer text never shortens, and lengthens when
    there is an occurrence. *)
Lemma replace_go_length (old new : str) :
  (0 < length old <= length new)%nat ->
  forall s skip, (length s - skip <= length (replace_go old new skip s))%nat.
Proof.
  intros Hlen. induction s as [|c t IH]; intros skip; [cbn; lia|].
  destruct skip as [|n]; cbn [replace_go length].
  - destruct (startswith (c :: t) old) eqn:Hs.
    + specialize (IH (Nat.pred (length old))). rewrite length_app. lia.
    + specialize (IH 0%nat). cbn [length]. lia.
  - specialize (IH n). lia.
Qed.

Lemma replace_go_longer (old new : str) :
  (0 < length old < length new)%nat ->
  forall s skip,
    contains old (drop skip s) = true ->
    (length s - skip < length (replace_go old new skip s))%nat.
Proof.
  intros Hlen. induction s as [|c t IH]; intros skip Hc.
  - rewrite drop_nil in Hc. destruct old; cbn in *; [lia | discriminate].
  - destruct skip as [|n]; cbn [replace_go length].
    + destruct (startswith (c :: t) old) eqn:Hs.
      * rewrite length_app.
        pose proof (replace_go_length old new ltac:(lia) t (Nat.pred (length old))).
        lia.
      * cbn [drop contains] in Hc. rewrite Hs in Hc. cbn [orb] in Hc.
        specialize (IH 0%nat Hc). cbn [length]. lia.
    + cbn [drop] in Hc. specialize (IH n Hc). lia.
Qed.

Lemma contains_trans (a b c : str) :
  contains a b = true -> contains b c = true -> contains a c = true.
Proof.
  intros Hab Hbc. apply contains_spec in Hab as [p1 [q1 ->]].
  apply contains_spec in Hbc as [p2 [q2 ->]].
  apply contains_spec. exists (p2 ++ p1), (q1 ++ q2).
  rewrite <- !app_assoc. reflexivity.
Qed.

(** ** Local image addresses *)

Section ReplaceUrlFacts.
Variable urlparse : str -> option (str * str).

Local Abbreviation replace_url_step := (Fetcher.replace_url_step urlparse).
Local Abbreviation replace_image_urls := (Fetcher.replace_image_urls urlparse).

Lemma replace_url_step_raised l : fold_left replace_url_step l None = None.
Proof. induction l as [|x l IH]; [reflexivity | exact IH]. Qed.

Lemma replace_image_urls_app content l1 l2 :
  replace_image_urls content (l1 ++ l2)
  = fold_left replace_url_step l2 (replace_image_urls content l1).
Proof. unfold Fetcher.replace_image_urls. apply fold_left_app. Qed.

Lemma replace_url_step_self content u parsed :
  urlparse u = Some parsed ->
  replace_url_step (Some content) (u, u) =
  Some (match Fetcher.relative_url parsed with
        | Some r => replace r u content
        | None => content
        end).
Proof.
  intros H. unfold Fetcher.replace_url_step. cbn [mbind option_bind].
  rewrite replace_self, H. reflexivity.
Qed.

End ReplaceUrlFacts.

(** X3. A text in which neither an address of the mapping nor its
    root-relative form occurs is returned unchanged, provided every
    address of the mapping can be parsed. *)
Theorem replace_image_urls_untouched (urlparse : str -> option (str * str))
    (content : str) (url_mapping : list (str * str)) :
  (forall u l, In (u, l) url_mapping ->
     contains u content = false /\
     exists parsed,
       urlparse u = Some parsed /\
       forall r, Fetcher.relative_url parsed = Some r ->
                 contains r content = false) ->
  Fetcher.replace_image_urls urlparse content url_mapping = Some content.
Proof.
  unfold Fetcher.replace_image_urls.
  induction url_mapping as [|[u l] rest IH]; intros H; [reflexivity|].
  cbn [fold_left].
  assert (Fetcher.replace_url_step urlparse (Some content) (u, l)
          = Some content) as ->.
  { destruct (H u l (or_introl eq_refl)) as (Hu & parsed & Hp & Hr).
    unfold Fetcher.replace_url_step. cbn [mbind option_bind].
    rewrite (replace_absent u l) by exact Hu. rewrite Hp. cbn [mbind option_bind].
    destruct (Fetcher.relative_url parsed) as [r|]; [|reflexivity].
    rewrite replace_absent; [reflexivity | apply Hr; reflexivity]. }
  apply IH. intros u' l' Hin. apply (H u' l'). right. exact Hin.
Qed.

Lemma replace_image_urls_untouched_witness :
  Fetcher.replace_image_urls (fun _ => Some (L "/a.png", []))
    (L "no image here") [(L "https://h/a.png", L "images/1.png")]
  = Some (L "no image here").
Proof.
  apply (replace_image_urls_untouched (fun _ => Some (L "/a.png", []))).
  intros u l [[= <- <-]|[]]. split; [reflexivity|].
  exists (L "/a.png", []). split; [reflexivity|].
  intros r [= <-]. reflexivity.
Defined.

(** X4. An image whose download failed is mapped to its own address;
    the iteration for it then replaces the occurrences of the address's
    path by the whole address, also inside the address itself, so a text
    that mentions the address grows. *)
Theorem replace_image_urls_failed_download
    (urlparse : str -> option (str * str))
    (content : str) (url_mapping : list (str * str)) (u path before : str) :
  Fetcher.replace_image_urls urlparse content url_mapping = Some before ->
  urlparse u = Some (path, []) ->
  startswith path (L "/") = true ->
  contains path u = true ->
  (length path < length u)%nat ->
  contains u before = true ->
  Fetcher.replace_image_urls urlparse content (url_mapping ++ [(u, u)])
  = Some (replace path u before) /\
  (length before < length (replace path u before))%nat.
Proof.
  intros Hbefore Hparse Hslash Hsub Hlen Hocc.
  split.
  - rewrite replace_image_urls_app, Hbefore. cbn [fold_left].
    rewrite (replace_url_step_self urlparse before u _ Hparse).
    unfold Fetcher.relative_url. rewrite Hslash.
    destruct path as [|c p]; [discriminate|]. reflexivity.
  - destruct path as [|c p]; [discriminate|].
    unfold replace.
    pose proof (replace_go_longer (c :: p) u ltac:(cbn [length] in *; lia)
                  before 0%nat) as Hgo.
    cbn [drop] in Hgo. rewrite Nat.sub_0_r in Hgo. apply Hgo.
    exact (contains_trans _ _ _ Hsub Hocc).
Qed.

Lemma replace_image_urls_failed_download_witness :
  Fetcher.replace_image_urls (fun _ => Some (L "/a.png", []))
    (L "![](https://h/a.png)") ([] ++ [(L "https://h/a.png", L "https://h/a.png")])
  = Some (replace (L "/a.png") (L "https://h/a.png") (L "![](https://h/a.png)")) /\
  (length (L "![](https://h/a.png)") <
   length (replace (L "/a.png") (L "https://h/a.png") (L "![](https://h/a.png)")))%nat.
Proof.
  apply (replace_image_urls_failed_download (fun _ => Some (L "/a.png", []))
           (L "![](https://h/a.png)") [] (L "https://h/a.png") (L "/a.png")
           (L "![](https://h/a.png)"));
    first [reflexivity | vm_compute; lia].
Defined.

(** X20. The replacement raises exactly when an address of the mapping
    cannot be parsed, wherever it stands in the mapping and whatever the
    text holds. *)
Theorem replace_image_urls_raises_iff (urlparse : str -> option (str * str))
    (content : str) (url_mapping : list (str * str)) :
  Fetcher.replace_image_urls urlparse content url_mapping = None <->
  exists u l, In (u, l) url_mapping /\ urlparse u = None.
Proof.
  unfold Fetcher.replace_image_urls. revert content.
  induction url_mapping as [|[u l] rest IH]; intros content; cbn [fold_left].
  - split; [discriminate | intros (u & l & [] & _)].
  - unfold Fetcher.replace_url_step at 2. cbn [mbind option_bind].
    destruct (urlparse u) as [parsed|] eqn:Hp; cbn [mbind option_bind].
    + rewrite IH. split.
      * intros (u' & l' & Hin & Hu'). exists u', l'. split; [right|]; assumption.
      * intros (u' & l' & [[= <- <-]|Hin] & Hu'); [congruence|].
        exists u', l'. split; assumption.
    + rewrite replace_url_step_raised. split; [|reflexivity].
      intros _. exists u, l. split; [left; reflexivity | exact Hp].
Qed.

(** ** Image discovery without a base URL *)

Lemma extract_image_urls_candidates scheme netloc urljoin html base_url u :
  u ∈ Fetcher._extract_image_urls scheme netloc urljoin html base_url ->
  exists mt, image_candidate scheme netloc urljoin base_url mt = Some u.
Proof.
  assert (Fetcher._extract_image_urls scheme netloc urljoin html base_url
          = fold_left (add_first_seen (image_candidate scheme netloc urljoin base_url))
              (Re.finditer Fetcher.r_img_src_attr html) []) as ->.
  { unfold Fetcher._extract_image_urls. apply fold_left_ext_eq.
    intros urls mt. apply image_url_step_candidate. }
  intros Hu.
  apply (first_seen_result (image_candidate scheme netloc urljoin base_url)) in Hu.
  apply list_elem_of_omap in Hu as [mt [_ Hmt]]. exists mt. exact Hmt.
Qed.

(** X5. Without a base URL (none given, or an empty one) image discovery
    returns absolute addresses only: each begins with [http], and
    root-relative addresses are left out. *)
Theorem extract_image_urls_without_base
    (scheme netloc : str -> str) (urljoin : str -> str -> str)
    (html : str) (base_url : option str) :
  Fetcher.truthy_opt base_url = false ->
  Forall (fun u => startswith u (L "http") = true)
    (Fetcher._extract_image_urls scheme netloc urljoin html base_url).
Proof.
  intros Hbase. apply Forall_forall. intros u Hu.
  apply extract_image_urls_candidates in Hu as [mt Hmt].
  unfold image_candidate in Hmt.
  destruct (startswith (Re.group 1 mt) (L "data:")); [discriminate|].
  unfold Fetcher.resolve_url in Hmt. rewrite Hbase, andb_false_r in Hmt.
  destruct (startswith _ (L "//")).
  { injection Hmt as <-. reflexivity. }
  destruct (startswith _ (L "/")); [discriminate|].
  destruct (startswith _ (L "http")) eqn:Hhttp; [|discriminate].
  injection Hmt as <-. exact Hhttp.
Qed.

Lemma extract_image_urls_without_base_witness :
  Forall (fun u => startswith u (L "http") = true)
    (Fetcher._extract_image_urls (fun _ => []) (fun _ => []) (fun _ u => u)
       (L "<img src='/a.png'><img src='//h/b.png'><img src='http://h/c.png'>")
       None).
Proof.
  apply (extract_image_urls_without_base (fun _ => []) (fun _ => [])
           (fun _ u => u)). reflexivity.
Defined.

(** ** The filename sanitizer, applied twice *)

Lemma squeeze_no_run (p : char -> bool) (w s : str) (in_run : bool) :
  Forall (fun c => p c = false) s -> squeeze p w in_run s = s.
Proof.
  revert in_run. induction s as [|c t IH]; intros in_run H; [reflexivity|].
  apply Forall_cons in H as [Hc Ht]. cbn [squeeze]. rewrite Hc, IH by exact Ht.
  reflexivity.
Qed.

Lemma filter_all {A} (p : A -> bool) (l : list A) :
  Forall (fun c => p c = true) l -> List.filter p l = l.
Proof.
  induction l as [|c t IH]; intros H; [reflexivity|].
  apply Forall_cons in H as [Hc Ht]. cbn [List.filter]. rewrite Hc, IH by exact Ht.
  reflexivity.
Qed.

Lemma sanitize_filename_clean (title : str) :
  Forall (fun c => Re.one_of Fetcher.forbidden_chars c = false /\ isspace c = false)
    (Fetcher._sanitize_filename title) /\
  (0 < length (Fetcher._sanitize_filename title) <= 100)%nat.
Proof.
  rewrite sanitize_filename_eq. cbv zeta.
  set (filtered := List.filter _ title).
  set (kept := take 100 (squeeze isspace (L "_") false filtered)).
  assert (Forall (fun c => Re.one_of Fetcher.forbidden_chars c = false /\
                           isspace c = false) kept) as Hkept.
  { apply Forall_take. apply squeeze_Forall.
    - repeat constructor.
    - apply List.Forall_forall. intros c Hc Hsp.
      apply List.filter_In in Hc as [_ Hc]. apply negb_true_iff in Hc.
      split; assumption. }
  assert (length kept <= 100)%nat as Hlen.
  { subst kept. rewrite length_take. lia. }
  destruct kept as [|c k].
  - split; [repeat constructor | cbn; lia].
  - split; [exact Hkept | cbn [truthy length] in *; lia].
Qed.

(** X6. The sanitizer is idempotent: a sanitized name is left as it is. *)
Theorem sanitize_filename_idempotent (title : str) :
  Fetcher._sanitize_filename (Fetcher._sanitize_filename title)
  = Fetcher._sanitize_filename title.
Proof.
  destruct (sanitize_filename_clean title) as [Hclean Hlen].
  set (name := Fetcher._sanitize_filename title) in *.
  rewrite (sanitize_filename_eq name). cbv zeta.
  rewrite filter_all.
  2:{ eapply Forall_impl; [exact Hclean|]. intros c [-> _]. reflexivity. }
  rewrite squeeze_no_run.
  2:{ eapply Forall_impl; [exact Hclean|]. intros c [_ H]. exact H. }
  rewrite take_ge by lia.
  destruct name; [cbn in Hlen; lia | reflexivity].
Qed.

(** ** Image extensions *)

Lemma dict_get_In (k v : str) (d : list (str * str)) :
  Downloader.dict_get k d = Some v -> In (k, v) d.
Proof.
  induction d as [|[k' v'] d IH]; [discriminate|]. cbn [Downloader.dict_get].
  unfold Downloader.eqb_str. destruct (bool_decide_reflect (k = k')) as [->|_].
  - intros [= ->]. left. reflexivity.
  - intros H. right. apply IH, H.
Qed.

(** The inverse of the matcher on the constructs of the extension
    pattern. *)
Lemma m_alt_inv {A} r1 r2 bol s g (k : bool -> str -> Re.caps -> option A) x :
  Re.m (Re.Alt r1 r2) bol s g k = Some x ->
  Re.m r1 bol s g k = Some x \/ Re.m r2 bol s g k = Some x.
Proof.
  cbn [Re.m]. destruct (Re.m r1 bol s g k); [left | right]; assumption.
Qed.

Lemma m_ilit_inv {A} w bol s g (k : bool -> str -> Re.caps -> option A) x :
  Re.m (Re.ILit w) bol s g k = Some x ->
  Re.istartswith s w = true /\
  k (Re.bol_after w bol) (drop (length w) s) g = Some x.
Proof.
  cbn [Re.m]. destruct (Re.istartswith s w); [auto | discriminate].
Qed.

Lemma m_lit_inv {A} w bol s g (k : bool -> str -> Re.caps -> option A) x :
  Re.m (Re.Lit w) bol s g k = Some x ->
  startswith s w = true /\
  k (Re.bol_after w bol) (drop (length w) s) g = Some x.
Proof.
  cbn [Re.m]. destruct (startswith s w); [auto | discriminate].
Qed.

Lemma istartswith_take (s w : str) :
  Re.istartswith s w = true ->
  Forall2 (fun a c => Re.ieq a c = true) w (take (length w) s) /\
  (length w <= length s)%nat.
Proof.
  revert s. induction w as [|a w IH]; intros s H.
  - split; [constructor | cbn; lia].
  - destruct s as [|c t]; [discriminate|]. cbn [Re.istartswith] in H.
    apply andb_true_iff in H as [Hac Ht]. destruct (IH t Ht) as [IH1 IH2].
    split; [constructor; assumption | cbn [length]; lia].
Qed.

Lemma search_from_match (r : Re.re) (s : str) (bol : bool) (mt : Re.mobj) :
  Re.search_from r bol s = Some mt ->
  exists bol' s', Re.match_here r bol' s' = Some mt.
Proof.
  revert bol. induction s as [|c t IH]; intros bol; cbn [Re.search_from].
  - destruct (Re.match_here r bol []) eqn:H; [|discriminate].
    intros [= <-]. eauto.
  - destruct (Re.match_here r bol (c :: t)) eqn:H.
    + intros [= <-]. eauto.
    + apply IH.
Qed.

(** The characters [re.I] equates with a lower-case letter of the
    pattern are lowered into characters other than the dot and the
    slash. *)
Lemma lower_char_of_ieq (a c : char) :
  Re.is_lower a = true -> Re.ieq a c = true ->
  Downloader.lower_char c <> [] /\
  Forall (fun x => x <> 47) (Downloader.lower_char c).
Proof.
  unfold Re.is_lower, Re.ieq, Re.ascii_lower, Downloader.lower_char, Re.is_upper.
  cbv zeta. intros Ha H.
  apply andb_true_iff in Ha as [Ha1 Ha2].
  apply N.leb_le in Ha1, Ha2.
  destruct (N.leb_spec 65 a); destruct (N.leb_spec a 90); cbn [andb] in H; try lia.
  all: destruct (N.leb_spec 65 c); destruct (N.leb_spec c 90); cbn [andb] in H |- *.
  all: destruct (N.eqb_spec c 304).
  all: split; [discriminate|].
  all: repeat constructor; try lia.
  all: repeat (apply orb_true_iff in H as [H|H]);
       repeat match goal with
       | H : (_ && _)%bool = true |- _ => apply andb_true_iff in H as [? ?]
       | H : (_ || _)%bool = true |- _ => apply orb_true_iff in H as [?|?]
       | H : (_ =? _) = true |- _ => apply N.eqb_eq in H
       end; lia.
Qed.

Lemma lower_of_ieq (w g : str) :
  Forall (fun a => Re.is_lower a = true) w -> w <> [] ->
  Forall2 (fun a c => Re.ieq a c = true) w g ->
  Downloader.lower g <> [] /\ Forall (fun x => x <> 47) (Downloader.lower g).
Proof.
  intros Hw Hne HF. split.
  - destruct HF as [|a c w' g' Hac _]; [congruence|].
    apply Forall_cons in Hw as [Ha _].
    destruct (lower_char_of_ieq a c Ha Hac) as [Hnil _].
    unfold Downloader.lower. cbn [List.map List.concat].
    destruct (Downloader.lower_char c); [congruence | discriminate].
  - clear Hne. induction HF as [|a c w' g' Hac _ IH]; [constructor|].
    apply Forall_cons in Hw as [Ha Hw].
    unfold Downloader.lower. cbn [List.map List.concat].
    apply Forall_app. split; [apply (lower_char_of_ieq a c Ha Hac) | apply IH, Hw].
Qed.

Lemma m_seq_eq {A} r1 r2 bol s g (k : bool -> str -> Re.caps -> option A) :
  Re.m (Re.Seq r1 r2) bol s g k
  = Re.m r1 bol s g (fun b s' g' => Re.m r2 b s' g' k).
Proof. reflexivity. Qed.

Lemma m_grp_eq {A} i r bol s g (k : bool -> str -> Re.caps -> option A) :
  Re.m (Re.Grp i r) bol s g k
  = Re.m r bol s g
      (fun b s' g' => k b s' ((i, take (length s - length s') s) :: g')).
Proof. reflexivity. Qed.

(** The end of the extension pattern adds the second group only. *)
Lemma ext_tail (s0 : str) bol s g mt :
  Re.m (Re.Grp 2 (Re.Alt (Re.Lit (L "?")) Re.Eos)) bol s g
    (fun _ s' g' => Some (Re.MObj (take (length s0 - length s') s0) g'))
  = Some mt ->
  Re.group 1 mt = default [] (Re.lookup_cap 1 g).
Proof.
  rewrite m_grp_eq. intros H. apply m_alt_inv in H as [H|H].
  - apply m_lit_inv in H as [_ H]. injection H as <-. reflexivity.
  - cbn [Re.m] in H. destruct s as [|c [|c' t]].
    + injection H as <-. reflexivity.
    + destruct (c =? nl); [|discriminate]. injection H as <-. reflexivity.
    + discriminate.
Qed.

(** The first group of a match of the extension pattern, lowered, is
    never empty and holds no slash. *)
Lemma ext_match_group (bol : bool) (s : str) (mt : Re.mobj) :
  Re.match_here Downloader.r_ext bol s = Some mt ->
  Downloader.lower (Re.group 1 mt) <> [] /\
  Forall (fun x => x <> 47) (Downloader.lower (Re.group 1 mt)).
Proof.
  unfold Re.match_here, Downloader.r_ext. intros H.
  rewrite m_seq_eq in H. apply m_lit_inv in H as [_ H].
  set (s1 := drop (length (L ".")) s) in H.
  rewrite m_seq_eq, m_grp_eq in H.
  assert (forall w k,
            Forall (fun a => Re.is_lower a = true) w -> w <> [] ->
            Re.m (Re.ILit w) (Re.bol_after (L ".") bol) s1 [] k = Some mt ->
            (forall b s' g', k b s' g' = Some mt ->
               Re.group 1 mt = take (length s1 - length s') s1) ->
            Downloader.lower (Re.group 1 mt) <> [] /\
            Forall (fun x => x <> 47) (Downloader.lower (Re.group 1 mt))) as Hone.
  { intros w k Hw Hne Hm Hk. apply m_ilit_inv in Hm as [Hi Hm].
    apply istartswith_take in Hi as [HF Hlen].
    rewrite (Hk _ _ _ Hm), length_drop.
    replace (length s1 - (length s1 - length w))%nat with (length w) by lia.
    apply (lower_of_ieq w); assumption. }
  assert (forall b s' g',
            Re.m (Re.Grp 2 (Re.Alt (Re.Lit (L "?")) Re.Eos)) b s'
              ((1%nat, take (length s1 - length s') s1) :: g')
              (fun _ s'' g'' =>
                 Some (Re.MObj (take (length s - length s'') s) g'')) = Some mt ->
            Re.group 1 mt = take (length s1 - length s') s1) as Htail.
  { intros b s' g' Hm. apply ext_tail in Hm. exact Hm. }
  repeat (apply m_alt_inv in H as [H|H]);
    (eapply Hone; [| |exact H|exact Htail]; [repeat constructor|discriminate]).
Qed.

(** The extension chosen for an image begins with a dot, is longer than
    the dot alone and holds no slash. *)
Lemma get_image_extension_shape (url content_type : str) :
  startswith (Downloader.get_image_extension url content_type) (L ".") = true /\
  Downloader.get_image_extension url content_type <> L "." /\
  Forall (fun c => c <> 47) (Downloader.get_image_extension url content_type).
Proof.
  unfold Downloader.get_image_extension.
  destruct (if truthy content_type then _ else None) as [ext|] eqn:Hget.
  - destruct (truthy content_type); [|discriminate].
    apply dict_get_In in Hget.
    assert (Forall (fun kv : str * str =>
                      startswith (snd kv) (L ".") = true /\
                      snd kv <> L "." /\ Forall (fun c => c <> 47) (snd kv))
              Downloader.type_map) as Hall.
    { repeat (constructor;
              [split; [reflexivity|]; split; [discriminate|];
               repeat constructor; discriminate|]).
      constructor. }
    rewrite List.Forall_forall in Hall. exact (Hall _ Hget).
  - destruct (Re.search Downloader.r_ext url) as [mt|] eqn:Hs.
    + apply search_from_match in Hs as (bol & s' & Hm).
      apply ext_match_group in Hm as [Hne Hsl].
      split; [reflexivity|]. split.
      * change (L ".") with [46]. cbn [app]. intros [= Heq]. exact (Hne Heq).
      * constructor; [discriminate | exact Hsl].
    + split; [reflexivity|]. split; [discriminate|].
      repeat constructor; discriminate.
Qed.

(** Renaming a non-empty file name with the extension never fails. *)
Lemma with_suffix_extension (url content_type : str) (c : char) (name : str) :
  Downloader.with_suffix (c :: name)
    (Downloader.get_image_extension url content_type)
  = Some (take (length (c :: name) - length (Downloader.suffix (c :: name)))
            (c :: name) ++ Downloader.get_image_extension url content_type).
Proof.
  destruct (get_image_extension_shape url content_type) as (Hdot & Hne & Hsl).
  unfold Downloader.with_suffix.
  change (L "/") with [47].
  rewrite (contains_head_absent 47 [] _ Hsl), Hdot.
  unfold Downloader.eqb_str.
  rewrite bool_decide_eq_false_2 by exact Hne.
  cbn [negb andb orb truthy]. rewrite andb_false_r. reflexivity.
Qed.

(** X7. Whatever the address and the content type, the extension chosen
    for an image begins with a dot, is longer than the dot alone and
    holds no slash; renaming a non-empty file name with it therefore
    never fails, and yields the name without its old suffix followed by
    the extension. *)
Theorem get_image_extension_valid (url content_type : str) :
  let ext := Downloader.get_image_extension url content_type in
  startswith ext (L ".") = true /\
  ext <> L "." /\
  Forall (fun c => c <> 47) ext /\
  forall (c : char) (name : str),
    Downloader.with_suffix (c :: name) ext
    = Some (take (length (c :: name) - length (Downloader.suffix (c :: name)))
              (c :: name) ++ ext).
Proof.
  cbv zeta.
  destruct (get_image_extension_shape url content_type) as (Hdot & Hne & Hsl).
  split; [exact Hdot|]. split; [exact Hne|]. split; [exact Hsl|].
  intros c name. apply with_suffix_extension.
Qed.

(** X8. A download fails only when the request fails or the file cannot
    be written: choosing the extension and renaming never do. *)
Theorem download_image_fails_only_on_io
    (urlopen : str -> list (str * str) -> option (str * list N))
    (write_ok : str -> str -> bool) (referer url dir name : str) :
  name <> [] ->
  fst (Downloader.download_image urlopen write_ok referer url dir name) = None <->
  urlopen url (Downloader.request_headers referer url) = None \/
  exists content_type data,
    urlopen url (Downloader.request_headers referer url)
      = Some (content_type, data) /\
    write_ok dir
      (if bool_decide (Downloader.lower (Downloader.suffix name)
                         ∈ Downloader.image_suffixes)
       then name
       else take (length name - length (Downloader.suffix name)) name ++
            Downloader.get_image_extension url content_type) = false.
Proof.
  intros Hname. destruct name as [|c name]; [congruence|].
  unfold Downloader.download_image.
  destruct (urlopen url _) as [[ct data]|]; [|split; [left|]; reflexivity].
  rewrite with_suffix_extension.
  destruct (bool_decide _); cbn [negb].
  - destruct (write_ok _ _) eqn:Hw; cbn [fst]; split.
    + discriminate.
    + intros [H|(ct' & data' & [= <- <-] & H)]; congruence.
    + intros _. right. exists ct, data. auto.
    + reflexivity.
  - destruct (write_ok _ _) eqn:Hw; cbn [fst]; split.
    + discriminate.
    + intros [H|(ct' & data' & [= <- <-] & H)]; congruence.
    + intros _. right. exists ct, data. auto.
    + reflexivity.
Qed.

Lemma download_image_fails_only_on_io_witness :
  fst (Downloader.download_image (fun _ _ => Some (L "text/html", [60]))
         (fun _ n => negb (bool_decide (n = L "x.jpg")))
         (L "https://h/") (L "https://h/a.JPG?w=1") (L "images") (L "x")) = None.
Proof.
  apply (download_image_fails_only_on_io (fun _ _ => Some (L "text/html", [60]))
           (fun _ n => negb (bool_decide (n = L "x.jpg")))
           (L "https://h/") (L "https://h/a.JPG?w=1") (L "images") (L "x")).
  - discriminate.
  - right. exists (L "text/html"), [60]. split; reflexivity.
Defined.

(** ** Text without markup *)

Lemma starts_at_lit a w : starts_at a (Re.Lit (a :: w)).
Proof.
  intros A bol s g k Hs. cbn [Re.m].
  destruct s as [|c t]; [reflexivity|]. cbn [startswith].
  destruct (N.eqb_spec a c); [congruence | reflexivity].
Qed.

Lemma ieq_lt (c : char) : Re.ieq 60 c = true -> c = 60.
Proof.
  unfold Re.ieq, Re.ascii_lower, Re.is_upper. cbn. intros Hc.
  destruct (N.leb_spec 65 c); destruct (N.leb_spec c 90); cbn [andb] in Hc;
    rewrite !orb_false_r in Hc; apply N.eqb_eq in Hc; lia.
Qed.

Lemma starts_at_ilit w : starts_at 60 (Re.ILit (60 :: w)).
Proof.
  intros A bol s g k Hs. cbn [Re.m].
  destruct s as [|c t]; [reflexivity|]. cbn [Re.istartswith].
  destruct (Re.ieq 60 c) eqn:H; [|reflexivity].
  apply ieq_lt in H. congruence.
Qed.

Lemma starts_at_seq a r1 r2 : starts_at a r1 -> starts_at a (Re.Seq r1 r2).
Proof. intros H A bol s g k Hs. cbn [Re.m]. apply H, Hs. Qed.

(** Substitution leaves a text alone in which the first character of
    the pattern does not occur. *)
Lemma sub_go_starts_at a r repl :
  starts_at a r ->
  forall s bol, Forall (fun c => c <> a) s -> Re.sub_go r repl 0 bol s = s.
Proof.
  intros Hr. induction s as [|c t IH]; intros bol Hs.
  - cbn [Re.sub_go]. unfold Re.match_here. rewrite Hr by exact I. reflexivity.
  - apply Forall_cons in Hs as [Hc Ht]. cbn [Re.sub_go]. unfold Re.match_here.
    rewrite Hr by exact Hc. rewrite IH by exact Ht. reflexivity.
Qed.

Lemma sub_starts_at a r t s :
  starts_at a r -> Forall (fun c => c <> a) s -> Re.sub r t s = s.
Proof. intros Hr Hs. apply (sub_go_starts_at a r _ Hr s true Hs). Qed.

Lemma sub_fn_starts_at a r repl s :
  starts_at a r -> Forall (fun c => c <> a) s -> Re.sub_fn r repl s = s.
Proof. intros Hr Hs. apply (sub_go_starts_at a r _ Hr s true Hs). Qed.

Ltac plain_pattern :=
  unfold Fetcher.r_comment, Fetcher.r_img_tag, FetchArticle.r_img,
    Fetcher.element, Fetcher.tag_open, Fetcher.r_br, Fetcher.r_hr,
    Fetcher.r_paired, Fetcher.r_link, Fetcher.r_table, Fetcher.r_pre_code,
    Fetcher.r_any_tag;
  repeat apply starts_at_seq;
  first [ exact (starts_at_lit 60 _) | exact (starts_at_ilit _) ].

(** X9. A text without the characters [<] and [&], the no-break space
    and the zero-width characters has no markup to convert: both
    converters only tidy it up. *)
Theorem plain_text_only_cleaned (text : str) :
  Forall (fun c => c <> 60 /\ c <> 38 /\ c <> 160 /\ c <> 8203 /\ c <> 65279) text ->
  Fetcher._html_to_markdown text = Fetcher.final_cleanup text /\
  FetchArticle.html_to_markdown text = FetchArticle.clean_markdown text.
Proof.
  intros H.
  assert (Forall (fun c => c <> 60) text) as Hlt
    by (eapply Forall_impl; [exact H|]; cbv beta; tauto).
  assert (Forall (fun c => c <> 38) text) as Hamp
    by (eapply Forall_impl; [exact H|]; cbv beta; tauto).
  assert (Forall (fun c => c <> 160) text) as Hnbsp
    by (eapply Forall_impl; [exact H|]; cbv beta; tauto).
  assert (Forall (fun c => c <> 8203) text) as Hzw
    by (eapply Forall_impl; [exact H|]; cbv beta; tauto).
  assert (Forall (fun c => c <> 65279) text) as Hbom
    by (eapply Forall_impl; [exact H|]; cbv beta; tauto).
  assert (forall r t, starts_at 60 r -> Re.sub r t text = text) as Hsub
    by (intros; apply (sub_starts_at 60); assumption).
  assert (forall r f, starts_at 60 r -> Re.sub_fn r f text = text) as Hfn
    by (intros; apply (sub_fn_starts_at 60); assumption).
  assert (forall w new, replace (38 :: w) new text = text) as Hent
    by (intros; apply replace_absent, contains_head_absent, Hamp).
  split.
  - unfold Fetcher._html_to_markdown, Fetcher.heading. cbv zeta. cbn [fold_left].
    repeat first [ rewrite Hsub by plain_pattern | rewrite Hfn by plain_pattern ].
    f_equal. unfold Fetcher.decode_entities. cbv zeta.
    change (L "&nbsp;") with (38 :: L "nbsp;").
    change (L "&amp;") with (38 :: L "amp;").
    change (L "&lt;") with (38 :: L "lt;").
    change (L "&gt;") with (38 :: L "gt;").
    change (L "&quot;") with (38 :: L "quot;").
    change (L "&#39;") with (38 :: L "#39;").
    change (L "&apos;") with (38 :: L "apos;").
    rewrite !Hent.
    rewrite (replace_absent [160]) by (apply contains_head_absent, Hnbsp).
    rewrite (replace_absent [8203]) by (apply contains_head_absent, Hzw).
    apply replace_absent, contains_head_absent, Hbom.
  - unfold FetchArticle.html_to_markdown, Fetcher.heading. cbv zeta.
    cbn [fold_left].
    repeat first [ rewrite Hsub by plain_pattern | rewrite Hfn by plain_pattern ].
    f_equal. unfold FetchArticle.decode_entities. cbv zeta.
    change (L "&nbsp;") with (38 :: L "nbsp;").
    change (L "&amp;") with (38 :: L "amp;").
    change (L "&lt;") with (38 :: L "lt;").
    change (L "&gt;") with (38 :: L "gt;").
    change (L "&quot;") with (38 :: L "quot;").
    change (L "&#39;") with (38 :: L "#39;").
    change (L "&apos;") with (38 :: L "apos;").
    rewrite !Hent.
    rewrite (replace_absent [160]) by (apply contains_head_absent, Hnbsp).
    apply replace_absent, contains_head_absent, Hzw.
Qed.

Lemma plain_text_only_cleaned_witness :
  Fetcher._html_to_markdown (L " two  words ") = Fetcher.final_cleanup (L " two  words ") /\
  FetchArticle.html_to_markdown (L " two  words ")
  = FetchArticle.clean_markdown (L " two  words ").
Proof.
  apply (plain_text_only_cleaned (L " two  words ")).
  repeat constructor; discriminate.
Defined.

(** ** The blank-line collapse *)

(** A greedy repetition with a lower bound, followed by a continuation
    that always succeeds, takes the longest run or fails. *)
Lemma rep_greedy_total_lo {A} (p : char -> bool) (k : bool -> str -> option A) :
  (forall b s, is_Some (k b s)) ->
  forall s lo bol,
    Re.rep_greedy p lo bol s k =
    if (lo <=? run_len p s)%nat
    then k (Re.bol_after (take (run_len p s) s) bol) (drop (run_len p s) s)
    else None.
Proof.
  intros Hk. induction s as [|c t IH]; intros lo bol; cbn [Re.rep_greedy run_len].
  - destruct lo; reflexivity.
  - destruct (p c); [|destruct lo; reflexivity].
    rewrite IH. destruct lo as [|lo]; cbn [Nat.pred].
    + cbn [Nat.leb take drop Re.bol_after].
      destruct (Hk (Re.bol_after (take (run_len p t) t) (c =? nl))
                  (drop (run_len p t) t)) as [x ->]. reflexivity.
    + cbn [Nat.leb]. destruct (lo <=? run_len p t)%nat; [|reflexivity].
      cbn [take drop Re.bol_after].
      destruct (Hk (Re.bol_after (take (run_len p t) t) (c =? nl))
                  (drop (run_len p t) t)) as [x ->]. reflexivity.
Qed.

Lemma match_here_rep (p : char -> bool) (lo : nat) (bol : bool) (s : str) :
  Re.match_here (Re.Rep p lo true) bol s =
  if (lo <=? run_len p s)%nat
  then Some (Re.MObj (take (run_len p s) s) [])
  else None.
Proof.
  unfold Re.match_here. cbn [Re.m].
  rewrite rep_greedy_total_lo by (intros; eexists; reflexivity).
  destruct (lo <=? run_len p s)%nat; [|reflexivity].
  rewrite length_drop. pose proof (run_len_le p s).
  replace (length s - (length s - run_len p s))%nat with (run_len p s) by lia.
  reflexivity.
Qed.

Section Collapse.
Variable p : char -> bool.
Variable lo : nat.
Variable repl : Re.mobj -> str.
Variable w : str.
Hypothesis Hlo : (0 < lo)%nat.
Hypothesis Hrepl : forall mt, repl mt = w.

Local Abbreviation collapse := (Re.sub_go (Re.Rep p lo true) repl).

Lemma collapse_bol skip b1 b2 s : collapse skip b1 s = collapse skip b2 s.
Proof.
  revert skip b1 b2. induction s as [|c t IH]; intros skip b1 b2.
  - destruct skip; cbn [Re.sub_go]; rewrite ?match_here_rep; reflexivity.
  - destruct skip; cbn [Re.sub_go]; rewrite ?match_here_rep; reflexivity.
Qed.

Lemma collapse_nil skip bol : collapse skip bol [] = [].
Proof.
  destruct skip; cbn [Re.sub_go]; [|reflexivity].
  rewrite match_here_rep. cbn [run_len].
  destruct lo; [lia | reflexivity].
Qed.

Lemma collapse_skip s skip bol : collapse skip bol s = collapse 0 bol (drop skip s).
Proof.
  revert skip bol. induction s as [|c t IH]; intros skip bol.
  - rewrite drop_nil, !collapse_nil. reflexivity.
  - destruct skip as [|n]; [reflexivity|]. cbn [Re.sub_go drop].
    rewrite IH. apply collapse_bol.
Qed.

(** One step of the collapse: a run that is long enough is replaced as
    a whole, any other character is copied. *)
Lemma collapse_cons c t bol :
  collapse 0 bol (c :: t) =
  if (lo <=? run_len p (c :: t))%nat
  then w ++ collapse 0 bol (drop (run_len p (c :: t)) (c :: t))
  else c :: collapse 0 bol t.
Proof.
  cbn [Re.sub_go]. rewrite match_here_rep.
  destruct (lo <=? run_len p (c :: t))%nat eqn:Hle.
  - apply Nat.leb_le in Hle. cbn [Re.m_text]. rewrite Hrepl.
    rewrite length_take, Nat.min_l by apply run_len_le.
    destruct (run_len p (c :: t)) as [|n] eqn:Hn; [lia|].
    cbn [drop]. rewrite collapse_skip. f_equal. apply collapse_bol.
  - f_equal. apply collapse_bol.
Qed.
End Collapse.

Lemma run_len_drop (p : char -> bool) (s : str) :
  run_len p (drop (run_len p s) s) = 0%nat.
Proof.
  induction s as [|c t IH]; [reflexivity|]. cbn [run_len].
  destruct (p c) eqn:Hc; cbn [drop run_len]; [exact IH | rewrite Hc; reflexivity].
Qed.

Lemma no_trailing_drop (n : nat) (s : str) :
  no_trailing s = true -> no_trailing (drop n s) = true.
Proof.
  revert s. induction n as [|n IH]; intros s H; [exact H|].
  destruct s as [|c t]; [reflexivity|]. cbn [drop].
  apply IH, (no_trailing_tail c t H).
Qed.

(** What the collapse of [\n{3,}] into two newlines achieves: no run of
    more than two newlines is left, and no line gains trailing
    whitespace. *)
Lemma collapse_blank_lines (repl : Re.mobj -> str) :
  (forall mt, repl mt = [nl; nl]) ->
  forall (n : nat) (s : str) (bol : bool),
    (length s <= n)%nat ->
    let out := Re.sub_go Fetcher.r_blank_lines repl 0 bol s in
    (max_run (Re.is_chr nl) out <= 2)%nat /\
    run_len (Re.is_chr nl) out = Nat.min (run_len (Re.is_chr nl) s) 2 /\
    ends_line out = ends_line s /\
    (no_trailing s = true -> no_trailing out = true).
Proof.
  intros Hrepl. unfold Fetcher.r_blank_lines.
  induction n as [|n IH]; intros s bol Hlen; cbv zeta.
  - destruct s; [|cbn in Hlen; lia].
    rewrite (collapse_nil _ 3) by lia. cbn. repeat split; lia.
  - destruct s as [|c t].
    { rewrite (collapse_nil _ 3) by lia. cbn. repeat split; lia. }
    rewrite (collapse_cons _ 3 repl [nl; nl] ltac:(lia) Hrepl).
    destruct (3 <=? run_len (Re.is_chr nl) (c :: t))%nat eqn:Hle.
    + apply Nat.leb_le in Hle.
      set (rest := drop (run_len (Re.is_chr nl) (c :: t)) (c :: t)).
      assert (length rest <= n)%nat as Hrest.
      { subst rest. rewrite length_drop. cbn [length] in *. lia. }
      destruct (IH rest bol Hrest) as (Hmax & Hrun & Hend & Hnt).
      assert (run_len (Re.is_chr nl) rest = 0%nat) as H0 by apply run_len_drop.
      rewrite H0 in Hrun. cbn [Nat.min] in Hrun.
      assert (c = nl) as ->.
      { cbn [run_len] in Hle. unfold Re.is_chr in Hle at 1.
        destruct (N.eqb_spec c nl); [assumption | lia]. }
      assert (forall x, run_len (Re.is_chr nl) (nl :: x)
                        = S (run_len (Re.is_chr nl) x)) as Hnl by reflexivity.
      change ([nl; nl] ++ ?x) with (nl :: nl :: x).
      cbn [max_run]. rewrite !Hnl, Hrun. rewrite Hnl in Hle.
      split; [lia|]. split; [lia|]. split; [reflexivity|].
      intros Hs. rewrite !no_trailing_cons. cbn [N.eqb nl Pos.eqb negb].
      rewrite !andb_false_r, !andb_false_l. cbn [negb andb].
      apply Hnt. apply no_trailing_drop. exact Hs.
    + apply Nat.leb_gt in Hle.
      destruct (IH t bol ltac:(cbn [length] in Hlen; lia)) as (Hmax & Hrun & Hend & Hnt).
      cbn [max_run run_len] in Hle |- *.
      split; [|split; [|split]].
      * destruct (Re.is_chr nl c); lia.
      * destruct (Re.is_chr nl c); lia.
      * reflexivity.
      * intros Hs. rewrite no_trailing_cons in Hs |- *. rewrite Hend.
        apply andb_true_iff in Hs as [Hs1 Hs2]. rewrite Hs1. apply Hnt, Hs2.
Qed.

Lemma join_split_nl (s : str) : join [nl] (split_nl s) = s.
Proof.
  induction s as [|c t IH]; [reflexivity|]. cbn [split_nl].
  destruct (N.eqb_spec c nl) as [->|Hc].
  - destruct (split_nl_cons t) as (l & ls & Hsplit). rewrite Hsplit in *.
    change (join [nl] ([] :: l :: ls)) with (nl :: join [nl] (l :: ls)).
    rewrite IH. reflexivity.
  - destruct (split_nl_cons t) as (l & ls & Hsplit). rewrite Hsplit in *.
    destruct ls as [|l2 ls]; cbn [join app] in IH |- *; rewrite IH; reflexivity.
Qed.

Lemma map_fixed {A} (f : A -> A) (l : list A) :
  Forall (fun x => f x = x) l -> List.map f l = l.
Proof.
  induction 1 as [|x l Hx _ IH]; [reflexivity|]. cbn [List.map].
  rewrite Hx, IH. reflexivity.
Qed.

Lemma max_run_tail (p : char -> bool) (c : char) (t : str) :
  (max_run p t <= max_run p (c :: t))%nat.
Proof. cbn [max_run]. lia. Qed.

Lemma max_run_lstrip (p : char -> bool) (s : str) :
  (max_run p (lstrip s) <= max_run p s)%nat.
Proof.
  induction s as [|c t IH]; [reflexivity|]. cbn [lstrip].
  destruct (isspace c); [|reflexivity].
  pose proof (max_run_tail p c t). lia.
Qed.

Lemma run_len_rstrip (p : char -> bool) (s : str) :
  (run_len p (rstrip s) <= run_len p s)%nat.
Proof.
  induction s as [|c t IH]; [reflexivity|]. cbn [rstrip].
  destruct (rstrip t) as [|d t'].
  - destruct (isspace c); cbn [run_len]; destruct (p c); lia.
  - cbn [run_len] in *. destruct (p c); lia.
Qed.

Lemma max_run_rstrip (p : char -> bool) (s : str) :
  (max_run p (rstrip s) <= max_run p s)%nat.
Proof.
  induction s as [|c t IH]; [reflexivity|].
  pose proof (run_len_rstrip p (c :: t)) as Hrun.
  cbn [rstrip] in *. destruct (rstrip t) as [|d t'] eqn:Ht.
  - destruct (isspace c).
    + cbn [max_run]. lia.
    + cbn [max_run] in *. lia.
  - change (max_run p (c :: d :: t'))
      with (Nat.max (run_len p (c :: d :: t')) (max_run p (d :: t'))).
    change (max_run p (c :: t)) with (Nat.max (run_len p (c :: t)) (max_run p t)).
    lia.
Qed.

Lemma max_run_contains (p : char -> bool) (n : nat) (a : char) (s : str) :
  p a = true -> (max_run p s <= n)%nat ->
  contains (List.repeat a (S n)) s = false.
Proof.
  intros Ha. induction s as [|c t IH]; intros Hmax; [reflexivity|].
  cbn [contains]. rewrite IH by (pose proof (max_run_tail p c t); lia).
  rewrite orb_false_r.
  destruct (startswith (c :: t) (List.repeat a (S n))) eqn:Hs; [|reflexivity].
  apply startswith_spec in Hs as [post Hs].
  assert (S n <= run_len p (c :: t))%nat as Hrun.
  { rewrite Hs. clear -Ha. induction (S n) as [|k IH]; [lia|].
    cbn [List.repeat app run_len]. rewrite Ha. lia. }
  cbn [max_run] in Hmax. lia.
Qed.

(** X10. When no line of the text ends in whitespace, the final clean-up
    leaves no run of three or more newlines. *)
Theorem final_cleanup_collapses_blank_lines (text : str) :
  no_trailing text = true ->
  (max_run (Re.is_chr nl) (Fetcher.final_cleanup text) <= 2)%nat /\
  contains [nl; nl; nl] (Fetcher.final_cleanup text) = false.
Proof.
  intros Hnt.
  assert (max_run (Re.is_chr nl) (Fetcher.final_cleanup text) <= 2)%nat as Hmax.
  { unfold Fetcher.final_cleanup, Re.sub, Re.sub_fn. cbv zeta.
    set (out := Re.sub_go Fetcher.r_blank_lines _ 0 true text).
    destruct (collapse_blank_lines (Re.expand [Re.TLit [nl; nl]])
                (fun _ => eq_refl) (length text) text true (le_n _))
      as (Hmax & _ & _ & Hout).
    fold out in Hmax, Hout. specialize (Hout Hnt).
    rewrite map_fixed by (apply lines_trimmed_iff, Hout).
    rewrite join_split_nl. unfold strip.
    pose proof (max_run_rstrip (Re.is_chr nl) (lstrip out)).
    pose proof (max_run_lstrip (Re.is_chr nl) out). lia. }
  split; [exact Hmax|].
  apply (max_run_contains (Re.is_chr nl) 2 nl); [reflexivity | exact Hmax].
Qed.

Lemma final_cleanup_collapses_blank_lines_witness :
  (max_run (Re.is_chr nl)
     (Fetcher.final_cleanup (L "a" ++ [nl; nl; nl; nl] ++ L "b")) <= 2)%nat /\
  contains [nl; nl; nl]
    (Fetcher.final_cleanup (L "a" ++ [nl; nl; nl; nl] ++ L "b")) = false.
Proof.
  apply (final_cleanup_collapses_blank_lines (L "a" ++ [nl; nl; nl; nl] ++ L "b")).
  reflexivity.
Defined.

(** ** The header of a saved article *)

Lemma split_nl_app_line (a b : str) :
  Forall (fun c => c <> nl) a -> split_nl (a ++ nl :: b) = a :: split_nl b.
Proof.
  induction 1 as [|c a Hc _ IH]; [reflexivity|].
  cbn [app split_nl]. apply N.eqb_neq in Hc. rewrite Hc, IH. reflexivity.
Qed.

Lemma rstrip_app (a b : str) : rstrip b <> [] -> rstrip (a ++ b) = a ++ rstrip b.
Proof.
  intros Hb. induction a as [|x a IH]; [reflexivity|].
  cbn [app rstrip]. rewrite IH.
  destruct (a ++ rstrip b) eqn:Heq; [|reflexivity].
  apply app_eq_nil in Heq as [_ Heq]. congruence.
Qed.

Lemma rstrip_nonspace (s : str) :
  Exists (fun c => isspace c = false) s -> rstrip s <> [].
Proof.
  induction 1 as [c t Hc|c t _ IH]; cbn [rstrip].
  - destruct (rstrip t); [rewrite Hc|]; discriminate.
  - destruct (rstrip t); [congruence | discriminate].
Qed.

(** Trimming a line keeps a prefix that starts and ends with characters
    other than whitespace. *)
Lemma strip_keeps_prefix (c : char) (p : str) (d : char) (rest : str) :
  isspace c = false -> isspace d = false ->
  exists x, strip (c :: p ++ d :: rest) = c :: p ++ d :: x.
Proof.
  intros Hc Hd. unfold strip. cbn [lstrip]. rewrite Hc.
  assert (exists x, rstrip (d :: rest) = d :: x) as [x Hx].
  { cbn [rstrip]. destruct (rstrip rest); [rewrite Hd|]; eauto. }
  exists x. change (c :: p ++ d :: rest) with ((c :: p) ++ d :: rest).
  rewrite (rstrip_app (c :: p) (d :: rest)) by (rewrite Hx; discriminate).
  rewrite Hx. reflexivity.
Qed.

Lemma strip_header_body (ls acc : list str) :
  fold_left Epub.strip_header_step ls (false, acc) = (false, acc ++ ls).
Proof.
  revert acc. induction ls as [|l ls IH]; intros acc.
  - rewrite app_nil_r. reflexivity.
  - cbn [fold_left Epub.strip_header_step]. rewrite IH, <- app_assoc. reflexivity.
Qed.

(** A metadata line of the header is passed over. *)
Lemma strip_header_meta (label value : str) (acc : list str) :
  In label [Epub.label_author; Epub.label_source; Epub.label_saved] ->
  Epub.strip_header_step (true, acc) (L "> **" ++ label ++ L "**: " ++ value)
  = (true, acc).
Proof.
  intros Hin. unfold Epub.strip_header_step.
  assert (exists x, strip (L "> **" ++ label ++ L "**: " ++ value)
                    = L "> **" ++ label ++ L "**:" ++ x) as [x ->].
  { destruct (strip_keeps_prefix 62 (L " **" ++ label ++ L "**") 58
                (L " " ++ value) eq_refl eq_refl) as [x Hx].
    exists x.
    replace (L "> **" ++ label ++ L "**: " ++ value)
      with (62 :: (L " **" ++ label ++ L "**") ++ 58 :: (L " " ++ value)).
    - rewrite Hx. change (L "> **") with (62 :: L " **").
      change (L "**:") with (L "**" ++ [58]).
      rewrite <- !app_assoc. reflexivity.
    - change (L "> **") with (62 :: L " **").
      change (L "**: ") with (L "**" ++ 58 :: L " ").
      rewrite <- !app_assoc. reflexivity. }
  assert (contains (L "**" ++ label ++ L "**")
            (L "> **" ++ label ++ L "**:" ++ x) = true) as Hc.
  { apply contains_spec. exists (L "> "), (L ":" ++ x).
    change (L "> **") with (L "> " ++ L "**"). change (L "**:") with (L "**" ++ L ":").
    rewrite <- !app_assoc. reflexivity. }
  change (startswith (L "> **" ++ label ++ L "**:" ++ x) (L "# ")) with false.
  change (startswith (L "> **" ++ label ++ L "**:" ++ x) (L ">")) with true.
  cbv iota. cbn [andb].
  cbn [In] in Hin. destruct Hin as [<-|[<-|[<-|[]]]];
    rewrite Hc, ?orb_true_r; reflexivity.
Qed.

(** X11. The header the fetcher writes is the header the converter
    removes: for a title with a character other than whitespace, and a
    title, author, address and date without newline, stripping the
    header of the generated Markdown text gives back the content,
    between two newlines. *)
Theorem strip_header_of_generated_markdown (today url title author content : str) :
  Forall (fun c => c <> nl) title ->
  Forall (fun c => c <> nl) author ->
  Forall (fun c => c <> nl) url ->
  Forall (fun c => c <> nl) today ->
  Exists (fun c => isspace c = false) title ->
  Epub._strip_markdown_header
    (Fetcher._generate_markdown today url title author content)
  = [nl] ++ content ++ [nl].
Proof.
  intros Htitle Hauthor Hurl Htoday Hvis.
  unfold Epub._strip_markdown_header, Fetcher._generate_markdown.
  change (Fetcher.label_author) with Epub.label_author.
  change (Fetcher.label_source) with Epub.label_source.
  change (Fetcher.label_saved) with Epub.label_saved.
  replace (L "# " ++ title ++ [nl; nl] ++
           L "> **" ++ Epub.label_author ++ L "**: " ++ author ++ [nl] ++
           L "> **" ++ Epub.label_source ++ L "**: " ++ url ++ [nl] ++
           L "> **" ++ Epub.label_saved ++ L "**: " ++ today ++ [nl; nl] ++
           L "---" ++ [nl; nl] ++ content ++ [nl])
    with ((L "# " ++ title) ++ nl ::
          [] ++ nl ::
          (L "> **" ++ Epub.label_author ++ L "**: " ++ author) ++ nl ::
          (L "> **" ++ Epub.label_source ++ L "**: " ++ url) ++ nl ::
          (L "> **" ++ Epub.label_saved ++ L "**: " ++ today) ++ nl ::
          [] ++ nl ::
          L "---" ++ nl :: nl :: content ++ [nl])
    by (cbn [app L]; rewrite <- !app_assoc; reflexivity).
  rewrite (split_nl_app_line (L "# " ++ title))
    by (apply Forall_app; split; [repeat constructor; discriminate | exact Htitle]).
  rewrite (split_nl_app_line []) by constructor.
  rewrite (split_nl_app_line (L "> **" ++ Epub.label_author ++ L "**: " ++ author))
    by (rewrite !Forall_app; repeat split;
        [repeat constructor; discriminate .. | exact Hauthor]).
  rewrite (split_nl_app_line (L "> **" ++ Epub.label_source ++ L "**: " ++ url))
    by (rewrite !Forall_app; repeat split;
        [repeat constructor; discriminate .. | exact Hurl]).
  rewrite (split_nl_app_line (L "> **" ++ Epub.label_saved ++ L "**: " ++ today))
    by (rewrite !Forall_app; repeat split;
        [repeat constructor; discriminate .. | exact Htoday]).
  rewrite (split_nl_app_line []) by constructor.
  rewrite (split_nl_app_line (L "---")) by (repeat constructor; discriminate).
  cbn [fold_left].
  assert (Epub.strip_header_step (true, []) (L "# " ++ title) = (true, [])) as ->.
  { unfold Epub.strip_header_step, strip.
    change (lstrip (L "# " ++ title)) with (L "# " ++ title).
    rewrite (rstrip_app (L "# ") title) by (apply rstrip_nonspace, Hvis).
    reflexivity. }
  change (Epub.strip_header_step (true, []) []) with (true, @nil str).
  rewrite !strip_header_meta by (cbn [In]; auto).
  change (Epub.strip_header_step (true, []) []) with (true, @nil str).
  change (Epub.strip_header_step (true, []) (L "---")) with (false, @nil str).
  rewrite strip_header_body. cbn [snd app]. apply join_split_nl.
Qed.

Lemma strip_header_of_generated_markdown_witness :
  Epub._strip_markdown_header
    (Fetcher._generate_markdown (L "2024-01-02") (L "https://h/a") (L "A title")
       (L "me") (L "Body"))
  = [nl] ++ L "Body" ++ [nl].
Proof.
  apply strip_header_of_generated_markdown;
    first [ apply Exists_cons_hd; reflexivity
          | repeat constructor; discriminate ].
Defined.

(** ** The names of the archive entries *)

Lemma L_inj (a b : string) : L a = L b -> a = b.
Proof.
  unfold L. intros H.
  rewrite <- (string_of_list_ascii_of_string a),
          <- (string_of_list_ascii_of_string b).
  f_equal. revert H.
  generalize (list_ascii_of_string a) (list_ascii_of_string b).
  induction l as [|x l IH]; intros [|y l']; cbn [List.map];
    try discriminate; [reflexivity|].
  intros [= Hxy Hl]. f_equal; [|apply IH, Hl].
  rewrite <- (ascii_N_embedding x), <- (ascii_N_embedding y), Hxy. reflexivity.
Qed.

Lemma str_of_nat_inj (i j : nat) : str_of_nat i = str_of_nat j -> i = j.
Proof. unfold str_of_nat. intros H. apply L_inj in H. exact (pretty_nat_inj _ _ H). Qed.

(** Two texts without dot, each followed by nothing or by a text that
    starts with a dot, are equal as soon as the wholes are. *)
Lemma dot_free_prefix_inj (a b s s' : str) :
  Forall (fun c => c <> 46) a -> Forall (fun c => c <> 46) b ->
  dotted s -> dotted s' ->
  a ++ s = b ++ s' -> a = b.
Proof.
  intros Ha. revert b. induction Ha as [|x a Hx _ IH]; intros b Hb Hs Hs' Heq.
  - destruct Hb as [|y b Hy _]; [reflexivity|].
    cbn [app] in Heq. subst s. destruct Hs as [Hs|[t Hs]]; [discriminate|].
    injection Hs as -> _. congruence.
  - destruct Hb as [|y b Hy Hb].
    + cbn [app] in Heq. subst s'. destruct Hs' as [Hs'|[t Hs']]; [discriminate|].
      injection Hs' as -> _. congruence.
    + injection Heq as -> Heq. f_equal. exact (IH b Hb Hs Hs' Heq).
Qed.

Section ArchiveNames.
Variable h : Epub.host.

Lemma resolved_index dir (l : list str) (start : nat) :
  forall r, r ∈ omap (resolve_ref h dir) (enumerate start l) ->
            (start <= fst (fst r))%nat.
Proof.
  revert start. induction l as [|x l IH]; intros start r Hr.
  - apply elem_of_nil in Hr. destruct Hr.
  - cbn [enumerate] in Hr.
    assert (omap (resolve_ref h dir) ((start, x) :: enumerate (S start) l)
            = match resolve_ref h dir (start, x) with
              | Some r => r :: omap (resolve_ref h dir) (enumerate (S start) l)
              | None => omap (resolve_ref h dir) (enumerate (S start) l)
              end) as E by reflexivity.
    rewrite E in Hr. clear E.
    destruct (resolve_ref h dir (start, x)) as [r0|] eqn:Hr0.
    + apply elem_of_cons in Hr as [-> | Hr].
      * unfold resolve_ref in Hr0.
        destruct (Epub.local_path h dir x); [|discriminate].
        destruct (Epub.path_exists h _); [|discriminate].
        injection Hr0 as <-. cbn. lia.
      * apply IH in Hr. lia.
    + apply IH in Hr. lia.
Qed.

Lemma resolved_indices_NoDup dir (l : list str) (start : nat) :
  NoDup (List.map (fun r => fst (fst r))
           (omap (resolve_ref h dir) (enumerate start l))).
Proof.
  revert start. induction l as [|x l IH]; intros start; [constructor|].
  cbn [enumerate].
  assert (omap (resolve_ref h dir) ((start, x) :: enumerate (S start) l)
          = match resolve_ref h dir (start, x) with
            | Some r => r :: omap (resolve_ref h dir) (enumerate (S start) l)
            | None => omap (resolve_ref h dir) (enumerate (S start) l)
            end) as -> by reflexivity.
  destruct (resolve_ref h dir (start, x)) as [r0|] eqn:Hr0; [|apply IH].
  cbn [List.map]. constructor; [|apply IH].
  intros Hin. apply list_elem_of_fmap in Hin as (r & Heq & Hr).
  apply resolved_index in Hr.
  unfold resolve_ref in Hr0.
  destruct (Epub.local_path h dir x); [|discriminate].
  destruct (Epub.path_exists h _); [|discriminate].
  injection Hr0 as <-. cbn [fst] in Heq. lia.
Qed.

(** Entries packaging references of different positions have different
    names. *)
Lemma packages_name_inj r1 r2 e1 e2 :
  dotted (Epub.path_suffix h (snd r1)) -> dotted (Epub.path_suffix h (snd r2)) ->
  packages h r1 e1 -> packages h r2 e2 ->
  Epub.e_name e1 = Epub.e_name e2 -> fst (fst r1) = fst (fst r2).
Proof.
  destruct r1 as [[i1 ref1] p1], r2 as [[i2 ref2] p2]. cbn [fst snd].
  intros Hs1 Hs2 [_ H1] [_ H2] Heq.
  apply str_of_nat_inj.
  assert (dotted (L ".png")) as Hpng by (right; eexists; reflexivity).
  destruct H1 as [H1|H1]; destruct H2 as [H2|H2]; rewrite H1, H2 in Heq;
    apply app_inv_head in Heq;
    (eapply dot_free_prefix_inj; [apply str_of_nat_no_dot | apply str_of_nat_no_dot
                                 | | | exact Heq]); assumption.
Qed.

Lemma packaged_names_NoDup (rs : list (nat * str * str)) (es : list Epub.entry) :
  Forall2 (packages h) rs es ->
  Forall (fun r => dotted (Epub.path_suffix h (snd r))) rs ->
  NoDup (List.map (fun r => fst (fst r)) rs) ->
  NoDup (List.map Epub.e_name es).
Proof.
  induction 1 as [|r e rs es Hp HF IH]; intros Hd Hnd; [constructor|].
  apply Forall_cons in Hd as [Hdr Hd].
  cbn [List.map] in Hnd |- *. apply NoDup_cons in Hnd as [Hnot Hnd].
  constructor; [|apply IH; assumption].
  intros Hin. apply Hnot.
  apply list_elem_of_fmap in Hin as (e' & Heq & He').
  apply list_elem_of_lookup in He' as [k Hk].
  destruct (Forall2_lookup_r _ _ _ _ _ HF Hk) as (r' & Hr' & Hp').
  apply list_elem_of_fmap. exists r'. split.
  - apply (packages_name_inj r r' e e'); try assumption.
    rewrite Forall_lookup in Hd. exact (Hd _ _ Hr').
  - apply list_elem_of_lookup. eauto.
Qed.
End ArchiveNames.

(** The archive a conversion wrote is the fallback tier's. *)
Lemma convert_to_epub_archive h rd md title author source_url out dir ok res evs
    path entries :
  Epub.convert_to_epub h rd md title author source_url out dir = (ok, res, evs) ->
  Epub.WroteZip path entries ∈ evs ->
  exists images html_content,
    Epub.collect_images h md dir = Epub.Ret images /\
    entries = Epub.epub_entries h rd title author source_url html_content images.
Proof.
  intros Hrun Hin.
  assert (exists ok' res' evs',
            Epub.manual_tier h rd md title author source_url out dir
              = (ok', res', evs') /\
            Epub.WroteZip path entries ∈ evs') as (ok' & res' & evs' & Hm & Hin').
  { revert Hrun. unfold Epub.convert_to_epub.
    destruct (Epub.manual_tier _ _ _ _ _ _ _ _) as [[ok' res'] evs'].
    destruct (Epub._find_pandoc h).
    - destruct (Epub._convert_with_pandoc _ _ _ _ _ _ _) as [[okp resp] evsp] eqn:Hp.
      apply pandoc_no_archive in Hp.
      destruct okp; intros [= <- <- <-].
      + exfalso. apply elem_of_cons in Hin as [Hin|Hin]; [discriminate|].
        destruct Hp as [-> | ->].
        * apply elem_of_nil in Hin. exact Hin.
        * apply list_elem_of_singleton in Hin. discriminate.
      + exists ok', res', evs'. split; [reflexivity|].
        apply elem_of_cons in Hin as [Hin|Hin]; [discriminate|].
        apply elem_of_app in Hin as [Hin|Hin]; [|exact Hin].
        exfalso. destruct Hp as [-> | ->].
        * apply elem_of_nil in Hin. exact Hin.
        * apply list_elem_of_singleton in Hin. discriminate.
    - intros [= <- <- <-]. eauto. }
  exact (manual_tier_archive _ _ _ _ _ _ _ _ _ _ _ _ _ Hm Hin').
Qed.

(** X12. No two entries of an archive have the same name, provided the
    suffix of each packaged image file is empty or starts with a dot
    (as a path suffix does). *)
Theorem archive_names_distinct (h : Epub.host) (rd : Epub.renderers)
    (md_content title author source_url output_path : str)
    (images_dir : option str) (ok : bool) (result : str)
    (evs : list Epub.event) (path : str) (entries : list Epub.entry) :
  Epub.convert_to_epub h rd md_content title author source_url output_path
    images_dir = (ok, result, evs) ->
  Epub.WroteZip path entries ∈ evs ->
  Forall (fun r => dotted (Epub.path_suffix h (snd r)))
    (resolved_refs h md_content images_dir) ->
  NoDup (List.map Epub.e_name entries).
Proof.
  intros Hrun Hin Hsfx.
  destruct (convert_to_epub_archive _ _ _ _ _ _ _ _ _ _ _ _ _ Hrun Hin)
    as (images & html_content & Hcol & ->).
  pose proof (collect_images_resolved h _ _ _ Hcol) as HF.
  assert (NoDup (List.map Epub.e_name (List.map Epub.image_entry images))) as Himg.
  { apply (packaged_names_NoDup h _ _ HF Hsfx).
    unfold resolved_refs. destruct images_dir as [dir|]; [|constructor].
    destruct (truthy dir); [apply resolved_indices_NoDup | constructor]. }
  unfold Epub.epub_entries. rewrite List.map_app. apply NoDup_app.
  split; [|split; [|exact Himg]].
  - cbn [List.map Epub.e_name].
    repeat (constructor; [rewrite ?not_elem_of_cons; repeat split;
                          first [discriminate | apply not_elem_of_nil]|]).
    constructor.
  - intros name Hfixed Hname.
    apply list_elem_of_fmap in Hname as (e & -> & He).
    apply list_elem_of_lookup in He as [k Hk].
    destruct (Forall2_lookup_r _ _ _ _ _ HF Hk) as ([[i ref] p] & _ & _ & Hn).
    cbn [List.map Epub.e_name] in Hfixed.
    destruct Hn as [Hn|Hn]; rewrite Hn in Hfixed;
      repeat (apply elem_of_cons in Hfixed as [Hfixed|Hfixed]; [discriminate|]);
      apply elem_of_nil in Hfixed; exact Hfixed.
Qed.

Lemma archive_names_distinct_witness :
  exists entries,
    Epub.convert_to_epub (sample_host None) sample_renderers sample_markdown
      (L "T") (L "A") (L "http://s") (L "out/a.epub") (Some (L "out/images"))
    = (true, L "out/a.epub",
       [Epub.TriedManual; Epub.WroteZip (L "out/a.epub") entries]) /\
    length entries = 7%nat /\
    NoDup (List.map Epub.e_name entries).
Proof.
  eexists. split; [vm_compute; reflexivity|].
  split; [reflexivity|].
  match goal with
  | |- NoDup (List.map _ ?es) =>
      apply (archive_names_distinct (sample_host None) sample_renderers
               sample_markdown (L "T") (L "A") (L "http://s") (L "out/a.epub")
               (Some (L "out/images")) true (L "out/a.epub")
               [Epub.TriedManual; Epub.WroteZip (L "out/a.epub") es]
               (L "out/a.epub") es)
  end.
  - vm_compute. reflexivity.
  - apply elem_of_cons. right. apply list_elem_of_singleton. reflexivity.
  - vm_compute. constructor; [right; eexists; reflexivity | constructor].
Defined.

(** ** The media type of packaged images *)

Section MediaTypes.
Variable h : Epub.host.

Lemma collect_fold_records dir (l : list (nat * str)) :
  forall images0 images,
    Forall (fun r => Epub.path_suffix h (Epub.path_suffix h (snd r)) = [])
      (omap (resolve_ref h dir) l) ->
    fold_left (Epub.collect_image h dir) l (Epub.Ret images0)
      = Epub.Ret images ->
    exists new,
      images = images0 ++ new /\
      Forall2 (records_image h) (omap (resolve_ref h dir) l) new.
Proof.
  induction l as [|[i img_ref] l IH]; intros images0 images Hlaw.
  - cbn [fold_left]. intros [= <-]. exists []. rewrite app_nil_r.
    split; [reflexivity | constructor].
  - assert (omap (resolve_ref h dir) ((i, img_ref) :: l)
            = match resolve_ref h dir (i, img_ref) with
              | Some r => [r] ++ omap (resolve_ref h dir) l
              | None => omap (resolve_ref h dir) l
              end) as E by reflexivity.
    rewrite E in Hlaw |- *. clear E.
    set (rs := omap (resolve_ref h dir) l) in *. revert Hlaw.
    cbn [fold_left]. unfold Epub.collect_image at 2, resolve_ref.
    cbn [mbind Epub.exn_bind mret Epub.exn_ret].
    destruct (Epub.local_path h dir img_ref) as [img_path|]; [|apply IH].
    destruct (Epub.path_exists h img_path); [|apply IH].
    intros Hlaw. apply Forall_cons in Hlaw as [Hhere Hlaw]. cbn [snd] in Hhere.
    destruct (Epub.truthy_bytes _) as [png_data|] eqn:Hpng.
    + intros H. apply (IH _ _ Hlaw) in H as (new & -> & HF).
      eexists (_ :: new). rewrite <- app_assoc. split; [reflexivity|].
      cbn [app]. constructor; [|exact HF].
      unfold records_image. rewrite Hpng. reflexivity.
    + destruct (Epub.read_bytes h img_path) as [img_data|msg] eqn:Hread.
      * intros H. apply (IH _ _ Hlaw) in H as (new & -> & HF).
        eexists (_ :: new). rewrite <- app_assoc. split; [reflexivity|].
        cbn [app]. constructor; [|exact HF].
        unfold records_image. rewrite Hpng. exists img_data.
        split; [exact Hread|]. unfold Epub._get_media_type.
        rewrite Hhere. reflexivity.
      * cbn [mbind Epub.exn_bind]. rewrite collect_raise. discriminate.
Qed.
End MediaTypes.

(** X13. In the fallback tier an image that could not be converted to
    PNG is declared as [application/octet-stream], whatever its
    extension: the type is looked up for the suffix of the image's
    suffix, and a suffix taken as a path has no suffix of its own. The
    list of images holds, for each resolved reference in order, the PNG
    rendering declared as [image/png] when there is one, and otherwise
    the file's bytes under its own suffix, declared as
    [application/octet-stream]. *)
Theorem unconverted_image_media_type (h : Epub.host) (md_content : str)
    (images_dir : option str) (images : list Epub.img_info) :
  Forall (fun r => Epub.path_suffix h (Epub.path_suffix h (snd r)) = [])
    (resolved_refs h md_content images_dir) ->
  Epub.collect_images h md_content images_dir = Epub.Ret images ->
  Forall2 (records_image h) (resolved_refs h md_content images_dir) images.
Proof.
  unfold Epub.collect_images, resolved_refs. intros Hlaw.
  destruct images_dir as [dir|]; [|intros [= <-]; constructor].
  destruct (truthy dir).
  - destruct (Re.findall1 Epub.r_image_ref md_content) as [|r0 refs] eqn:Hrefs.
    + intros [= <-]. constructor.
    + intros H.
      apply (collect_fold_records h dir _ _ _ Hlaw) in H as (new & -> & HF).
      exact HF.
  - destruct (Re.findall1 Epub.r_image_ref md_content);
      intros [= <-]; constructor.
Qed.

Lemma unconverted_image_media_type_witness :
  resolved_refs plain_host (L "![a](images/a.gif)") (Some (L "out/images"))
  = [(0%nat, L "images/a.gif", L "out/images/a.gif")] /\
  Forall2 (records_image plain_host)
    (resolved_refs plain_host (L "![a](images/a.gif)") (Some (L "out/images")))
    [Epub.ImgInfo (L "images/a.gif") (L "images/img_0.gif") [71; 73; 70]
       (L "application/octet-stream")].
Proof.
  split; [vm_compute; reflexivity|].
  apply (unconverted_image_media_type plain_host (L "![a](images/a.gif)")
           (Some (L "out/images"))).
  - vm_compute. constructor; [reflexivity | constructor].
  - vm_compute. reflexivity.
Defined.

(** ** The fields of an article *)

(** X14. In the general profile the author is never empty, and title and
    author come without surrounding whitespace. *)
Theorem general_profile_fields_trimmed (html : str) :
  let '(title, author, _) := Fetcher._extract_general_content html in
  author <> [] /\ strip author = author /\ strip title = title.
Proof.
  unfold Fetcher._extract_general_content. cbv zeta.
  split; [|split].
  - destruct (Fetcher.or_else _ _) as [am|]; [|discriminate].
    destruct (Fetcher.strip_tags (Re.group 1 am)) as [|c a] eqn:Ha;
      cbn [truthy]; discriminate.
  - destruct (Fetcher.or_else _ _) as [am|]; [|reflexivity].
    destruct (Fetcher.strip_tags (Re.group 1 am)) as [|c a] eqn:Ha;
      cbn [truthy]; [reflexivity|].
    rewrite <- Ha. apply strip_idem.
  - destruct (Fetcher.general_title_match html) as [tm|]; [|reflexivity].
    apply strip_idem.
Qed.

Section FetchFacts.
Variable _fetch_html : str -> option str.
Variable today : str.
Variable urlparse_scheme : str -> str.
Variable urlparse_netloc : str -> str.
Variable urljoin : str -> str -> str.
Variable _generate_styled_html : str -> str -> str -> str -> str.

Local Abbreviation fetch_article :=
  (Fetcher.fetch_article _fetch_html today urlparse_scheme urlparse_netloc
     urljoin _generate_styled_html).

End FetchFacts.


(** ** Images without a double-quoted address *)

Lemma search_from_none (r : Re.re) (s : str) :
  (forall k bol, Re.match_here r bol (drop k s) = None) ->
  forall bol, Re.search_from r bol s = None.
Proof.
  induction s as [|c t IH]; intros H bol; cbn [Re.search_from];
    pose proof (H 0%nat bol) as H0; cbn [drop] in H0; rewrite H0.
  - reflexivity.
  - apply IH. intros k b. exact (H (S k) b).
Qed.

Lemma contains_drop (w s : str) (k : nat) :
  contains w (drop k s) = true -> contains w s = true.
Proof.
  intros H. apply contains_spec in H as (pre & post & H).
  apply contains_spec. exists (take k s ++ pre), post.
  rewrite <- (take_drop k s) at 1. rewrite H, <- app_assoc. reflexivity.
Qed.

(** A match of the address pattern of [process_img_tag] holds the text
    [src=Q], Q being the double quote. *)
Lemma img_src_match (bol : bool) (s : str) (mt : Re.mobj) :
  Re.match_here Fetcher.r_img_src bol s = Some mt ->
  contains (L "src=" ++ [dq]) s = true.
Proof.
  unfold Re.match_here, Fetcher.r_img_src, Fetcher.lit. intros H.
  rewrite m_seq_eq in H. apply m_alt_inv in H as [H|H];
    apply m_lit_inv in H as [H1 H]; rewrite m_seq_eq in H;
    apply m_lit_inv in H as [H2 _];
    apply startswith_spec in H1 as [post1 ->];
    rewrite drop_app_length in H2;
    apply startswith_spec in H2 as [post2 ->];
    apply contains_spec.
  - exists (L "data-"), post2. reflexivity.
  - exists [], post2. reflexivity.
Qed.

Lemma process_img_tag_no_src (mt : Re.mobj) :
  contains (L "src=" ++ [dq]) (Re.group 0 mt) = false ->
  Fetcher.process_img_tag mt = [].
Proof.
  intros H. unfold Fetcher.process_img_tag. cbv zeta.
  unfold Re.search. rewrite search_from_none; [reflexivity|].
  intros k bol. destruct (Re.match_here _ _ _) as [m'|] eqn:Hm; [|reflexivity].
  apply img_src_match, contains_drop in Hm. congruence.
Qed.

(** A greedy repetition whose continuation succeeds after the longest
    run returns what the continuation returns there. *)
Lemma rep_greedy_longest {A} (p : char -> bool) (k : bool -> str -> option A) :
  forall s bol x,
    k (Re.bol_after (take (run_len p s) s) bol) (drop (run_len p s) s) = Some x ->
    Re.rep_greedy p 0 bol s k = Some x.
Proof.
  induction s as [|c t IH]; intros bol x; cbn [Re.rep_greedy run_len].
  - intros H. exact H.
  - destruct (p c); [|intros H; exact H].
    cbn [take drop Re.bol_after Nat.pred]. intros H. rewrite (IH _ _ H). reflexivity.
Qed.

Lemma run_len_all (p : char -> bool) (a rest : str) :
  Forall (fun c => p c = true) a ->
  match rest with c :: _ => p c = false | [] => True end ->
  run_len p (a ++ rest) = length a.
Proof.
  intros Ha Hrest. induction Ha as [|c a Hc _ IH]; cbn [app run_len length].
  - destruct rest as [|c rest]; [reflexivity|]. cbn [run_len]. rewrite Hrest.
    reflexivity.
  - rewrite Hc, IH. reflexivity.
Qed.

(** Passing over the whole rest of the text leaves nothing, for a
    pattern that does not match the empty text. *)
Lemma sub_go_skip_all (r : Re.re) (f : Re.mobj -> str) (s : str) :
  (forall b, Re.match_here r b [] = None) ->
  forall n bol, (length s <= n)%nat -> Re.sub_go r f n bol s = [].
Proof.
  intros Hr. induction s as [|c t IH]; intros n bol Hn.
  - destruct n; cbn [Re.sub_go]; [rewrite Hr|]; reflexivity.
  - destruct n as [|n]; [cbn in Hn; lia|]. cbn [Re.sub_go].
    apply IH. cbn [length] in Hn. lia.
Qed.

(** X16. An image tag that holds no [src=Q] (Q being the double quote),
    for instance one whose address is quoted with single quotes, leaves
    nothing in the Markdown text, although image discovery accepts
    single quotes. *)
Theorem img_without_double_quoted_src_is_dropped (attrs : str) :
  Forall (fun c => c <> 60 /\ c <> 62) attrs ->
  contains (L "src=" ++ [dq]) (L "<img" ++ attrs ++ L ">") = false ->
  Fetcher._html_to_markdown (L "<img" ++ attrs ++ L ">") = [].
Proof.
  intros Hattrs Hsrc.
  assert (Forall (fun c => c <> 60) (L "img" ++ attrs ++ L ">")) as Hlt.
  { rewrite !Forall_app. repeat split.
    - repeat constructor; discriminate.
    - eapply Forall_impl; [exact Hattrs|]. cbv beta. tauto.
    - repeat constructor; discriminate. }
  unfold Fetcher._html_to_markdown. cbv zeta.
  assert (Re.sub Fetcher.r_comment [] (L "<img" ++ attrs ++ L ">")
          = L "<img" ++ attrs ++ L ">") as ->.
  { unfold Re.sub, Re.sub_fn. change (L "<img") with (60 :: L "img").
    cbn [app Re.sub_go]. change (Re.match_here _ _ _) with (@None Re.mobj).
    cbv iota. f_equal.
    apply (sub_go_starts_at 60); [unfold Fetcher.r_comment; plain_pattern|].
    exact Hlt. }
  assert (Re.sub_fn Fetcher.r_img_tag Fetcher.process_img_tag
            (L "<img" ++ attrs ++ L ">") = []) as ->.
  { assert (Re.match_here Fetcher.r_img_tag true (L "<img" ++ attrs ++ L ">")
            = Some (Re.MObj (L "<img" ++ attrs ++ L ">") [])) as Hm.
    { unfold Re.match_here, Fetcher.r_img_tag, Fetcher.lit.
      rewrite m_seq_eq. cbn [Re.m]. change (Re.istartswith _ _) with true.
      cbv iota. rewrite drop_app_length.
      apply rep_greedy_longest.
      rewrite (run_len_all (Re.not_chr Fetcher.gt) attrs (L ">")).
      - rewrite drop_app_length.
        change (startswith (L ">") (L ">")) with true.
        change (drop (length (L ">")) (L ">")) with (@nil N).
        cbv iota. cbn [length]. rewrite Nat.sub_0_r, firstn_all. reflexivity.
      - eapply Forall_impl; [exact Hattrs|]. cbv beta. intros c [_ Hc].
        unfold Re.not_chr. apply negb_true_iff, N.eqb_neq, Hc.
      - reflexivity. }
    unfold Re.sub_fn. change (L "<img") with (60 :: L "img") in *.
    cbn [app] in *. cbn [Re.sub_go]. rewrite Hm.
    rewrite process_img_tag_no_src by exact Hsrc.
    cbn [Re.m_text length app].
    apply sub_go_skip_all; [reflexivity | cbn [length]; lia]. }
  vm_compute. reflexivity.
Qed.

Lemma img_without_double_quoted_src_is_dropped_witness :
  Fetcher._html_to_markdown (L "<img" ++ L " src='http://h/a.png'" ++ L ">") = [] /\
  Fetcher._extract_image_urls (fun _ => []) (fun _ => []) (fun _ u => u)
    (L "<img src='http://h/a.png'>") None = [L "http://h/a.png"].
Proof.
  split.
  - apply (img_without_double_quoted_src_is_dropped (L " src='http://h/a.png'")).
    + repeat constructor; discriminate.
    + reflexivity.
  - vm_compute. reflexivity.
Defined.

(** ** The address read back from the header *)

Lemma startswith_before_nl (w x rest : str) :
  Forall (fun c => c <> nl) w ->
  startswith (x ++ nl :: rest) w = true -> startswith x w = true.
Proof.
  intros Hw. revert x. induction Hw as [|a w Ha _ IH]; intros x H; [reflexivity|].
  destruct x as [|c x]; cbn [app startswith] in H |- *.
  - apply andb_true_iff in H as [H _]. apply N.eqb_eq in H. congruence.
  - apply andb_true_iff in H as [H1 H2]. rewrite H1. exact (IH x H2).
Qed.

Lemma match_here_lit_fail (w : str) (r : Re.re) (bol : bool) (s : str) :
  startswith s w = false -> Re.match_here (Re.Seq (Re.Lit w) r) bol s = None.
Proof. intros H. unfold Re.match_here. cbn [Re.m]. rewrite H. reflexivity. Qed.

(** The search for a pattern that begins with the literal [w] passes
    over a line in which [w] does not occur. *)
Lemma search_from_skip_line (w : str) (r : Re.re) (x rest : str) :
  Forall (fun c => c <> nl) w ->
  contains w x = false ->
  forall bol, exists bol',
    Re.search_from (Re.Seq (Re.Lit w) r) bol (x ++ nl :: rest)
    = Re.search_from (Re.Seq (Re.Lit w) r) bol' (nl :: rest).
Proof.
  intros Hw. induction x as [|c x IH]; intros Hx bol; [eauto|].
  cbn [contains] in Hx. apply orb_false_iff in Hx as [H1 H2].
  cbn [app Re.search_from]. rewrite match_here_lit_fail.
  - apply IH, H2.
  - destruct (startswith ((c :: x) ++ nl :: rest) w) eqn:Hs; [|exact Hs].
    apply startswith_before_nl in Hs; [congruence | exact Hw].
Qed.

Lemma search_from_here (r : Re.re) (bol : bool) (s : str) (mt : Re.mobj) :
  Re.match_here r bol s = Some mt -> Re.search_from r bol s = Some mt.
Proof. intros H. destruct s; cbn [Re.search_from]; rewrite H; reflexivity. Qed.

Lemma search_from_cons_fail (w : str) (r : Re.re) (c : char) (t : str) bol :
  startswith (c :: t) w = false ->
  Re.search_from (Re.Seq (Re.Lit w) r) bol (c :: t)
  = Re.search_from (Re.Seq (Re.Lit w) r) (c =? nl) t.
Proof. intros H. cbn [Re.search_from]. rewrite match_here_lit_fail by exact H. reflexivity. Qed.

Lemma lstrip_drop (s : str) : lstrip s = drop (run_len isspace s) s.
Proof.
  induction s as [|c t IH]; [reflexivity|]. cbn [lstrip run_len].
  destruct (isspace c); [exact IH | reflexivity].
Qed.

Lemma lstrip_app (a b : str) : lstrip a <> [] -> lstrip (a ++ b) = lstrip a ++ b.
Proof.
  induction a as [|c a IH]; [intros H; cbn in H; congruence|].
  cbn [lstrip app]. destruct (isspace c); [exact IH | reflexivity].
Qed.

Lemma lstrip_nonspace (s : str) :
  Exists (fun c => isspace c = false) s -> lstrip s <> [].
Proof.
  induction 1 as [c t Hc|c t _ IH]; cbn [lstrip].
  - rewrite Hc. discriminate.
  - destruct (isspace c); [exact IH | discriminate].
Qed.

Lemma lstrip_Forall (P : char -> Prop) (s : str) : Forall P s -> Forall P (lstrip s).
Proof.
  induction 1 as [|c t Hc Ht IH]; [constructor|]. cbn [lstrip].
  destruct (isspace c); [exact IH | constructor; assumption].
Qed.

(** The pattern of the source line, at the label: the address is the
    rest of the line, without the whitespace before it. *)
Lemma source_line_match (url rest : str) (bol : bool) :
  Forall (fun c => c <> nl) url ->
  Exists (fun c => isspace c = false) url ->
  exists mt,
    Re.match_here Gui.r_source_url bol
      (L "**" ++ Fetcher.label_source ++ L "**: " ++ url ++ nl :: rest) = Some mt /\
    Re.group 1 mt = lstrip url.
Proof.
  intros Hnl Hvis.
  unfold Re.match_here, Gui.r_source_url.
  rewrite m_seq_eq. cbn [Re.m].
  change (L "**" ++ Fetcher.label_source ++ L "**: " ++ url ++ nl :: rest)
    with ((L "**" ++ Fetcher.label_source ++ L "**:") ++ 32 :: url ++ nl :: rest).
  set (w := L "**" ++ Fetcher.label_source ++ L "**:").
  assert (startswith (w ++ 32 :: url ++ nl :: rest) w = true) as ->
    by (apply startswith_spec; eauto).
  rewrite drop_app_length.
  set (s1 := 32 :: url ++ nl :: rest).
  set (whole := w ++ s1).
  assert (lstrip s1 = lstrip url ++ nl :: rest) as Hl.
  { subst s1. change (lstrip (32 :: url ++ nl :: rest))
      with (lstrip (url ++ nl :: rest)).
    apply lstrip_app, lstrip_nonspace, Hvis. }
  pose proof (lstrip_nonspace url Hvis) as Hne.
  pose proof (lstrip_Forall _ url Hnl) as Hnl'.
  destruct (lstrip url) as [|c v] eqn:Hv; [congruence|].
  apply Forall_cons in Hnl' as [Hc Hv'].
  assert (run_len Re.not_nl ((c :: v) ++ nl :: rest) = length (c :: v)) as Hrun.
  { apply run_len_all.
    - constructor.
      + unfold Re.not_nl, Re.not_chr. apply negb_true_iff, N.eqb_neq, Hc.
      + eapply Forall_impl; [exact Hv'|]. intros d Hd.
        unfold Re.not_nl, Re.not_chr. apply negb_true_iff, N.eqb_neq, Hd.
    - reflexivity. }
  eexists. split.
  - apply rep_greedy_longest. rewrite <- lstrip_drop, Hl.
    unfold Re.plus. cbn [Re.m].
    rewrite rep_greedy_total_lo by (intros; eexists; reflexivity).
    rewrite Hrun. cbn [length Nat.leb]. reflexivity.
  - cbn [Re.group Re.m_groups Re.lookup_cap Nat.eqb default].
    unfold id. change (S (length v)) with (length (c :: v)).
    rewrite drop_app_length, length_app.
    replace (length (c :: v) + length (nl :: rest) - length (nl :: rest))%nat
      with (length (c :: v)) by lia.
    apply take_app_length.
Qed.

Lemma generate_markdown_header (today url title author content : str) :
  Fetcher._generate_markdown today url title author content
  = markdown_header today url title author ++ content ++ [nl].
Proof.
  unfold Fetcher._generate_markdown, markdown_header.
  rewrite <- !app_assoc. reflexivity.
Qed.

(** The address read back from a text that begins with the header. *)
Lemma source_url_of_header (today url title author rest : str) :
  Forall (fun c => c <> nl) url ->
  Exists (fun c => isspace c = false) url ->
  contains (L "**" ++ Fetcher.label_source ++ L "**:") title = false ->
  contains (L "**" ++ Fetcher.label_source ++ L "**:") author = false ->
  Gui.source_url (markdown_header today url title author ++ rest) = strip url.
Proof.
  intros Hnl Hvis Htitle Hauthor.
  unfold Gui.source_url, Re.search, markdown_header, Gui.r_source_url.
  rewrite <- !app_assoc.
  set (w := L "**" ++ Fetcher.label_source ++ L "**:").
  set (r := Re.Seq (Re.star isspace) (Re.Grp 1 (Re.plus Re.not_nl))).
  assert (Forall (fun c => c <> nl) w) as Hw by (repeat constructor; discriminate).
  change (L "# " ++ title ++ [nl; nl] ++ ?x) with (35 :: 32 :: title ++ nl :: nl :: x).
  rewrite !search_from_cons_fail by reflexivity.
  match goal with
  | |- context [Re.search_from _ ?b (title ++ nl :: ?rest)] =>
      destruct (search_from_skip_line w r title rest Hw Htitle b) as [b1 ->]
  end.
  change (L "> **" ++ Fetcher.label_author ++ L "**: " ++ author ++ [nl] ++ ?x)
    with ([62; 32; 42; 42; 20316; 32773; 42; 42; 58; 32] ++ author ++ nl :: x).
  cbn [app]. rewrite !search_from_cons_fail by reflexivity.
  match goal with
  | |- context [Re.search_from _ ?b (author ++ nl :: ?rest)] =>
      destruct (search_from_skip_line w r author rest Hw Hauthor b) as [b2 ->]
  end.
  change (L "> **" ++ Fetcher.label_source ++ L "**: " ++ url ++ ?x)
    with (62 :: 32 :: L "**" ++ Fetcher.label_source ++ L "**: " ++ url ++ x).
  rewrite !search_from_cons_fail by reflexivity.
  match goal with
  | |- context [Re.search_from ?p ?b (L "**" ++ Fetcher.label_source ++
                                       L "**: " ++ url ++ nl :: ?rest)] =>
      destruct (source_line_match url rest b Hnl Hvis) as (mt & Hm & Hg);
      replace (Re.search_from p b (L "**" ++ Fetcher.label_source ++
                                   L "**: " ++ url ++ nl :: rest))
        with (Some mt) by (symmetry; apply search_from_here; exact Hm)
  end.
  rewrite Hg. unfold strip. rewrite lstrip_idem. reflexivity.
Qed.

Lemma startswith_app (x y w : str) :
  startswith x w = true -> startswith (x ++ y) w = true.
Proof.
  intros H. apply startswith_spec in H as [post ->].
  apply startswith_spec. exists (post ++ y). rewrite <- app_assoc. reflexivity.
Qed.

(** A replacement passes over a line in which the replaced text, itself
    without newline, does not occur. *)
Lemma replace_skip_line (old new x rest : str) :
  Forall (fun c => c <> nl) old ->
  contains old (x ++ [nl]) = false ->
  replace old new (x ++ nl :: rest) = x ++ nl :: replace old new rest.
Proof.
  intros Hold Hx. destruct old as [|a old'].
  { rewrite contains_nil in Hx. discriminate. }
  unfold replace. induction x as [|c x IH].
  - cbn [app replace_go startswith].
    apply Forall_cons in Hold as [Ha _].
    destruct (N.eqb_spec a nl); [congruence|]. reflexivity.
  - cbn [app contains] in Hx. apply orb_false_iff in Hx as [H1 H2].
    cbn [app replace_go].
    destruct (startswith (c :: x ++ nl :: rest) (a :: old')) eqn:Hs.
    + apply (startswith_before_nl (a :: old') (c :: x) rest Hold) in Hs.
      apply (startswith_app _ [nl]) in Hs. cbn [app] in Hs. congruence.
    + rewrite (IH H2). reflexivity.
Qed.

Lemma replace_image_urls_keeps_header (urlparse : str -> option (str * str))
    (x : str) (url_mapping : list (str * str)) :
  Forall (fun item =>
            exists parsed,
              urlparse (fst item) = Some parsed /\
              header_free (x ++ [nl]) (fst item) /\
              forall r, Fetcher.relative_url parsed = Some r ->
                        header_free (x ++ [nl]) r)
    url_mapping ->
  forall rest, exists rest',
    Fetcher.replace_image_urls urlparse (x ++ nl :: rest) url_mapping
    = Some (x ++ nl :: rest').
Proof.
  unfold Fetcher.replace_image_urls.
  induction 1 as [|[u l] items (parsed & Hp & [Hu1 Hu2] & Hr) _ IH]; intros rest.
  - exists rest. reflexivity.
  - cbn [fold_left]. unfold Fetcher.replace_url_step at 2.
    cbn [mbind option_bind fst] in *.
    rewrite (replace_skip_line u l x rest Hu1 Hu2), Hp. cbn [mbind option_bind].
    destruct (Fetcher.relative_url parsed) as [r|] eqn:Hrel; [|apply IH].
    destruct (Hr r eq_refl) as [Hr1 Hr2].
    rewrite (replace_skip_line r l x _ Hr1 Hr2). apply IH.
Qed.

(** X17. The source address the save operations hand to the converter
    is the article's address, trimmed, also after the image addresses
    have been replaced in the text: provided the address has no newline
    and is not blank, the label of the source line occurs neither in the
    title nor in the author, and every address of the mapping can be
    parsed and, like its root-relative form, holds no newline and does
    not occur in the header. *)
Theorem epub_source_url_of_generated_markdown
    (urlparse : str -> option (str * str))
    (today url title author content : str) (url_mapping : list (str * str)) :
  Forall (fun c => c <> nl) url ->
  Exists (fun c => isspace c = false) url ->
  contains (L "**" ++ Fetcher.label_source ++ L "**:") title = false ->
  contains (L "**" ++ Fetcher.label_source ++ L "**:") author = false ->
  Forall (fun item =>
            exists parsed,
              urlparse (fst item) = Some parsed /\
              header_free (markdown_header today url title author) (fst item) /\
              forall r, Fetcher.relative_url parsed = Some r ->
                        header_free (markdown_header today url title author) r)
    url_mapping ->
  Gui.epub_source_url urlparse
    (Fetcher._generate_markdown today url title author content) url_mapping
  = Some (strip url).
Proof.
  intros Hnl Hvis Htitle Hauthor Hmap.
  unfold Gui.epub_source_url. rewrite generate_markdown_header.
  set (x := L "# " ++ title ++ [nl; nl] ++
            L "> **" ++ Fetcher.label_author ++ L "**: " ++ author ++ [nl] ++
            L "> **" ++ Fetcher.label_source ++ L "**: " ++ url ++ [nl] ++
            L "> **" ++ Fetcher.label_saved ++ L "**: " ++ today ++ [nl; nl] ++
            L "---" ++ [nl]).
  assert (markdown_header today url title author = x ++ [nl]) as Hx.
  { unfold markdown_header, x. rewrite <- !app_assoc. reflexivity. }
  rewrite Hx in Hmap.
  destruct (replace_image_urls_keeps_header urlparse x url_mapping Hmap
              (content ++ [nl])) as [rest' Hrep].
  replace (markdown_header today url title author ++ content ++ [nl])
    with (x ++ nl :: content ++ [nl])
    by (rewrite Hx, <- app_assoc; reflexivity).
  rewrite Hrep. cbn [mbind option_bind]. f_equal.
  replace (x ++ nl :: rest')
    with (markdown_header today url title author ++ rest')
    by (rewrite Hx, <- app_assoc; reflexivity).
  apply source_url_of_header; assumption.
Qed.

Lemma epub_source_url_of_generated_markdown_witness :
  Gui.epub_source_url (fun _ => Some (L "/a.png", []))
    (Fetcher._generate_markdown (L "2024-01-02") (L " https://s/p ") (L "A title")
       (L "me") (L "![x](https://h/a.png)"))
    [(L "https://h/a.png", L "images/1.png")]
  = Some (strip (L " https://s/p ")).
Proof.
  apply epub_source_url_of_generated_markdown.
  - repeat constructor; discriminate.
  - apply Exists_cons_tl, Exists_cons_hd. reflexivity.
  - reflexivity.
  - reflexivity.
  - constructor; [|constructor].
    exists (L "/a.png", []). split; [reflexivity|]. split.
    + split; [repeat constructor; discriminate | reflexivity].
    + intros r [= <-]. split; [repeat constructor; discriminate | reflexivity].
Defined.

(** ** The names of downloaded files *)

Lemma pad_dec_length (w n : nat) : length (Downloader.pad_dec w n) = w.
Proof.
  revert n. induction w as [|w IH]; intros n; [reflexivity|].
  cbn [Downloader.pad_dec]. rewrite length_app, IH. cbn [length]. lia.
Qed.

Lemma strftime_length (t : Downloader.datetime) :
  length (Downloader.strftime t) = 22%nat.
Proof.
  unfold Downloader.strftime. rewrite !length_app, !pad_dec_length. reflexivity.
Qed.

(** X18. Within one batch no two downloads are stored under the same
    name: the names of downloads that succeed at different positions
    differ, whatever the clock shows and whatever the extensions are. *)
Theorem downloaded_file_names_distinct
    (urlopen : str -> list (str * str) -> option (str * list N))
    (write_ok : str -> str -> bool) (now : nat -> Downloader.datetime)
    (referer images_dir : str) (i j : nat) (u v name_u name_v : str) :
  i <> j ->
  fst (Downloader.download_image urlopen write_ok referer u images_dir
         (image_filename now i)) = Some name_u ->
  fst (Downloader.download_image urlopen write_ok referer v images_dir
         (image_filename now j)) = Some name_v ->
  name_u <> name_v.
Proof.
  intros Hij Hu Hv Heq. apply Hij.
  apply download_image_success in Hu as (ct1 & d1 & _ & _ & ->).
  apply download_image_success in Hv as (ct2 & d2 & _ & _ & ->).
  unfold image_filename in Heq. rewrite <- !app_assoc in Heq.
  apply (f_equal (drop 22)) in Heq.
  rewrite <- (strftime_length (now i)) in Heq at 1.
  rewrite drop_app_length in Heq.
  rewrite <- (strftime_length (now j)) in Heq.
  rewrite drop_app_length in Heq.
  injection Heq as Heq.
  apply str_of_nat_inj.
  destruct (get_image_extension_shape u ct1) as (Hd1 & _ & _).
  destruct (get_image_extension_shape v ct2) as (Hd2 & _ & _).
  apply startswith_spec in Hd1 as [t1 Ht1], Hd2 as [t2 Ht2].
  eapply dot_free_prefix_inj; [apply str_of_nat_no_dot | apply str_of_nat_no_dot
                              | | | exact Heq].
  - right. exists t1. exact Ht1.
  - right. exists t2. exact Ht2.
Qed.

Lemma downloaded_file_names_distinct_witness :
  bool_decide (L "20240102_030405_000006_1.png"
               = L "20240102_030405_000006_2.jpg") = false.
Proof.
  apply bool_decide_eq_false_2.
  apply (downloaded_file_names_distinct
           (fun url _ =>
              if bool_decide (url = L "https://a/x.png")
              then Some (L "image/png", [137; 80; 78; 71])
              else Some (L "text/html", [60]))
           (fun _ _ => true)
           (fun _ => Downloader.DateTime 2024 1 2 3 4 5 6)
           (L "https://s/") (L "out/images") 1 2
           (L "https://a/x.png") (L "https://b/y"));
    [lia | vm_compute; reflexivity | vm_compute; reflexivity].
Defined.

(** ** The lines the header removal keeps *)

Lemma strip_header_sublist (ls : list str) :
  forall in_header acc seen,
    sublist acc seen ->
    sublist (snd (fold_left Epub.strip_header_step ls (in_header, acc)))
      (seen ++ ls).
Proof.
  induction ls as [|l ls IH]; intros in_header acc seen Hsub.
  - cbn [fold_left snd]. rewrite app_nil_r. exact Hsub.
  - cbn [fold_left].
    replace (seen ++ l :: ls) with ((seen ++ [l]) ++ ls)
      by (rewrite <- app_assoc; reflexivity).
    assert (sublist acc (seen ++ [l])) as Hskip
      by (apply sublist_inserts_r, Hsub).
    assert (sublist (acc ++ [l]) (seen ++ [l])) as Hkeep
      by (apply sublist_app; [exact Hsub | reflexivity]).
    unfold Epub.strip_header_step at 2.
    destruct in_header; [|apply IH, Hkeep].
    destruct (startswith _ (L "# ")); [apply IH, Hskip|].
    destruct (_ && _); [apply IH, Hskip|].
    destruct (negb _); [apply IH, Hskip|].
    destruct (bool_decide _); [apply IH, Hskip | apply IH, Hkeep].
Qed.

(** X19. Removing the header only removes lines: the result is made of
    lines of the text, in their order, none of them altered. *)
Theorem strip_markdown_header_keeps_lines (md_content : str) :
  exists kept,
    sublist kept (split_nl md_content) /\
    Epub._strip_markdown_header md_content = join [nl] kept.
Proof.
  eexists. split; [|reflexivity].
  apply (strip_header_sublist (split_nl md_content) true [] []). constructor.
Qed.
